(** * islandr.io server: a shallow embedding of the session layer and the Bullet entity

    Sources embedded here:
    - [src/store/entities/bullet.ts]  (class [Bullet], method [tick])
    - [server/src/index.ts]           (connection handler, message handler,
                                   close handler, tick loop)

    Classes the two files import but do not define ([Vec2], [Entity],
    [GameObject], [Player], [Inventory], [World]) appear as interfaces (type
    classes, section variables) or as small records whose doc comment says
    where their shape comes from.  JavaScript numbers that index arrays or
    count (slot indices, deltas, direction indices, times in ms) are integers
    of [Z]; where a packet's number enters a sum (the weapon switch), the
    sum is rounded as a binary64 addition rounds it, and an array index
    stops at [2^32 - 2] (module [Number]); coordinates are floats. *)

From Stdlib Require Import ZArith Lia List Bool PrimFloat Uint63.
From stdpp Require Import gmap strings list.
Import ListNotations.

Local Open Scope Z_scope.

(** ** Vec2 *)

Module Vec2.

(** The operations of [Vec2] that the two source files call:
    [Vec2.ZERO], [v.addVec(w)], [v.unit()].  The class is defined in
    [types/math], not in the two files, so it is an interface here. *)
Class Ops (V : Type) := {
  ZERO : V;
  addVec : V -> V -> V;
  unit : V -> V
}.

(** Modelled from the spec: Vec2 is a pair of floating point coordinates
    that "supports addition, scaling, unit-normalization (zero vector
    normalizes to zero, not NaN)".  Coordinates are binary64 floats. *)
Definition t : Type := (float * float)%type.

Definition magnitude (v : t) : float :=
  PrimFloat.sqrt (fst v * fst v + snd v * snd v)%float.

Definition float_unit (v : t) : t :=
  let mag := magnitude v in
  if PrimFloat.eqb mag 0%float then (0%float, 0%float)
  else (fst v / mag, snd v / mag)%float.

#[global] Instance float_ops : Ops t := {|
  ZERO := (0%float, 0%float);
  addVec := fun v w => (fst v + fst w, snd v + snd w)%float;
  unit := float_unit
|}.

End Vec2.

(** ** Entity (base class of Bullet) *)

Module Entity.

(** Modelled from the spec: the base class [Entity] ([types/entities]) is
    not defined in the two files.  Its fields are those of the data model
    (position, velocity, vulnerable, despawn); [tick] "advances position by
    velocity, and performs no collision logic itself"; [die] "sets despawn
    true exactly once; subsequent calls are no-ops". *)
Record t (V : Type) := mk {
  position : V;
  velocity : V;
  vulnerable : bool;
  despawn : bool
}.
Arguments mk {V} _ _ _ _.
Arguments position {V} _.
Arguments velocity {V} _.
Arguments vulnerable {V} _.
Arguments despawn {V} _.

Definition tick {V} `{Vec2.Ops V} (e : t V) : t V :=
  mk (Vec2.addVec (position e) (velocity e)) (velocity e) (vulnerable e) (despawn e).

Definition die {V} (e : t V) : t V :=
  if despawn e then e else mk (position e) (velocity e) (vulnerable e) true.

End Entity.

(** What the bullet needs from the things it can hit.  [GameObject] and
    [Entity] both offer [damage(amount)], and [this.collided(thing)] is the
    overlap test of the bullet's hitbox against the thing; both methods are
    defined outside the two files. *)
Class Hittable (V number T : Type) := {
  collided : Entity.t V -> T -> bool;
  damage : number -> T -> T
}.

(** ** Bullet *)

Module Bullet.

Section WithTypes.
Context {V : Type} `{Vec2.Ops V}.
Context {number : Type}.
Context {GameObject : Type} `{!Hittable V number GameObject}.
Context {OtherEntity : Type} `{!Hittable V number OtherEntity}.

(** [class Bullet extends Entity]: the inherited part and the two fields
    the class adds ([type] and [hitbox] are constants of the class; the
    hitbox is what [collided] tests with). *)
Record t := mk {
  base : Entity.t V;
  dmg : number;
  ticks : number
}.

(** [constructor(dmg, velocity, ticks)]; [super_] is what [super()] built. *)
Definition new (super_ : Entity.t V) (dmg_ : number) (velocity_ : V) (ticks_ : number) : t :=
  mk (Entity.mk (Entity.position super_) velocity_ false (Entity.despawn super_)) dmg_ ticks_.

Definition die (b : t) : t := mk (Entity.die (base b)) (dmg b) (ticks b).

Definition despawn (b : t) : bool := Entity.despawn (base b).

(** Which of the two lists of [tick] a call touches. *)
Inductive target := Obj | Ent.

(** The calls [tick] makes on its arguments, in program order. *)
Inductive event :=
  | Collided (k : target) (i : nat)
  | Damaged (k : target) (i : nat) (d : number)
  | Died.

(** One [for (const x of xs) if (this.collided(x)) { x.damage(this.dmg);
    this.die(); break; }] loop, from position [i] of the list on. *)
Fixpoint hit_first {T} `{!Hittable V number T}
    (k : target) (b : t) (i : nat) (xs : list T) : t * list T * list event :=
  match xs with
  | [] => (b, [], [])
  | x :: rest =>
      if collided (base b) x
      then (die b, damage (dmg b) x :: rest,
            [Collided k i; Damaged k i (dmg b); Died])
      else let '(b', rest', log) := hit_first k b (S i) rest in
           (b', x :: rest', Collided k i :: log)
  end.

Record outcome := {
  bullet : t;
  entities : list OtherEntity;
  objects : list GameObject;
  log : list event
}.

(** [tick(entities, objects)], bullet.ts lines 19-31. *)
Definition tick (b : t) (es : list OtherEntity) (os : list GameObject) : outcome :=
  let b0 := mk (Entity.tick (base b)) (dmg b) (ticks b) in
  let '(b1, os', log1) := hit_first Obj b0 0 os in
  if negb (despawn b1)
  then let '(b2, es', log2) := hit_first Ent b1 0 es in
       {| bullet := b2; entities := es'; objects := os'; log := log1 ++ log2 |}
  else {| bullet := b1; entities := es; objects := os'; log := log1 |}.

(** The bullet as the collision tests see it: after [super.tick]. *)
Definition moved (b : t) : Entity.t V := Entity.tick (base b).

(** Spec wording: "the first overlapping object in iteration order". *)
Definition first_overlap {T} `{!Hittable V number T}
    (e : Entity.t V) (xs : list T) (i : nat) (x : T) : Prop :=
  xs !! i = Some x /\ collided e x = true /\
  forall j y, (j < i)%nat -> xs !! j = Some y -> collided e y = false.

Definition overlaps_some {T} `{!Hittable V number T} (e : Entity.t V) (xs : list T) : Prop :=
  exists x, x ∈ xs /\ collided e x = true.

Definition overlaps_someb {T} `{!Hittable V number T} (e : Entity.t V) (xs : list T) : bool :=
  existsb (collided e) xs.

End WithTypes.

Arguments t : clear implicits.
Arguments outcome : clear implicits.
Arguments event : clear implicits.

End Bullet.


(** ** Outcomes of a callback *)

(** A callback of the server either runs to its end, or throws (nothing in
    index.ts catches an exception of the message handler), or its [while]
    loop is still running when the fuel of the model is used up. *)
Inductive Outcome (A : Type) :=
| Ok (a : A)
| Throws
| OutOfFuel.
Arguments Ok {A} a.
Arguments Throws {A}.
Arguments OutOfFuel {A}.

(** What [f] sees of the result of a callback that ran to its end. *)
Definition observe {A B : Type} (f : A -> B) (o : Outcome A) : Outcome B :=
  match o with
  | Ok a => Ok (f a)
  | Throws => Throws
  | OutOfFuel => OutOfFuel
  end.

(** ** Inventory and the switchweapon packet *)

(** ** JavaScript numbers that hold integers *)

Module Number.

(** The binary64 number nearest to the integer [z], ties to the even
    significand: [z] itself while [|z| < 2^53]; beyond, for
    [2^e <= |z| < 2^(e+1)], a multiple of the spacing [2^(e-52)]. *)
Definition round53 (z : Z) : Z :=
  let e := Z.log2 (Z.abs z) in
  if e <? 53 then z
  else
    let ulp := 2 ^ (e - 52) in
    let q := Z.abs z / ulp in
    let r := Z.abs z mod ulp in
    let q' := if 2 * r <? ulp then q
              else if ulp <? 2 * r then q + 1
              else if Z.even q then q else q + 1 in
    Z.sgn z * (q' * ulp).

(** [a + b] on two numbers that hold integers: the exact sum, rounded. *)
Definition add (a b : Z) : Z := round53 (a + b).

(** A rounded sum is a number below [2^1024] in magnitude; from there on
    the addition gives [Infinity] or [-Infinity]. *)
Definition finite (z : Z) : bool := Z.abs z <? 2 ^ 1024.

(** The binary64 number of an integer below [2^63] in magnitude, as a
    primitive float. *)
Definition to_float (z : Z) : float :=
  if z <? 0 then (- PrimFloat.of_uint63 (Uint63.of_Z (- z)))%float
  else PrimFloat.of_uint63 (Uint63.of_Z z).

(** The largest index of a JavaScript array, [2^32 - 2]; an array has at
    most [max_index + 1] elements. *)
Definition max_index : Z := 4294967294.

End Number.

Module Inventory.

(** Modelled from the spec: class [Inventory] is not defined in the two
    files.  It is an "ordered sequence of weapon slots with a holding
    index"; a slot holds a weapon or nothing. *)
Record t (Weapon : Type) := mk {
  holding : Z;
  weapons : list (option Weapon)
}.
Arguments mk {Weapon} _ _.
Arguments holding {Weapon} _.
Arguments weapons {Weapon} _.

(** [weapons.length] *)
Definition length {Weapon} (inv : t Weapon) : Z := Z.of_nat (List.length (weapons inv)).

(** The content of slot [i], for [i] an index of the array. *)
Definition slot {Weapon} (inv : t Weapon) (i : Z) : option Weapon :=
  if (i <? 0) then None else mjoin (weapons inv !! Z.to_nat i).

Definition occupied {Weapon} (inv : t Weapon) (i : Z) : Prop :=
  0 <= i < length inv /\ is_Some (slot inv i).

(** What is known of the method [getWeapon(index)], whose body is not in the
    two files: on an index of the array it answers the slot's content.  What
    it answers elsewhere (a negative index) is left to the implementation. *)
Definition reads_slots {Weapon} (getWeapon : t Weapon -> Z -> option Weapon) : Prop :=
  forall inv i, 0 <= i < length inv -> getWeapon inv i = slot inv i.

Section SwitchWeapon.
Context {Weapon : Type}.
Variable getWeapon : t Weapon -> Z -> option Weapon.

(** [if (holding < 0) holding += weapons.length; else holding %= weapons.length;]
    (index.ts lines 159-160 and 163-164).  JavaScript's [%] truncates, as
    [Z.rem] does, and is exact; [+=] rounds. *)
Definition wrap (inv : t Weapon) (holding : Z) : Z :=
  if holding <? 0 then Number.add holding (length inv) else Z.rem holding (length inv).

(** The [while (!getWeapon(holding))] loop, lines 161-165. *)
Fixpoint skip_empty (fuel : nat) (inv : t Weapon) (unitDelta holding : Z) : option Z :=
  match fuel with
  | O => None
  | S fuel' =>
      match getWeapon inv holding with
      | Some _ => Some holding
      | None => skip_empty fuel' inv unitDelta (wrap inv (Number.add holding unitDelta))
      end
  end.

(** Lines 158-160: the index the loop starts from,
    [player.inventory.holding + swPacket.delta] after the first
    wrap-around. *)
Definition start (inv : t Weapon) (delta : Z) : Z :=
  wrap inv (Number.add (holding inv) delta).

(** Relative mode, lines 157-166: the new value of [inventory.holding].
    When the sum of line 158 overflows, [holding] is [Infinity] or
    [-Infinity], and then [NaN] or [-Infinity] at every turn of the loop,
    no index of a slot: the loop reaches no slot. *)
Definition switch_relative (fuel : nat) (inv : t Weapon) (delta : Z) : option Z :=
  let unitDelta := if delta <? 0 then -1 else 1 in
  if Number.finite (Number.add (holding inv) delta)
  then skip_empty fuel inv unitDelta (start inv delta)
  else None.

(** The whole [case "switchweapon"], lines 151-168. *)
Definition switchweapon (fuel : nat) (inv : t Weapon) (delta : Z) (setMode : bool)
  : Outcome (t Weapon) :=
  if setMode then
    match getWeapon inv delta with
    | Some _ => Ok (mk delta (weapons inv))
    | None => Ok inv
    end
  else
    match switch_relative fuel inv delta with
    | Some h => Ok (mk h (weapons inv))
    | None => OutOfFuel
    end.

End SwitchWeapon.

End Inventory.

(** ** Movement flags and the velocity they give *)

Module Movement.

(** [movements[direction] = v] on a JavaScript array of booleans, for an
    integer [direction]: an index of the array is overwritten; an index past
    the end, up to [Number.max_index], grows the array, and the holes in between
    read as [undefined], which the loop's [if (movements[ii])] takes for
    false; a negative number and a number above [Number.max_index] are no array
    index: the assignment adds a property, the elements and the length
    stay. *)
Definition array_set (movements : list bool) (direction : Z) (v : bool) : list bool :=
  if direction <? 0 then movements
  else
    let n := Z.to_nat direction in
    if (n <? List.length movements)%nat then <[n := v]> movements
    else if direction <=? Number.max_index
         then movements ++ replicate (n - List.length movements) false ++ [v]
         else movements.

Section Velocity.
Context {V : Type} `{Vec2.Ops V}.
Variable DIRECTION_VEC : list V.

(** [for (let ii = 0; ii < movements.length; ii++) if (movements[ii])
    angleVec = angleVec.addVec(DIRECTION_VEC[ii]);] from index [ii] on.
    [DIRECTION_VEC[ii]] past the end of the table is [undefined], and
    [addVec] reads the coordinates of its argument: the call throws. *)
Fixpoint add_pressed (ii : nat) (movements : list bool) (angleVec : V) : Outcome V :=
  match movements with
  | [] => Ok angleVec
  | pressed :: rest =>
      if pressed then
        match DIRECTION_VEC !! ii with
        | Some d => add_pressed (S ii) rest (Vec2.addVec angleVec d)
        | None => Throws
        end
      else add_pressed (S ii) rest angleVec
  end.

(** Lines 121-123 (and 130-132): the argument of [player.setVelocity]. *)
Definition velocity_of (movements : list bool) : Outcome V :=
  match add_pressed 0 movements Vec2.ZERO with
  | Ok angleVec => Ok (Vec2.unit angleVec)
  | Throws => Throws
  | OutOfFuel => OutOfFuel
  end.

(** The spec's wording: "the sum of the direction vectors of the currently
    pressed flags", flag [i] paired with direction vector [i]. *)
Definition pressed_vectors (movements : list bool) : list V :=
  snd <$> List.filter fst (zip movements DIRECTION_VEC).

Definition vec_sum (vs : list V) : V := foldl Vec2.addVec Vec2.ZERO vs.

End Velocity.

End Movement.

(** ** Player *)

Module Player.

(** Modelled from the spec: class [Player] is not defined in the two files.  The
    fields are the ones index.ts reads or writes; [setVelocity] and
    [setDirection] store their argument. *)
Record t (V Weapon : Type) := mk {
  id : string;
  username : string;
  velocity : V;
  direction : V;
  tryAttacking : bool;
  tryInteracting : bool;
  inventory : Inventory.t Weapon
}.
Arguments mk {V Weapon} _ _ _ _ _ _ _.
Arguments id {V Weapon} _.
Arguments username {V Weapon} _.
Arguments velocity {V Weapon} _.
Arguments direction {V Weapon} _.
Arguments tryAttacking {V Weapon} _.
Arguments tryInteracting {V Weapon} _.
Arguments inventory {V Weapon} _.

Definition setVelocity {V Weapon} (v : V) (p : t V Weapon) : t V Weapon :=
  mk (id p) (username p) v (direction p) (tryAttacking p) (tryInteracting p) (inventory p).

Definition setDirection {V Weapon} (v : V) (p : t V Weapon) : t V Weapon :=
  mk (id p) (username p) (velocity p) v (tryAttacking p) (tryInteracting p) (inventory p).

Definition set_tryAttacking {V Weapon} (b : bool) (p : t V Weapon) : t V Weapon :=
  mk (id p) (username p) (velocity p) (direction p) b (tryInteracting p) (inventory p).

Definition set_tryInteracting {V Weapon} (b : bool) (p : t V Weapon) : t V Weapon :=
  mk (id p) (username p) (velocity p) (direction p) (tryAttacking p) b (inventory p).

Definition set_inventory {V Weapon} (inv : Inventory.t Weapon) (p : t V Weapon) : t V Weapon :=
  mk (id p) (username p) (velocity p) (direction p) (tryAttacking p) (tryInteracting p) inv.

(** The collaborator logic index.ts delegates to: the constructor
    [new Player(id, username)], [new Vec2(x, y)], [getWeapon], [reload()]
    and [heal(item)].  Their bodies are not in the two files: they are
    taken as functions that return, and whether they can throw is not
    decided here. *)
Class Ops (V number Weapon Item : Type) := {
  new : string -> string -> t V Weapon;
  vec2 : number -> number -> V;
  getWeapon : Inventory.t Weapon -> Z -> option Weapon;
  reload : t V Weapon -> t V Weapon;
  heal : Item -> t V Weapon -> t V Weapon
}.

End Player.

(** ** World *)

Module World.

(** Modelled from the spec: class [World] ([types/terrain]) is not defined
    in the two files.  It "maintains four per-tick change-sets: dirtyEntities,
    dirtyObstacles, discardEntities, discardObstacles" and "transient
    one-tick queues: particles and sounds, split into join sounds and once
    sounds"; the collections index.ts only copies into packets (terrains,
    buildings, size) are left out. *)
Record t (E Obstacle Particle Sound : Type) := mk {
  entities : list E;
  obstacles : list Obstacle;
  dirtyEntities : list E;
  dirtyObstacles : list Obstacle;
  discardEntities : list E;
  discardObstacles : list Obstacle;
  particles : list Particle;
  onceSounds : list Sound;
  joinSounds : list Sound
}.
Arguments mk {E Obstacle Particle Sound} _ _ _ _ _ _ _ _ _.
Arguments entities {E Obstacle Particle Sound} _.
Arguments obstacles {E Obstacle Particle Sound} _.
Arguments dirtyEntities {E Obstacle Particle Sound} _.
Arguments dirtyObstacles {E Obstacle Particle Sound} _.
Arguments discardEntities {E Obstacle Particle Sound} _.
Arguments discardObstacles {E Obstacle Particle Sound} _.
Arguments particles {E Obstacle Particle Sound} _.
Arguments onceSounds {E Obstacle Particle Sound} _.
Arguments joinSounds {E Obstacle Particle Sound} _.

(** Modelled from the spec: "postTick: clears dirty/discard sets and the
    particle/once-sound queues, preparing for the next tick". *)
Definition postTick {E Obstacle Particle Sound} (w : t E Obstacle Particle Sound)
  : t E Obstacle Particle Sound :=
  mk (entities w) (obstacles w) [] [] [] [] [] [] (joinSounds w).

(** [world.entities.push(e)] *)
Definition push_entity {E Obstacle Particle Sound} (e : E) (w : t E Obstacle Particle Sound)
  : t E Obstacle Particle Sound :=
  mk (entities w ++ [e]) (obstacles w) (dirtyEntities w) (dirtyObstacles w)
     (discardEntities w) (discardObstacles w) (particles w) (onceSounds w) (joinSounds w).

End World.

(** ** The server of index.ts *)

Module Server.

(** [socket.readyState] of a [ws.WebSocket] on the server side. *)
Inductive ReadyState := OPEN | CLOSING | CLOSED.

(** The handle [setTimeout] returns: when it is due, and whether it still
    is to fire.  [timeout.refresh()] restarts the delay from now, also on a
    timer that has fired. *)
Record Timer := mkTimer {
  deadline : Z;
  armed : bool
}.

Definition setTimeout (now delay : Z) : Timer := mkTimer (now + delay) true.
Definition refresh (now delay : Z) (t : Timer) : Timer := mkTimer (now + delay) true.
Definition due (now : Z) (t : Timer) : bool := armed t && (deadline t <=? now).

(** What [receive(msg)] decodes, when it is an object: the inbound packets
    of [types/packet], by their [type] tag and the fields index.ts reads.
    A payload that decodes to [null] is the event [NullMessage] below: it
    has no fields to read. *)
Inductive Packet (number Item : Type) :=
| Ping
| MovementPress (direction : Z)
| MovementRelease (direction : Z)
| MousePress (button : Z)
| MouseRelease (button : Z)
| MouseMove (x y : number)
| Interact
| SwitchWeapon (delta : Z) (setMode : bool)
| ReloadWeapon
| UseHealing (item : Item)
| Response (id username : string)
| Unknown (type : string).
Arguments Ping {number Item}.
Arguments MovementPress {number Item} direction.
Arguments MovementRelease {number Item} direction.
Arguments MousePress {number Item} button.
Arguments MouseRelease {number Item} button.
Arguments MouseMove {number Item} x y.
Arguments Interact {number Item}.
Arguments SwitchWeapon {number Item} delta setMode.
Arguments ReloadWeapon {number Item}.
Arguments UseHealing {number Item} item.
Arguments Response {number Item} id username.
Arguments Unknown {number Item} type.

(** The packets [send] writes to a socket; what they copy of the world is
    left out, the player count and the full/partial flag are kept. *)
Inductive OutPacket (Sound : Type) :=
| AckPacket (id : string)
| MapPacket
| GamePacket (numberOfPlayers : Z) (full : bool)
| ParticlesPacket
| SoundPacket (sound : Sound).
Arguments AckPacket {Sound} id.
Arguments MapPacket {Sound}.
Arguments GamePacket {Sound} numberOfPlayers full.
Arguments ParticlesPacket {Sound}.
Arguments SoundPacket {Sound} sound.

(** An element of [world.entities]: a reference to a [Player] object (the
    entities whose [type] is the player tag), or an entity of another kind. *)
Inductive EntityRef (OtherEntity : Type) :=
| PlayerRef (loc : nat)
| Other (e : OtherEntity).
Arguments PlayerRef {OtherEntity} loc.
Arguments Other {OtherEntity} e.

(** The variables the connection callback declares once a connection is
    accepted (lines 91-108): [player], [timeout], [movements], [buttons]. *)
Record Session := mkSession {
  player : nat;
  timeout : Timer;
  movements : list bool;
  buttons : gmap Z bool
}.

(** One run of the connection callback: its socket, the variables it
    declares before the [await], and where it stands.  [once_message]: the
    listener of [socket.once] is still registered; [awaiting]: the callback
    is suspended at [await Promise.race]; [wait_pending]: the timer of
    [wait(10000)] has not fired yet. *)
Record Connection := mkConnection {
  id : string;
  readyState : ReadyState;
  connected : bool;
  username : string;
  once_message : bool;
  awaiting : bool;
  wait_until : Z;
  wait_pending : bool;
  session : option Session
}.

(** [try { socket.close(); } catch (err) { }] *)
Definition socket_close (c : Connection) : Connection :=
  match readyState c with
  | OPEN => mkConnection (id c) CLOSING (connected c) (username c) (once_message c)
              (awaiting c) (wait_until c) (wait_pending c) (session c)
  | _ => c
  end.

Definition set_session (ss : option Session) (c : Connection) : Connection :=
  mkConnection (id c) (readyState c) (connected c) (username c) (once_message c)
    (awaiting c) (wait_until c) (wait_pending c) ss.

Definition set_awaiting (b : bool) (c : Connection) : Connection :=
  mkConnection (id c) (readyState c) (connected c) (username c) (once_message c)
    b (wait_until c) (wait_pending c) (session c).

Definition set_wait_pending (b : bool) (c : Connection) : Connection :=
  mkConnection (id c) (readyState c) (connected c) (username c) (once_message c)
    (awaiting c) (wait_until c) b (session c).

Section Model.
Context {V number Weapon Item OtherEntity Obstacle Particle Sound : Type}.
Context `{!Vec2.Ops V} `{!Player.Ops V number Weapon Item}.

(** [DIRECTION_VEC] of [constants]: the table is defined outside the two files. *)
Variable DIRECTION_VEC : list V.

(** [world.tick()]: defined outside the two files; it works on the world and on the
    player objects the world's entities refer to. *)
Variable World_tick :
  list (Player.t V Weapon) -> World.t (EntityRef OtherEntity) Obstacle Particle Sound ->
  list (Player.t V Weapon) * World.t (EntityRef OtherEntity) Obstacle Particle Sound.

(** The module-level state of index.ts ([sockets], [world],
    [numberOfPlayers]), the [Player] objects created so far (a [PlayerRef]
    and a connection's [player] point into [heap]), the runs of the
    connection callback, and what was sent, to which socket. *)
Record State := mkState {
  sockets : gmap string nat;
  numberOfPlayers : Z;
  world : World.t (EntityRef OtherEntity) Obstacle Particle Sound;
  heap : list (Player.t V Weapon);
  conns : list Connection;
  outbox : list (nat * OutPacket Sound)
}.

Definition set_conn (h : nat) (c : Connection) (s : State) : State :=
  mkState (sockets s) (numberOfPlayers s) (world s) (heap s) (<[h := c]> (conns s)) (outbox s).

(** Lines 52-84, up to the [await]: the socket is registered under a new
    id, the close listener and the handshake listener are set up, the Ack
    packet is sent and the 10 second timer is started. *)
Definition on_connection (now : Z) (id_ : string) (s : State) : State :=
  let h := length (conns s) in
  mkState (<[id_ := h]> (sockets s)) (numberOfPlayers s) (world s) (heap s)
    (conns s ++ [mkConnection id_ OPEN false EmptyString true true (now + 10000) true None])
    (outbox s ++ [(h, AckPacket id_)]).

(** Lines 85-110, the callback after the [await]; [c] is connection [h] as
    the listener or the timer left it. *)
Definition resume (now : Z) (h : nat) (c : Connection) (s : State) : State :=
  if negb (connected c) then set_conn h (set_awaiting false c) s
  else
    let n := numberOfPlayers s + 1 in
    let loc := length (heap s) in
    let ss := mkSession loc (setTimeout now 30000) [false; false; false; false] ∅ in
    mkState (sockets s) n
      (World.push_entity (PlayerRef loc) (world s))
      (heap s ++ [Player.new (id c) (username c)])
      (<[h := set_session (Some ss) (set_awaiting false c)]> (conns s))
      (outbox s ++ [(h, MapPacket); (h, GamePacket n true)]
                ++ ((fun sound => (h, SoundPacket sound)) <$> World.joinSounds (world s))).

(** Line 78, [decoded.id == id && decoded.username]: the username when the
    test passes.  Only a response packet has the two fields; an empty
    string is falsy. *)
Definition handshake_ok (id_ : string) (decoded : Packet number Item) : option string :=
  match decoded with
  | Response id' username_ =>
      if bool_decide (id' = id_) && negb (bool_decide (username_ = EmptyString))
      then Some username_ else None
  | _ => None
  end.

(** Lines 76-83, the listener of [socket.once("message")], up to
    [resolve()]. *)
Definition on_first_message (decoded : Packet number Item) (c : Connection) : Connection :=
  match handshake_ok (id c) decoded with
  | Some username_ =>
      mkConnection (id c) (readyState c) true username_ false
        (awaiting c) (wait_until c) (wait_pending c) (session c)
  | None =>
      let c' := socket_close c in
      mkConnection (id c') (readyState c') (connected c') (username c') false
        (awaiting c') (wait_until c') (wait_pending c') (session c')
  end.

(** Lines 110-176, the listener of [socket.on("message")], on a decoded
    value that has fields; for one that is [null], see [on_null_message]. *)
Definition on_message (fuel : nat) (now : Z) (decoded : Packet number Item)
    (ss : Session) (p : Player.t V Weapon) : Outcome (Session * Player.t V Weapon) :=
  match decoded with
  | Ping =>
      Ok (mkSession (player ss) (refresh now 30000 (timeout ss)) (movements ss) (buttons ss), p)
  | MovementPress direction =>
      let movements' := Movement.array_set (movements ss) direction true in
      match Movement.velocity_of DIRECTION_VEC movements' with
      | Ok v => Ok (mkSession (player ss) (timeout ss) movements' (buttons ss),
                    Player.setVelocity v p)
      | Throws => Throws
      | OutOfFuel => OutOfFuel
      end
  | MovementRelease direction =>
      let movements' := Movement.array_set (movements ss) direction false in
      match Movement.velocity_of DIRECTION_VEC movements' with
      | Ok v => Ok (mkSession (player ss) (timeout ss) movements' (buttons ss),
                    Player.setVelocity v p)
      | Throws => Throws
      | OutOfFuel => OutOfFuel
      end
  | MousePress button =>
      let buttons' := <[button := true]> (buttons ss) in
      Ok (mkSession (player ss) (timeout ss) (movements ss) buttons',
          if default false (buttons' !! 0) then Player.set_tryAttacking true p else p)
  | MouseRelease button =>
      let buttons' := <[button := false]> (buttons ss) in
      Ok (mkSession (player ss) (timeout ss) (movements ss) buttons',
          if default false (buttons' !! 0) then p else Player.set_tryAttacking false p)
  | MouseMove x y => Ok (ss, Player.setDirection (Player.vec2 x y) p)
  | Interact => Ok (ss, Player.set_tryInteracting true p)
  | SwitchWeapon delta setMode =>
      match Inventory.switchweapon Player.getWeapon fuel (Player.inventory p) delta setMode with
      | Ok inv => Ok (ss, Player.set_inventory inv p)
      | Throws => Throws
      | OutOfFuel => OutOfFuel
      end
  | ReloadWeapon => Ok (ss, Player.reload p)
  | UseHealing item => Ok (ss, Player.heal item p)
  | Response _ _ => Ok (ss, p)
  | Unknown _ => Ok (ss, p)
  end.

(** A "message" event of socket [h]: the socket emits none once closed; the
    handshake listener takes the first message, and [resolve()] lets the
    callback go on if the race is still open; later messages go to the
    listener of line 110, which exists once the connection is accepted. *)
Definition on_socket_message (fuel : nat) (now : Z) (h : nat) (msg : Packet number Item)
    (s : State) : Outcome State :=
  match conns s !! h with
  | None => Ok s
  | Some c =>
      match readyState c with
      | CLOSED => Ok s
      | _ =>
          if once_message c then
            let c1 := on_first_message msg c in
            if awaiting c1 then Ok (resume now h c1 s) else Ok (set_conn h c1 s)
          else
            match session c with
            | None => Ok s
            | Some ss =>
                match heap s !! player ss with
                | None => Ok s
                | Some p =>
                    match on_message fuel now msg ss p with
                    | Ok (ss', p') =>
                        Ok (mkState (sockets s) (numberOfPlayers s) (world s)
                              (<[player ss := p']> (heap s))
                              (<[h := set_session (Some ss') c]> (conns s))
                              (outbox s))
                    | Throws => Throws
                    | OutOfFuel => OutOfFuel
                    end
                end
            end
      end
  end.

(** A "message" event of socket [h] whose payload [receive] decodes to
    [null] or [undefined]: the listener that takes it reads a field of the
    decoded value first ([decoded.id] on line 78, [decoded.type] on line
    112), and that read throws; nothing catches it. *)
Definition on_null_message (h : nat) (s : State) : Outcome State :=
  match conns s !! h with
  | None => Ok s
  | Some c =>
      match readyState c with
      | CLOSED => Ok s
      | _ =>
          if once_message c then Throws
          else match session c with
               | None => Ok s
               | Some _ => Throws
               end
      end
  end.

(** The timer of [wait(10000)] fires: the race is settled if it was open,
    and the callback goes on (with [connected] still false). *)
Definition on_wait_elapsed (now : Z) (h : nat) (s : State) : State :=
  match conns s !! h with
  | None => s
  | Some c =>
      if wait_pending c && (wait_until c <=? now) then
        let c1 := set_wait_pending false c in
        if awaiting c1 then resume now h c1 s else set_conn h c1 s
      else s
  end.

(** Lines 102-104, the callback of the 30 second timer. *)
Definition on_timeout (now : Z) (h : nat) (s : State) : State :=
  match conns s !! h with
  | None => s
  | Some c =>
      match session c with
      | None => s
      | Some ss =>
          if due now (timeout ss) then
            let ss' := mkSession (player ss) (mkTimer (deadline (timeout ss)) false)
                         (movements ss) (buttons ss) in
            set_conn h (socket_close (set_session (Some ss') c)) s
          else s
      end
  end.

(** Lines 63-70, the listener of [socket.on("close")]; a socket emits
    "close" once. *)
Definition on_close (h : nat) (s : State) : State :=
  match conns s !! h with
  | None => s
  | Some c =>
      match readyState c with
      | CLOSED => s
      | _ =>
          mkState (delete (id c) (sockets s))
            (if connected c then numberOfPlayers s - 1 else numberOfPlayers s)
            (world s) (heap s)
            (<[h := mkConnection (id c) CLOSED false (username c) (once_message c)
                      (awaiting c) (wait_until c) (wait_pending c) (session c)]> (conns s))
            (outbox s)
      end
  end.

(** Lines 183-189: what the tick loop sends for one entity of the world. *)
Definition send_to (s : State) (e : EntityRef OtherEntity) : list (nat * OutPacket Sound) :=
  match e with
  | Other _ => []
  | PlayerRef loc =>
      match heap s !! loc with
      | None => []
      | Some p =>
          match sockets s !! Player.id p with
          | None => []
          | Some h =>
              [(h, GamePacket (numberOfPlayers s) false)]
              ++ (match World.particles (world s) with [] => [] | _ => [(h, ParticlesPacket)] end)
              ++ ((fun sound => (h, SoundPacket sound)) <$> World.onceSounds (world s))
          end
      end
  end.

(** Lines 179-191, the callback of [setInterval]. *)
Definition on_interval (s : State) : State :=
  let '(heap1, world1) := World_tick (heap s) (world s) in
  let s1 := mkState (sockets s) (numberOfPlayers s) world1 heap1 (conns s) (outbox s) in
  mkState (sockets s1) (numberOfPlayers s1) (World.postTick world1) heap1 (conns s1)
    (outbox s1 ++ flat_map (send_to s1) (World.entities world1)).

(** What the event loop can run next. *)
Inductive Event :=
| Connect (id_ : string)
| Message (h : nat) (msg : Packet number Item)
| NullMessage (h : nat)
| WaitElapsed (h : nat)
| TimeoutFired (h : nat)
| Close (h : nat)
| Interval.

Definition step (fuel : nat) (now : Z) (s : State) (ev : Event) : Outcome State :=
  match ev with
  | Connect id_ => Ok (on_connection now id_ s)
  | Message h msg => on_socket_message fuel now h msg s
  | NullMessage h => on_null_message h s
  | WaitElapsed h => Ok (on_wait_elapsed now h s)
  | TimeoutFired h => Ok (on_timeout now h s)
  | Close h => Ok (on_close h s)
  | Interval => Ok (on_interval s)
  end.

(** A run of the event loop: the events with the time each is handled at. *)
Fixpoint run (fuel : nat) (s : State) (evs : list (Z * Event)) : Outcome State :=
  match evs with
  | [] => Ok s
  | (now, ev) :: rest =>
      match step fuel now s ev with
      | Ok s' => run fuel s' rest
      | Throws => Throws
      | OutOfFuel => OutOfFuel
      end
  end.

(** The state index.ts starts the event loop in. *)
Definition init (w : World.t (EntityRef OtherEntity) Obstacle Particle Sound) : State :=
  mkState ∅ 0 w [] [] [].

End Model.

End Server.

(** ** A concrete world for examples *)

Module Sample.

(** Modelled from the spec: "Hitbox: a shape (here: circle with a radius)
    attached to an entity's position; two hitboxes collide if geometrically
    overlapping", and [damage] "reduces health".  A thing a bullet can hit
    is a circle with a health; the bullet's own hitbox is
    [new CircleHitbox(0.1)] (bullet.ts line 7); the binary64 value of 0.1
    is written in hexadecimal. *)
Record Circle := mkCircle {
  centre : Vec2.t;
  radius : float;
  health : float
}.

Definition distance (v w : Vec2.t) : float :=
  Vec2.magnitude (fst v - fst w, snd v - snd w)%float.

Definition circle_collided (e : Entity.t Vec2.t) (c : Circle) : bool :=
  PrimFloat.leb (distance (Entity.position e) (centre c)) (0x1.999999999999ap-4 + radius c)%float.

Definition circle_damage (d : float) (c : Circle) : Circle :=
  mkCircle (centre c) (radius c) (health c - d)%float.

#[global] Instance circle_hittable : Hittable Vec2.t float Circle := {|
  collided := circle_collided;
  damage := circle_damage
|}.

(** A bullet at the origin flying one unit per tick along the x axis. *)
Definition bullet (ticks_ : float) : Bullet.t Vec2.t float :=
  Bullet.new (Entity.mk (0, 0)%float (0, 0)%float true false) 10%float (1, 0)%float ticks_.

(** Modelled from the spec: [DIRECTION_VEC] holds one unit vector for each
    of the four direction flags; their order is not given. *)
Definition DIRECTION_VEC : list Vec2.t :=
  [(1, 0)%float; (0, 1)%float; (-1, 0)%float; (0, -1)%float].

(** Collaborators of the session layer, with nothing behind them: weapons
    and healing items are names, a new player holds slot 0 of four. *)
#[global] Instance player_ops : Player.Ops Vec2.t float string string := {|
  Player.new := fun id_ username_ =>
    Player.mk id_ username_ (0, 0)%float (0, 0)%float false false
      (Inventory.mk 0 [Some "fists"%string; None; None; None]);
  Player.vec2 := fun x y => (x, y);
  Player.getWeapon := Inventory.slot;
  Player.reload := fun p => p;
  Player.heal := fun _ p => p
|}.

(** A player and the variables of an accepted connection, with the flags
    [movements] as given. *)
Definition alice : Player.t Vec2.t string := Player.new "c1" "alice".

Definition session (movements_ : list bool) : Server.Session :=
  Server.mkSession 0 (Server.setTimeout 0 30000) movements_ ∅.

Definition State : Type :=
  @Server.State Vec2.t string Empty_set Empty_set Empty_set Empty_set.

Definition Event : Type := @Server.Event float string.

Definition World_tick (h : list (Player.t Vec2.t string))
    (w : World.t (Server.EntityRef Empty_set) Empty_set Empty_set Empty_set) :=
  (h, w).

Definition init : State := Server.init (World.mk [] [] [] [] [] [] [] [] []).

Definition run (evs : list (Z * Event)) : Outcome State :=
  Server.run DIRECTION_VEC World_tick 100 init evs.


(** What the examples look at: the socket of the first connection, its
    heartbeat timer, its entry in [sockets], and the players (the count,
    the number of [Player] objects ever created, [world.entities]). *)
Definition socket_state (s : State) : option Server.ReadyState :=
  Server.readyState <$> Server.conns s !! 0%nat.

Definition heartbeat (s : State) : option Server.Timer :=
  match Server.conns s !! 0%nat with
  | Some c => Server.timeout <$> Server.session c
  | None => None
  end.

Definition registered (s : State) : option nat := Server.sockets s !! "c1"%string.

Definition players (s : State) : Z * nat * list (Server.EntityRef Empty_set) :=
  (Server.numberOfPlayers s, length (Server.heap s), World.entities (Server.world s)).

Definition velocity (s : State) : option Vec2.t :=
  Player.velocity <$> Server.heap s !! 0%nat.

End Sample.

(** ** Vocabulary of the statements *)

(** Steps from [h] up to [k], going round the end of the array. *)
Definition steps_up (len h k : Z) : Z := if h <=? k then k - h else k - h + len.

(** Steps from [h] down to [k], going round the start of the array. *)
Definition steps_down (len h k : Z) : Z := if k <=? h then h - k else h - k + len.

(** The claim C4 at one inventory and one delta: whatever [getWeapon]
    answers outside the array and however long the loop may run, relative
    mode does not end on an occupied slot. *)
Definition never_lands {Weapon} (inv : Inventory.t Weapon) (delta : Z) : Prop :=
  forall getWeapon, Inventory.reads_slots getWeapon ->
  forall fuel h, Inventory.switch_relative getWeapon fuel inv delta = Some h ->
    ~ Inventory.occupied inv h.

(** Every pressed flag has a direction vector in the table. *)
Definition well_flagged {V} (DIRECTION_VEC : list V) (movements : list bool) : Prop :=
  forall i, movements !! i = Some true -> (i < length DIRECTION_VEC)%nat.

(** Two direction vectors whose sum cancels. *)
Definition opposite {V} `{Vec2.Ops V} (d d' : V) : Prop :=
  Vec2.addVec (Vec2.addVec Vec2.ZERO d) d' = Vec2.ZERO.

(** The two movement packets, by the value they write. *)
Definition movement_packet {number Item : Type} (pressed : bool) (direction : Z)
  : Server.Packet number Item :=
  if pressed then Server.MovementPress direction else Server.MovementRelease direction.

(** A connection that has not had its first message yet is neither
    connected nor accepted. *)
Definition pristine (c : Server.Connection) : Prop :=
  Server.once_message c = true ->
  Server.connected c = false /\ Server.session c = None.

(** A connection whose first message failed the test of line 78: the
    handshake listener is gone, and nothing was accepted. *)
Definition turned_away (c : Server.Connection) : Prop :=
  Server.once_message c = false /\ Server.connected c = false /\ Server.session c = None.

(** The connection an event is about, if any. *)
Definition connection_of {number Item : Type} (ev : @Server.Event number Item) : option nat :=
  match ev with
  | Server.Connect _ => None
  | Server.Message h _ => Some h
  | Server.NullMessage h => Some h
  | Server.WaitElapsed h => Some h
  | Server.TimeoutFired h => Some h
  | Server.Close h => Some h
  | Server.Interval => None
  end.

(** Closes the bookkeeping goals about the fields of a connection. *)
Ltac conn_fields :=
  unfold pristine, turned_away, Server.on_first_message, Server.socket_close,
    Server.set_session, Server.set_awaiting, Server.set_wait_pending in *;
  repeat match goal with
         | |- context [match ?x with _ => _ end] => destruct x eqn:?
         | H : context [match ?x with _ => _ end] |- _ => destruct x eqn:?
         end;
  cbn in *; try congruence; intuition congruence.

(** Every connection of a state is pristine: an invariant of the server. *)
Definition all_pristine {V Weapon OtherEntity Obstacle Particle Sound : Type}
    (s : @Server.State V Weapon OtherEntity Obstacle Particle Sound) : Prop :=
  forall h c, Server.conns s !! h = Some c -> pristine c.

(** The events of a tick that are a call of [damage]. *)
Definition is_damage {number} (ev : Bullet.event number) : bool :=
  match ev with
  | Bullet.Damaged _ _ _ => true
  | _ => false
  end.

(** The events of a tick that touch an element of [entities]. *)
Definition on_entity {number} (ev : Bullet.event number) : bool :=
  match ev with
  | Bullet.Collided Bullet.Ent _ => true
  | Bullet.Damaged Bullet.Ent _ _ => true
  | _ => false
  end.

(** The listener of line 110 run on a sequence of messages of one
    connection, each with the time it is handled at. *)
Fixpoint on_messages {V number Weapon Item : Type}
    `{!Vec2.Ops V} `{!Player.Ops V number Weapon Item}
    (DIRECTION_VEC : list V) (fuel : nat) (msgs : list (Z * Server.Packet number Item))
    (ss : Server.Session) (p : Player.t V Weapon)
  : Outcome (Server.Session * Player.t V Weapon) :=
  match msgs with
  | [] => Ok (ss, p)
  | (now, msg) :: rest =>
      match Server.on_message DIRECTION_VEC fuel now msg ss p with
      | Ok (ss', p') => on_messages DIRECTION_VEC fuel rest ss' p'
      | Throws => Throws
      | OutOfFuel => OutOfFuel
      end
  end.


(** What the handshake keeps true of every connection: before its first
    message it is neither connected nor accepted, and while the callback is
    suspended at the [await] the handshake listener is still registered. *)
Definition handshake_sound (c : Server.Connection) : Prop :=
  (Server.once_message c = true ->
   Server.connected c = false /\ Server.session c = None) /\
  (Server.awaiting c = true -> Server.once_message c = true).

(** How an event that is neither the acceptance nor the close of a
    connection may change it: the id stays, the socket is closed after iff
    it was before, a session neither appears nor disappears nor changes its
    player, and [connected] stays as it is once the socket is closed. *)
Definition conn_local (c c' : Server.Connection) : Prop :=
  Server.id c' = Server.id c /\
  (Server.readyState c' = Server.CLOSED <-> Server.readyState c = Server.CLOSED) /\
  (Server.session c = None -> Server.session c' = None) /\
  (forall ss, Server.session c = Some ss ->
     exists ss', Server.session c' = Some ss' /\ Server.player ss' = Server.player ss) /\
  (Server.readyState c = Server.CLOSED -> Server.connected c' = Server.connected c).

(** Every connection of a state is [handshake_sound]. *)
Definition all_sound {V Weapon OtherEntity Obstacle Particle Sound : Type}
    (s : @Server.State V Weapon OtherEntity Obstacle Particle Sound) : Prop :=
  forall h c, Server.conns s !! h = Some c -> handshake_sound c.

(** Every entry of [sockets] is the id of a connection whose socket has
    not emitted "close". *)
Definition sockets_sound {V Weapon OtherEntity Obstacle Particle Sound : Type}
    (s : @Server.State V Weapon OtherEntity Obstacle Particle Sound) : Prop :=
  forall i h, Server.sockets s !! i = Some h ->
    exists c, Server.conns s !! h = Some c /\ Server.id c = i /\
              Server.readyState c <> Server.CLOSED.


(** The states the server can be in: those a run of the event loop reaches
    from the start. *)
Definition reachable {V number Weapon Item OtherEntity Obstacle Particle Sound : Type}
    `{!Vec2.Ops V} `{!Player.Ops V number Weapon Item}
    (DIRECTION_VEC : list V)
    (World_tick :
       list (Player.t V Weapon) ->
       World.t (Server.EntityRef OtherEntity) Obstacle Particle Sound ->
       list (Player.t V Weapon) * World.t (Server.EntityRef OtherEntity) Obstacle Particle Sound)
    (s : @Server.State V Weapon OtherEntity Obstacle Particle Sound) : Prop :=
  exists w fuel (evs : list (Z * @Server.Event number Item)),
    Server.run DIRECTION_VEC World_tick fuel (Server.init w) evs = Ok s.


(** A connection whose socket closed before it was accepted. *)
Definition closed_unaccepted (c : Server.Connection) : Prop :=
  Server.readyState c = Server.CLOSED /\ Server.session c = None /\
  Server.connected c = false.

(** The packets of [outbox] that were sent to socket [h], in order. *)
Definition sent_to {Sound : Type} (h : nat) (outbox : list (nat * Server.OutPacket Sound))
  : list (nat * Server.OutPacket Sound) :=
  List.filter (fun e => Nat.eqb (fst e) h) outbox.

(** Every packet was sent to a socket that exists, and the first packet
    sent to a socket is the Ack packet with the id of its connection. *)
Definition ack_first {V Weapon OtherEntity Obstacle Particle Sound : Type}
    (s : @Server.State V Weapon OtherEntity Obstacle Particle Sound) : Prop :=
  (forall h pkt, In (h, pkt) (Server.outbox s) -> (h < length (Server.conns s))%nat) /\
  (forall h c, Server.conns s !! h = Some c ->
     exists rest, sent_to h (Server.outbox s) = (h, Server.AckPacket (Server.id c)) :: rest).

(** ** A small scenario: one client, "c1", that connects at 0 ms and
    answers at 100 ms with the username "alice" *)

Module Scenario.

(** The connection as the callback sets it up. *)
Definition fresh : Server.Connection :=
  Server.mkConnection "c1" Server.OPEN false EmptyString true true 10000 true None.

(** The server after the connection event. *)
Definition connected : Sample.State := Server.on_connection 0 "c1" Sample.init.

Definition response : Server.Packet float string := Server.Response "c1" "alice".

(** The connection once it is accepted, and the server then. *)
Definition member : Server.Connection :=
  Server.mkConnection "c1" Server.OPEN true "alice" false false 10000 true
    (Some (Server.mkSession 0 (Server.mkTimer 30100 true) [false; false; false; false] ∅)).

Definition accepted : Sample.State :=
  Server.resume 100 0
    (Server.mkConnection "c1" Server.OPEN true "alice" false true 10000 true None) connected.

(** The events that lead to [connected] and to [accepted]. *)
Definition connect_events : list (Z * Sample.Event) := [(0, Server.Connect "c1")].

Definition accept_events : list (Z * Sample.Event) :=
  [(0, Server.Connect "c1"); (100, Server.Message 0 response)].

End Scenario.

(** * Properties *)

(** ** Bullet.tick *)

Section BulletFacts.
Context {V : Type} `{Vec2.Ops V}.
Context {number : Type}.
Context {GameObject : Type} `{!Hittable V number GameObject}.
Context {OtherEntity : Type} `{!Hittable V number OtherEntity}.

Lemma Entity_die_despawn (e : Entity.t V) : Entity.despawn (Entity.die e) = true.
Proof. unfold Entity.die. destruct (Entity.despawn e) eqn:E; [exact E | reflexivity]. Qed.

(** An overlapping element has a first one. *)
Lemma overlaps_first {T} `{!Hittable V number T} (e : Entity.t V) (xs : list T) :
  Bullet.overlaps_some e xs -> exists i x, Bullet.first_overlap e xs i x.
Proof.
  induction xs as [|y ys IH]; intros [x [Hin Hc]].
  - inversion Hin.
  - destruct (collided e y) eqn:Ey.
    + exists 0%nat, y. repeat split; [exact Ey | intros j z Hj; lia].
    + assert (Hys : Bullet.overlaps_some e ys).
      { exists x. split; [|exact Hc]. apply elem_of_cons in Hin as [->|Hin]; [congruence | exact Hin]. }
      destruct (IH Hys) as (i & z & Hl & Hz & Hbefore).
      exists (S i), z. repeat split; [exact Hl | exact Hz |].
      intros [|j] w Hj Hw; simpl in Hw.
      * congruence.
      * apply (Hbefore j); [lia | exact Hw].
Qed.

(** The loop stops at the first overlapping element: it is the only one
    damaged, the bullet dies, and no later element is tested. *)
Lemma hit_first_hit {T} `{!Hittable V number T} (k : Bullet.target)
    (b : Bullet.t V number) (xs : list T) (j : nat) (x : T) (i : nat) :
  Bullet.first_overlap (Bullet.base b) xs j x ->
  Bullet.hit_first k b i xs =
    (Bullet.die b, <[j := damage (Bullet.dmg b) x]> xs,
     (Bullet.Collided k <$> seq i (S j)) ++ [Bullet.Damaged k (i + j) (Bullet.dmg b); Bullet.Died]).
Proof.
  revert j i. induction xs as [|y ys IH]; intros j i (Hl & Hc & Hbefore).
  - destruct j; discriminate.
  - destruct j as [|j]; simpl in Hl.
    + injection Hl as ->. simpl. rewrite Hc. rewrite Nat.add_0_r. reflexivity.
    + assert (Hy : collided (Bullet.base b) y = false) by (apply (Hbefore 0%nat); [lia | reflexivity]).
      simpl. rewrite Hy.
      rewrite (IH j (S i)).
      * replace (S i + j)%nat with (i + S j)%nat by lia. reflexivity.
      * repeat split; [exact Hl | exact Hc |].
        intros j' z Hj' Hz. apply (Hbefore (S j')); [lia | exact Hz].
Qed.

(** With no overlapping element the loop tests every element and changes
    nothing. *)
Lemma hit_first_miss {T} `{!Hittable V number T} (k : Bullet.target)
    (b : Bullet.t V number) (xs : list T) (i : nat) :
  existsb (collided (Bullet.base b)) xs = false ->
  Bullet.hit_first k b i xs = (b, xs, Bullet.Collided k <$> seq i (length xs)).
Proof.
  revert i. induction xs as [|y ys IH]; intros i Hnone; [reflexivity|].
  simpl in Hnone. apply orb_false_iff in Hnone as [Hy Hys].
  simpl. rewrite Hy, (IH (S i) Hys). reflexivity.
Qed.

Lemma existsb_first_overlap {T} `{!Hittable V number T} (e : Entity.t V) (xs : list T) :
  existsb (collided e) xs = true -> exists i x, Bullet.first_overlap e xs i x.
Proof.
  intros Hex. apply overlaps_first. apply existsb_exists in Hex as (x & Hin & Hx).
  exists x. split; [apply list_elem_of_In; exact Hin | exact Hx].
Qed.

(** C1. If the bullet (as moved by this tick) overlaps at least one element
    of [objects], then the first overlapping object in iteration order, and
    no other, has [damage(dmg)] applied; the bullet's despawn flag is true
    afterwards; the scan of [objects] stops there (the calls of the tick are
    the overlap tests of objects 0..i, one [damage], one [die], and nothing
    else), so no element of [entities] is tested or damaged. *)
Theorem C1_first_overlapping_object_is_hit
    (b : Bullet.t V number) (es : list OtherEntity) (os : list GameObject) :
  Bullet.overlaps_some (Bullet.moved b) os ->
  exists i o,
    Bullet.first_overlap (Bullet.moved b) os i o /\
    Bullet.objects (Bullet.tick b es os) = <[i := damage (Bullet.dmg b) o]> os /\
    Bullet.despawn (Bullet.bullet (Bullet.tick b es os)) = true /\
    Bullet.entities (Bullet.tick b es os) = es /\
    Bullet.log (Bullet.tick b es os) =
      (Bullet.Collided Bullet.Obj <$> seq 0 (S i))
      ++ [Bullet.Damaged Bullet.Obj i (Bullet.dmg b); Bullet.Died].
Proof.
  intros Hsome.
  destruct (overlaps_first _ _ Hsome) as (i & o & Hfirst).
  exists i, o. split; [exact Hfirst|].
  unfold Bullet.tick.
  rewrite (hit_first_hit Bullet.Obj
             (Bullet.mk (Entity.tick (Bullet.base b)) (Bullet.dmg b) (Bullet.ticks b))
             os i o 0 Hfirst).
  unfold Bullet.despawn, Bullet.die; cbn [Bullet.base Bullet.dmg Bullet.ticks].
  rewrite Entity_die_despawn. cbn.
  repeat split; try reflexivity. apply Entity_die_despawn.
Qed.

End BulletFacts.

(** C1, at a concrete input: two overlapping circles and one entity that
    overlaps too; only the first circle loses health. *)
Lemma C1_first_overlapping_object_is_hit_witness :
  exists i o,
    Bullet.first_overlap (Bullet.moved (Sample.bullet 5%float))
      [Sample.mkCircle (1, 0)%float 1%float 100%float;
       Sample.mkCircle (1, 1)%float 2%float 100%float] i o /\
    Bullet.objects (Bullet.tick (Sample.bullet 5%float)
      [Sample.mkCircle (1, 0)%float 1%float 50%float]
      [Sample.mkCircle (1, 0)%float 1%float 100%float;
       Sample.mkCircle (1, 1)%float 2%float 100%float]) =
      <[i := damage (Bullet.dmg (Sample.bullet 5%float)) o]>
      [Sample.mkCircle (1, 0)%float 1%float 100%float;
       Sample.mkCircle (1, 1)%float 2%float 100%float] /\
    Bullet.despawn (Bullet.bullet (Bullet.tick (Sample.bullet 5%float)
      [Sample.mkCircle (1, 0)%float 1%float 50%float]
      [Sample.mkCircle (1, 0)%float 1%float 100%float;
       Sample.mkCircle (1, 1)%float 2%float 100%float])) = true /\
    Bullet.entities (Bullet.tick (Sample.bullet 5%float)
      [Sample.mkCircle (1, 0)%float 1%float 50%float]
      [Sample.mkCircle (1, 0)%float 1%float 100%float;
       Sample.mkCircle (1, 1)%float 2%float 100%float]) =
      [Sample.mkCircle (1, 0)%float 1%float 50%float] /\
    Bullet.log (Bullet.tick (Sample.bullet 5%float)
      [Sample.mkCircle (1, 0)%float 1%float 50%float]
      [Sample.mkCircle (1, 0)%float 1%float 100%float;
       Sample.mkCircle (1, 1)%float 2%float 100%float]) =
      (Bullet.Collided Bullet.Obj <$> seq 0 (S i))
      ++ [Bullet.Damaged Bullet.Obj i (Bullet.dmg (Sample.bullet 5%float)); Bullet.Died].
Proof.
  apply (C1_first_overlapping_object_is_hit (Sample.bullet 5%float)
           [Sample.mkCircle (1, 0)%float 1%float 50%float]
           [Sample.mkCircle (1, 0)%float 1%float 100%float;
            Sample.mkCircle (1, 1)%float 2%float 100%float]).
  exists (Sample.mkCircle (1, 0)%float 1%float 100%float).
  split; [left | vm_compute; reflexivity].
Defined.

Section BulletBudget.
Context {V : Type} `{Vec2.Ops V}.
Context {number : Type}.
Context {GameObject : Type} `{!Hittable V number GameObject}.
Context {OtherEntity : Type} `{!Hittable V number OtherEntity}.

(** The loop never touches the fields [dmg] and [ticks], and the bullet is
    despawned after it iff it was before or an element overlapped. *)
Lemma hit_first_bullet {T} `{!Hittable V number T} (k : Bullet.target)
    (b : Bullet.t V number) (xs : list T) (i : nat) :
  Bullet.ticks (Bullet.hit_first k b i xs).1.1 = Bullet.ticks b /\
  Bullet.despawn (Bullet.hit_first k b i xs).1.1 =
    Bullet.despawn b || Bullet.overlaps_someb (Bullet.base b) xs.
Proof.
  unfold Bullet.overlaps_someb.
  destruct (existsb (collided (Bullet.base b)) xs) eqn:Hex.
  - destruct (existsb_first_overlap _ _ Hex) as (j & x & Hfirst).
    rewrite (hit_first_hit k b xs j x i Hfirst). cbn [fst].
    split; [reflexivity|].
    unfold Bullet.despawn, Bullet.die; cbn [Bullet.base].
    rewrite Entity_die_despawn, orb_true_r. reflexivity.
  - rewrite (hit_first_miss k b xs i Hex). cbn [fst].
    split; [reflexivity | rewrite orb_false_r; reflexivity].
Qed.

Lemma hit_first_base_miss {T} `{!Hittable V number T} (k : Bullet.target)
    (b : Bullet.t V number) (xs : list T) (i : nat) :
  Bullet.despawn (Bullet.hit_first k b i xs).1.1 = false ->
  (Bullet.hit_first k b i xs).1.1 = b.
Proof.
  intros Hd. destruct (existsb (collided (Bullet.base b)) xs) eqn:Hex.
  - destruct (hit_first_bullet k b xs i) as [_ Hdes].
    unfold Bullet.overlaps_someb in Hdes. rewrite Hex, orb_true_r in Hdes. congruence.
  - rewrite (hit_first_miss k b xs i Hex). reflexivity.
Qed.

(** C6, as the code has it.  [Bullet.tick] leaves the tick budget as it
    was: nothing in it decrements [ticks] or compares it with zero.  The
    despawn flag after a tick is set exactly when it was set before, or the
    moved bullet overlapped an object, or it overlapped an entity: the
    budget plays no part in it. *)
Theorem C6_tick_leaves_budget_unchanged
    (b : Bullet.t V number) (es : list OtherEntity) (os : list GameObject) :
  Bullet.ticks (Bullet.bullet (Bullet.tick b es os)) = Bullet.ticks b /\
  Bullet.despawn (Bullet.bullet (Bullet.tick b es os)) =
    Bullet.despawn b
    || Bullet.overlaps_someb (Bullet.moved b) os
    || Bullet.overlaps_someb (Bullet.moved b) es.
Proof.
  unfold Bullet.tick.
  set (b0 := Bullet.mk (Entity.tick (Bullet.base b)) (Bullet.dmg b) (Bullet.ticks b)).
  pose proof (hit_first_bullet Bullet.Obj b0 os 0) as [Ht1 Hd1].
  pose proof (hit_first_base_miss Bullet.Obj b0 os 0) as Hb1.
  destruct (Bullet.hit_first Bullet.Obj b0 0 os) as [[b1 os'] log1].
  cbn [fst] in Ht1, Hd1, Hb1.
  change (Bullet.despawn b0) with (Bullet.despawn b) in Hd1.
  change (Bullet.base b0) with (Bullet.moved b) in Hd1.
  destruct (Bullet.despawn b1) eqn:Hdes; cbn [negb].
  - cbn [Bullet.bullet]. rewrite Ht1, Hdes, <- Hd1. split; reflexivity.
  - specialize (Hb1 eq_refl). subst b1.
    pose proof (hit_first_bullet Bullet.Ent b0 es 0) as [Ht2 Hd2].
    destruct (Bullet.hit_first Bullet.Ent b0 0 es) as [[b2 es'] log2].
    cbn [fst] in Ht2, Hd2. cbn [Bullet.bullet].
    rewrite Ht2, Hd2, <- Hd1, Hdes. split; reflexivity.
Qed.

End BulletBudget.

(** C6 fails as stated: a bullet whose budget is one tick, with nothing to
    collide with, still has a budget of one after [tick] and is not
    despawned. *)
Lemma C6_budget_not_decremented :
  Bullet.ticks (Bullet.bullet
    (Bullet.tick (Sample.bullet 1%float) ([] : list Sample.Circle) ([] : list Sample.Circle)))
    = 1%float /\
  Bullet.despawn (Bullet.bullet
    (Bullet.tick (Sample.bullet 1%float) ([] : list Sample.Circle) ([] : list Sample.Circle)))
    = false.
Proof. split; reflexivity. Qed.

(** ** switchweapon, relative mode *)

(** Up to [2^53] in magnitude an integer is a binary64 number. *)
Lemma round53_exact (z : Z) :
  Z.abs z <= 9007199254740992 -> Number.round53 z = z.
Proof.
  intros Hz. unfold Number.round53.
  destruct (Z.log2 (Z.abs z) <? 53) eqn:E; [reflexivity|].
  apply Z.ltb_ge in E.
  assert (Hpow : Z.abs z = 9007199254740992).
  { destruct (Z.eq_dec (Z.abs z) 0) as [H0|H0]; [rewrite H0 in E; cbn in E; lia|].
    pose proof (Z.log2_lt_pow2 (Z.abs z) 53 ltac:(lia)) as [Hlt _].
    change (2 ^ 53) with 9007199254740992 in Hlt. lia. }
  assert (Hcases : z = 9007199254740992 \/ z = - 9007199254740992) by lia.
  destruct Hcases as [-> | ->]; reflexivity.
Qed.

Lemma round53_nonneg (z : Z) : 0 <= z -> 0 <= Number.round53 z.
Proof.
  intros Hz. unfold Number.round53.
  destruct (Z.log2 (Z.abs z) <? 53); [exact Hz|].
  set (ulp := 2 ^ (Z.log2 (Z.abs z) - 52)).
  assert (Hulp : 0 <= ulp) by (apply Z.pow_nonneg; lia).
  assert (Hq : 0 <= Z.abs z / ulp) by (apply Z_div_nonneg_nonneg; lia).
  assert (Hs : 0 <= Z.sgn z) by lia.
  apply Z.mul_nonneg_nonneg; [exact Hs|].
  apply Z.mul_nonneg_nonneg; [|exact Hulp].
  destruct (2 * (Z.abs z mod ulp) <? ulp); [exact Hq|].
  destruct (ulp <? 2 * (Z.abs z mod ulp)); [lia|].
  destruct (Z.even (Z.abs z / ulp)); lia.
Qed.

Lemma add_exact (a b : Z) :
  Z.abs (a + b) <= 9007199254740992 -> Number.add a b = a + b.
Proof. intros Hab. unfold Number.add. apply round53_exact. exact Hab. Qed.

Section SwitchWeaponFacts.
Context {Weapon : Type}.
Variable getWeapon : Inventory.t Weapon -> Z -> option Weapon.
Hypothesis getWeapon_slot : Inventory.reads_slots getWeapon.

Lemma occupied_getWeapon (inv : Inventory.t Weapon) (k : Z) :
  Inventory.occupied inv k -> is_Some (getWeapon inv k).
Proof. intros [Hk Hs]. rewrite (getWeapon_slot inv k Hk). exact Hs. Qed.

Lemma getWeapon_occupied (inv : Inventory.t Weapon) (h : Z) (w : Weapon) :
  0 <= h < Inventory.length inv -> getWeapon inv h = Some w -> Inventory.occupied inv h.
Proof.
  intros Hh Hw. split; [exact Hh|]. rewrite <- (getWeapon_slot inv h Hh), Hw. eexists; reflexivity.
Qed.

(** One turn of the loop from a slot of the array, upwards and downwards:
    the next slot, going round the end of the array. *)
Lemma wrap_up (inv : Inventory.t Weapon) (h : Z) :
  Inventory.length inv <= Number.max_index + 1 ->
  0 <= h < Inventory.length inv ->
  Inventory.wrap inv (Number.add h 1) = if h + 1 =? Inventory.length inv then 0 else h + 1.
Proof.
  unfold Number.max_index. intros Harr Hh.
  rewrite add_exact by lia. unfold Inventory.wrap.
  destruct (h + 1 <? 0) eqn:E0; [lia|].
  destruct (h + 1 =? Inventory.length inv) eqn:E1.
  - apply Z.eqb_eq in E1. rewrite E1, Z.rem_same by lia. reflexivity.
  - apply Z.eqb_neq in E1. apply Z.rem_small. lia.
Qed.

Lemma wrap_down (inv : Inventory.t Weapon) (h : Z) :
  Inventory.length inv <= Number.max_index + 1 ->
  0 <= h < Inventory.length inv ->
  Inventory.wrap inv (Number.add h (-1)) = if h =? 0 then Inventory.length inv - 1 else h - 1.
Proof.
  unfold Number.max_index. intros Harr Hh.
  rewrite add_exact by lia. unfold Inventory.wrap.
  destruct (h =? 0) eqn:E1; [apply Z.eqb_eq in E1 | apply Z.eqb_neq in E1].
  - subst h. replace (0 + -1 <? 0) with true by reflexivity.
    rewrite add_exact by lia. lia.
  - destruct (h + -1 <? 0) eqn:E0; [lia|]. rewrite Z.rem_small by lia. lia.
Qed.

(** Scanning upwards from a slot reaches an occupied slot within
    [steps_up] iterations. *)
Lemma skip_empty_up (inv : Inventory.t Weapon) (k : Z) (n : nat) :
  Inventory.occupied inv k ->
  Inventory.length inv <= Number.max_index + 1 ->
  forall h, 0 <= h < Inventory.length inv ->
  steps_up (Inventory.length inv) h k = Z.of_nat n ->
  exists h', Inventory.occupied inv h' /\
    forall fuel, (n < fuel)%nat -> Inventory.skip_empty getWeapon fuel inv 1 h = Some h'.
Proof.
  intros Hk Harr. induction n as [|n IH]; intros h Hh Hsteps.
  - assert (h = k) as ->.
    { unfold steps_up in Hsteps. destruct Hk as [Hk _]. destruct (h <=? k) eqn:E; lia. }
    destruct (occupied_getWeapon inv k Hk) as [w Hw].
    exists k. split; [exact Hk|].
    intros [|fuel] Hf; [lia|]. simpl. rewrite Hw. reflexivity.
  - destruct (getWeapon inv h) as [w|] eqn:Hw.
    + exists h. split; [exact (getWeapon_occupied inv h w Hh Hw)|].
      intros [|fuel] Hf; [lia|]. simpl. rewrite Hw. reflexivity.
    + assert (Hrange : 0 <= Inventory.wrap inv (Number.add h 1) < Inventory.length inv /\
                       steps_up (Inventory.length inv) (Inventory.wrap inv (Number.add h 1)) k
                       = Z.of_nat n).
      { rewrite (wrap_up inv h Harr Hh). unfold steps_up in *. destruct Hk as [Hk _].
        destruct (h + 1 =? Inventory.length inv) eqn:E1;
          [apply Z.eqb_eq in E1 | apply Z.eqb_neq in E1].
        - destruct (h <=? k) eqn:E2; destruct (0 <=? k) eqn:E3; lia.
        - destruct (h <=? k) eqn:E2; destruct (h + 1 <=? k) eqn:E3; lia. }
      destruct Hrange as [Hr Hs].
      destruct (IH _ Hr Hs) as (h' & Hocc & Hrun).
      exists h'. split; [exact Hocc|].
      intros [|fuel] Hf; [lia|]. simpl. rewrite Hw. apply Hrun. lia.
Qed.

(** Scanning downwards from a slot reaches an occupied slot within
    [steps_down] iterations. *)
Lemma skip_empty_down (inv : Inventory.t Weapon) (k : Z) (n : nat) :
  Inventory.occupied inv k ->
  Inventory.length inv <= Number.max_index + 1 ->
  forall h, 0 <= h < Inventory.length inv ->
  steps_down (Inventory.length inv) h k = Z.of_nat n ->
  exists h', Inventory.occupied inv h' /\
    forall fuel, (n < fuel)%nat -> Inventory.skip_empty getWeapon fuel inv (-1) h = Some h'.
Proof.
  intros Hk Harr. induction n as [|n IH]; intros h Hh Hsteps.
  - assert (h = k) as ->.
    { unfold steps_down in Hsteps. destruct Hk as [Hk _]. destruct (k <=? h) eqn:E; lia. }
    destruct (occupied_getWeapon inv k Hk) as [w Hw].
    exists k. split; [exact Hk|].
    intros [|fuel] Hf; [lia|]. simpl. rewrite Hw. reflexivity.
  - destruct (getWeapon inv h) as [w|] eqn:Hw.
    + exists h. split; [exact (getWeapon_occupied inv h w Hh Hw)|].
      intros [|fuel] Hf; [lia|]. simpl. rewrite Hw. reflexivity.
    + assert (Hrange : 0 <= Inventory.wrap inv (Number.add h (-1)) < Inventory.length inv /\
                       steps_down (Inventory.length inv) (Inventory.wrap inv (Number.add h (-1))) k
                       = Z.of_nat n).
      { rewrite (wrap_down inv h Harr Hh). unfold steps_down in *. destruct Hk as [Hk _].
        destruct (h =? 0) eqn:E1; [apply Z.eqb_eq in E1 | apply Z.eqb_neq in E1].
        - destruct (k <=? h) eqn:E2; destruct (k <=? Inventory.length inv - 1) eqn:E3; lia.
        - destruct (k <=? h) eqn:E2; destruct (k <=? h - 1) eqn:E3; lia. }
      destruct Hrange as [Hr Hs].
      destruct (IH _ Hr Hs) as (h' & Hocc & Hrun).
      exists h'. split; [exact Hocc|].
      intros [|fuel] Hf; [lia|]. simpl. rewrite Hw. apply Hrun. lia.
Qed.

Lemma steps_up_bound (len h k : Z) :
  0 <= h < len -> 0 <= k < len -> 0 <= steps_up len h k < len.
Proof. unfold steps_up. destruct (h <=? k) eqn:E; lia. Qed.

Lemma steps_down_bound (len h k : Z) :
  0 <= h < len -> 0 <= k < len -> 0 <= steps_down len h k < len.
Proof. unfold steps_down. destruct (k <=? h) eqn:E; lia. Qed.

(** From a slot of the array the loop ends on an occupied slot, in either
    direction, within as many turns as there are slots. *)
Lemma skip_empty_inside (inv : Inventory.t Weapon) (k u h : Z) :
  Inventory.occupied inv k ->
  Inventory.length inv <= Number.max_index + 1 ->
  u = 1 \/ u = -1 ->
  0 <= h < Inventory.length inv ->
  exists h', Inventory.occupied inv h' /\
    forall fuel, (Z.to_nat (Inventory.length inv) <= fuel)%nat ->
      Inventory.skip_empty getWeapon fuel inv u h = Some h'.
Proof.
  intros Hk Harr Hu Hh.
  assert (Hlen : 0 <= k < Inventory.length inv) by (destruct Hk; assumption).
  destruct Hu as [-> | ->].
  - pose proof (steps_up_bound _ h k Hh Hlen) as Hb.
    destruct (skip_empty_up inv k (Z.to_nat (steps_up (Inventory.length inv) h k)) Hk Harr h Hh)
      as (h' & Hocc & Hrun); [lia|].
    exists h'. split; [exact Hocc|]. intros fuel Hf. apply Hrun. lia.
  - pose proof (steps_down_bound _ h k Hh Hlen) as Hb.
    destruct (skip_empty_down inv k (Z.to_nat (steps_down (Inventory.length inv) h k)) Hk Harr h Hh)
      as (h' & Hocc & Hrun); [lia|].
    exists h'. split; [exact Hocc|]. intros fuel Hf. apply Hrun. lia.
Qed.

(** From a negative index, down to [-2^53], where [getWeapon] answers
    nothing: every turn of the loop adds [weapons.length + unitDelta] to
    the index, which climbs back into the array when that is positive. *)
Lemma skip_empty_below (inv : Inventory.t Weapon) (k u : Z) (n : nat) :
  Inventory.occupied inv k ->
  Inventory.length inv <= Number.max_index + 1 ->
  u = 1 \/ (u = -1 /\ 2 <= Inventory.length inv) ->
  (forall i, i < 0 -> getWeapon inv i = None) ->
  forall h, - 9007199254740992 < h < 0 -> - h <= Z.of_nat n ->
  exists h', Inventory.occupied inv h' /\
    forall fuel, (n + Z.to_nat (Inventory.length inv) <= fuel)%nat ->
      Inventory.skip_empty getWeapon fuel inv u h = Some h'.
Proof.
  intros Hk Harr Hu Hnone.
  assert (Hlen : 0 <= k < Inventory.length inv) by (destruct Hk; assumption).
  assert (Hu' : u = 1 \/ u = -1) by (destruct Hu as [Hu|[Hu _]]; [left|right]; exact Hu).
  unfold Number.max_index in Harr.
  induction n as [|n IH]; intros h Hh Hn; [lia|].
  assert (Hnext : Inventory.wrap inv (Number.add h u) =
                  if h + u <? 0 then h + u + Inventory.length inv else 0).
  { rewrite add_exact by lia. unfold Inventory.wrap.
    destruct (h + u <? 0) eqn:E0.
    - apply add_exact. lia.
    - assert (h + u = 0) as -> by lia. apply Z.rem_0_l. lia. }
  assert (Hgo : exists h', Inventory.occupied inv h' /\
            forall fuel, (n + Z.to_nat (Inventory.length inv) <= fuel)%nat ->
              Inventory.skip_empty getWeapon fuel inv u (Inventory.wrap inv (Number.add h u))
              = Some h').
  { rewrite Hnext. destruct (h + u <? 0) eqn:E0.
    - destruct (Z_lt_le_dec (h + u + Inventory.length inv) 0) as [Hneg|Hin].
      + apply IH; lia.
      + destruct (skip_empty_inside inv k u (h + u + Inventory.length inv) Hk) as (h' & Hocc & Hrun);
          [unfold Number.max_index; lia | exact Hu' | lia |].
        exists h'. split; [exact Hocc|]. intros fuel Hf. apply Hrun. lia.
    - destruct (skip_empty_inside inv k u 0 Hk) as (h' & Hocc & Hrun);
        [unfold Number.max_index; lia | exact Hu' | lia |].
      exists h'. split; [exact Hocc|]. intros fuel Hf. apply Hrun. lia. }
  destruct Hgo as (h' & Hocc & Hrun).
  exists h'. split; [exact Hocc|].
  intros [|fuel] Hf; [lia|]. cbn [Inventory.skip_empty].
  rewrite (Hnone h) by lia. apply Hrun. lia.
Qed.

(** C4, as the code has it.  In relative mode, when some slot [k] is
    occupied, the sum [holding + delta] is not below [-2^53] (down to there
    the additions on binary64 numbers are exact) and does not overflow,
    and, should the sum be below [-weapons.length], [getWeapon] answers
    nothing for a negative index and a negative [delta] comes with at least
    two slots: the skip-empty-slots loop terminates, within
    [weapons.length] turns and as many more as the sum is below zero, and
    the new holding index is an occupied slot. *)
Theorem C4_relative_switch_lands_on_occupied_slot
    (inv : Inventory.t Weapon) (delta k : Z) :
  Inventory.occupied inv k ->
  Inventory.length inv <= Number.max_index + 1 ->
  - 9007199254740992 <= Inventory.holding inv + delta ->
  Number.finite (Number.add (Inventory.holding inv) delta) = true ->
  (Inventory.holding inv + delta < - Inventory.length inv ->
   (forall i, i < 0 -> getWeapon inv i = None) /\
   (delta < 0 -> 2 <= Inventory.length inv)) ->
  exists h, Inventory.occupied inv h /\
    forall fuel,
      (Z.to_nat (Inventory.length inv) + Z.to_nat (- (Inventory.holding inv + delta))
       <= fuel)%nat ->
      Inventory.switchweapon getWeapon fuel inv delta false
      = Ok (Inventory.mk h (Inventory.weapons inv)).
Proof.
  intros Hk Harr Hlow Hfin Hout.
  assert (Hlen : 0 <= k < Inventory.length inv) by (destruct Hk; assumption).
  set (sum := Inventory.holding inv + delta) in *.
  set (u := if delta <? 0 then -1 else 1).
  assert (Hu : u = 1 \/ u = -1) by (unfold u; destruct (delta <? 0); [right|left]; reflexivity).
  assert (Hscan : exists h, Inventory.occupied inv h /\
            forall fuel, (Z.to_nat (Inventory.length inv) + Z.to_nat (- sum) <= fuel)%nat ->
              Inventory.skip_empty getWeapon fuel inv u (Inventory.start inv delta) = Some h).
  { unfold Inventory.start. fold (Number.add (Inventory.holding inv) delta).
    destruct (Z_lt_le_dec sum 0) as [Hneg|Hpos].
    - assert (Hexact : Number.add (Inventory.holding inv) delta = sum)
        by (apply add_exact; fold sum; lia).
      rewrite Hexact. unfold Inventory.wrap. replace (sum <? 0) with true by lia.
      unfold Number.max_index in Harr. rewrite add_exact by lia.
      destruct (Z_lt_le_dec (sum + Inventory.length inv) 0) as [Hbelow|Hin].
      + destruct (Hout ltac:(lia)) as [Hnone Htwo].
        destruct (skip_empty_below inv k u (Z.to_nat (- (sum + Inventory.length inv))) Hk)
          with (h := sum + Inventory.length inv) as (h & Hocc & Hrun);
          [unfold Number.max_index; lia
          | unfold u; destruct (delta <? 0) eqn:Ed; [right; split; [reflexivity | lia] | left; reflexivity]
          | exact Hnone | lia | lia |].
        exists h. split; [exact Hocc|]. intros fuel Hf. apply Hrun. lia.
      + destruct (skip_empty_inside inv k u (sum + Inventory.length inv) Hk) as (h & Hocc & Hrun);
          [unfold Number.max_index; lia | exact Hu | lia |].
        exists h. split; [exact Hocc|]. intros fuel Hf. apply Hrun. lia.
    - assert (Hround : 0 <= Number.add (Inventory.holding inv) delta)
        by (unfold Number.add; apply round53_nonneg; exact Hpos).
      unfold Inventory.wrap.
      replace (Number.add (Inventory.holding inv) delta <? 0) with false by lia.
      pose proof (Z.rem_bound_pos (Number.add (Inventory.holding inv) delta)
                    (Inventory.length inv) Hround ltac:(lia)) as Hrem.
      destruct (skip_empty_inside inv k u _ Hk Harr Hu Hrem) as (h & Hocc & Hrun).
      exists h. split; [exact Hocc|]. intros fuel Hf. apply Hrun. lia. }
  destruct Hscan as (h & Hocc & Hrun).
  exists h. split; [exact Hocc|].
  intros fuel Hf. unfold Inventory.switchweapon, Inventory.switch_relative.
  rewrite Hfin. fold u. rewrite (Hrun fuel Hf). reflexivity.
Qed.

End SwitchWeaponFacts.

(** The additions of the model are those of binary64 numbers: on these
    operands, below [2^63] in magnitude, they agree with the addition of
    primitive floats. *)
Example add_is_binary64 :
  forallb (fun ab => PrimFloat.eqb (Number.to_float (fst ab) + Number.to_float (snd ab))
                       (Number.to_float (Number.add (fst ab) (snd ab))))
    [(2, 9007199254740991); (3, 9007199254740992); (0, -1152921504606846976);
     (-1152921504606846976, 4); (-1152921504606846976, -1); (-1152921504606846976, 300);
     (18014398509481984, 3); (18014398509481984, 5); (-6, 4); (0, -6)] = true.
Proof. vm_compute. reflexivity. Qed.

(** C4 fails as stated: an inventory of four slots, the first and the last
    occupied, the first held, and [delta = -2^60].  [holding] becomes
    [-2^60], a number whose neighbours are 256 apart: [-2^60 + 4] and
    [-2^60 - 1] both round to [-2^60], so no wrap-around of the loop
    changes the index.  The loop runs for ever if [getWeapon(-2^60)] is
    empty, and ends on the index [-2^60] if it is not. *)
Lemma C4_four_slots_delta_minus_2_pow_60 :
  Inventory.occupied (Inventory.mk 0 [Some "fists"%string; None; None; Some "ak47"%string]) 0 /\
  never_lands (Inventory.mk 0 [Some "fists"%string; None; None; Some "ak47"%string])
    (-1152921504606846976).
Proof.
  split.
  - split; [unfold Inventory.length; cbn; lia | eexists; reflexivity].
  - intros getWeapon _ fuel h. unfold Inventory.switch_relative.
    set (inv := Inventory.mk 0 [Some "fists"%string; None; None; Some "ak47"%string]).
    assert (Hfin : Number.finite (Number.add (Inventory.holding inv) (-1152921504606846976))
                   = true) by (vm_compute; reflexivity).
    assert (Hstart : Inventory.start inv (-1152921504606846976) = -1152921504606846976)
      by (vm_compute; reflexivity).
    assert (Hturn : Inventory.wrap inv (Number.add (-1152921504606846976) (-1))
                    = -1152921504606846976) by (vm_compute; reflexivity).
    rewrite Hfin, Hstart.
    replace (-1152921504606846976 <? 0) with true by reflexivity.
    assert (Hloop : forall fuel,
              Inventory.skip_empty getWeapon fuel inv (-1) (-1152921504606846976) = Some h ->
              h = -1152921504606846976).
    { clear fuel. induction fuel as [|fuel IH]; [discriminate|].
      cbn [Inventory.skip_empty]. destruct (getWeapon _ _); [congruence|].
      rewrite Hturn. exact IH. }
    intros Hrun. apply Hloop in Hrun. subst h. intros [Hneg _]. lia.
Qed.

(** With a single slot the loop has no way back from a negative index
    either: one slot, which is occupied and held, and [delta = -2].
    [holding] becomes [0 - 2 + 1 = -1], and [-1 - 1 + 1 = -1] at every
    turn. *)
Lemma one_slot_delta_minus_two :
  Inventory.occupied (Inventory.mk 0 [Some "fists"%string]) 0 /\
  never_lands (Inventory.mk 0 [Some "fists"%string]) (-2).
Proof.
  split.
  - split; [unfold Inventory.length; cbn; lia | eexists; reflexivity].
  - intros getWeapon _ fuel h. unfold Inventory.switch_relative.
    set (inv := Inventory.mk 0 [Some "fists"%string]).
    assert (Hfin : Number.finite (Number.add (Inventory.holding inv) (-2)) = true)
      by (vm_compute; reflexivity).
    assert (Hstart : Inventory.start inv (-2) = -1) by (vm_compute; reflexivity).
    assert (Hturn : Inventory.wrap inv (Number.add (-1) (-1)) = -1) by (vm_compute; reflexivity).
    rewrite Hfin, Hstart. replace (-2 <? 0) with true by reflexivity.
    assert (Hloop : forall fuel,
              Inventory.skip_empty getWeapon fuel inv (-1) (-1) = Some h -> h = -1).
    { clear fuel. induction fuel as [|fuel IH]; [discriminate|].
      cbn [Inventory.skip_empty]. destruct (getWeapon _ _); [congruence|].
      rewrite Hturn. exact IH. }
    intros Hrun. apply Hloop in Hrun. subst h. intros [Hneg _]. lia.
Qed.

(** C4 at a concrete input: four slots, the first and the last occupied,
    the first held, [delta = -6]: the sum is below [-4], the index climbs
    from -2 to 1 and the loop ends on slot 0. *)
Lemma C4_relative_switch_lands_on_occupied_slot_witness :
  exists h, Inventory.occupied (Inventory.mk 0 [Some "fists"%string; None; None; Some "ak47"%string]) h /\
    forall fuel,
      (Z.to_nat (Inventory.length
                   (Inventory.mk 0 [Some "fists"%string; None; None; Some "ak47"%string]))
       + Z.to_nat (- (Inventory.holding
                        (Inventory.mk 0 [Some "fists"%string; None; None; Some "ak47"%string])
                      + -6))
       <= fuel)%nat ->
      Inventory.switchweapon Inventory.slot fuel
        (Inventory.mk 0 [Some "fists"%string; None; None; Some "ak47"%string]) (-6) false
      = Ok (Inventory.mk h (Inventory.weapons
              (Inventory.mk 0 [Some "fists"%string; None; None; Some "ak47"%string]))).
Proof.
  apply (C4_relative_switch_lands_on_occupied_slot Inventory.slot
           (fun inv i _ => eq_refl)
           (Inventory.mk 0 [Some "fists"%string; None; None; Some "ak47"%string]) (-6) 3).
  - split; [unfold Inventory.length; cbn; lia | eexists; reflexivity].
  - unfold Inventory.length, Number.max_index; cbn; lia.
  - cbn; lia.
  - vm_compute; reflexivity.
  - intros _. split; [|unfold Inventory.length; cbn; lia].
    intros i Hi. unfold Inventory.slot. replace (i <? 0) with true by lia. reflexivity.
Defined.

(** ** movementpress and movementrelease *)

Section MovementFacts.
Context {V number Weapon Item : Type}.
Context `{!Vec2.Ops V} `{!Player.Ops V number Weapon Item}.
Variable DIRECTION_VEC : list V.

(** The loop of lines 122 and 131 adds, in index order, the vectors the
    pressed flags are paired with, when the table is long enough. *)
Lemma add_pressed_sum (movements : list bool) (ii : nat) (angleVec : V) :
  (forall i, movements !! i = Some true -> (ii + i < length DIRECTION_VEC)%nat) ->
  Movement.add_pressed DIRECTION_VEC ii movements angleVec =
    Ok (foldl Vec2.addVec angleVec (Movement.pressed_vectors (drop ii DIRECTION_VEC) movements)).
Proof.
  revert ii angleVec. induction movements as [|m ms IH]; intros ii angleVec Hflags.
  - reflexivity.
  - assert (Hrest : forall i, ms !! i = Some true -> (S ii + i < length DIRECTION_VEC)%nat).
    { intros i Hi. specialize (Hflags (S i) Hi). lia. }
    cbn [Movement.add_pressed]. destruct m.
    + specialize (Hflags 0%nat eq_refl). rewrite Nat.add_0_r in Hflags.
      destruct (lookup_lt_is_Some_2 DIRECTION_VEC ii Hflags) as [d Hd].
      rewrite Hd, (IH _ _ Hrest).
      rewrite (drop_S _ _ _ Hd). reflexivity.
    + rewrite (IH _ _ Hrest). unfold Movement.pressed_vectors.
      destruct (drop ii DIRECTION_VEC) as [|d ds] eqn:Hdrop.
      * assert (Hnil : drop (S ii) DIRECTION_VEC = []).
        { apply drop_ge. apply (f_equal length) in Hdrop. rewrite length_drop in Hdrop.
          simpl in Hdrop. lia. }
        rewrite Hnil. destruct ms; reflexivity.
      * assert (Htail : drop (S ii) DIRECTION_VEC = ds).
        { replace (S ii) with (ii + 1)%nat by lia. rewrite <- drop_drop, Hdrop. reflexivity. }
        rewrite Htail. reflexivity.
Qed.

Lemma velocity_of_sum (movements : list bool) :
  well_flagged DIRECTION_VEC movements ->
  Movement.velocity_of DIRECTION_VEC movements =
    Ok (Vec2.unit (Movement.vec_sum (Movement.pressed_vectors DIRECTION_VEC movements))).
Proof.
  intros Hflags. unfold Movement.velocity_of.
  rewrite (add_pressed_sum movements 0 Vec2.ZERO) by (intros i Hi; apply (Hflags i Hi)).
  rewrite drop_0. reflexivity.
Qed.

(** Writing a flag keeps every pressed flag inside the table, unless a flag
    past the table is set to true. *)
Lemma array_set_well_flagged (movements : list bool) (direction : Z) (v : bool) :
  well_flagged DIRECTION_VEC movements ->
  (v = true -> direction < Z.of_nat (length DIRECTION_VEC)) ->
  well_flagged DIRECTION_VEC (Movement.array_set movements direction v).
Proof.
  intros Hflags Hdir i. unfold Movement.array_set.
  destruct (direction <? 0) eqn:Eneg; [apply Hflags|].
  destruct (Z.to_nat direction <? length movements)%nat eqn:Ein.
  - intros Hi. apply list_lookup_insert_Some in Hi as [(<- & -> & _)|[_ Hi]].
    + specialize (Hdir eq_refl). lia.
    + exact (Hflags i Hi).
  - destruct (direction <=? Number.max_index) eqn:Emax; [|apply Hflags].
    intros Hi. apply lookup_app_Some in Hi as [Hi|[Hlen Hi]]; [exact (Hflags i Hi)|].
    apply lookup_app_Some in Hi as [Hi|[Hge Hi]].
    + apply lookup_replicate in Hi as [Hfalse _]. discriminate.
    + rewrite length_replicate in Hge, Hi.
      apply Nat.ltb_ge in Ein.
      destruct (i - length movements - (Z.to_nat direction - length movements))%nat eqn:Ek;
        [|destruct n; discriminate].
      injection Hi as Hv. specialize (Hdir Hv). lia.
Qed.

Lemma array_set_in_range (movements : list bool) (direction : Z) (v : bool) :
  0 <= direction < Z.of_nat (length movements) ->
  Movement.array_set movements direction v = <[Z.to_nat direction := v]> movements.
Proof.
  intros Hd. unfold Movement.array_set.
  destruct (direction <? 0) eqn:Eneg; [lia|].
  destruct (Z.to_nat direction <? length movements)%nat eqn:Ein; [reflexivity|].
  apply Nat.ltb_ge in Ein. lia.
Qed.

Lemma on_message_movement (fuel : nat) (now : Z) (pressed : bool) (direction : Z)
    (ss : Server.Session) (p : Player.t V Weapon) :
  Server.on_message DIRECTION_VEC fuel now (movement_packet pressed direction) ss p =
    match Movement.velocity_of DIRECTION_VEC
            (Movement.array_set (Server.movements ss) direction pressed) with
    | Ok v => Ok (Server.mkSession (Server.player ss) (Server.timeout ss)
                    (Movement.array_set (Server.movements ss) direction pressed)
                    (Server.buttons ss),
                  Player.setVelocity v p)
    | Throws => Throws
    | OutOfFuel => OutOfFuel
    end.
Proof. destruct pressed; reflexivity. Qed.

(** C2. With the four flags of line 107 and a table of four direction
    vectors, a movementpress or movementrelease packet for a direction
    0..3 writes that flag and sets the player's velocity to the unit vector
    of the sum of the direction vectors of the flags then pressed.  Where
    normalizing the zero vector gives the zero vector: no flag pressed gives
    zero velocity, and so do two pressed flags whose vectors cancel. *)
Theorem C2_velocity_is_unit_of_pressed_sum
    (fuel : nat) (now : Z) (pressed : bool) (direction : Z)
    (ss : Server.Session) (p : Player.t V Weapon) :
  length DIRECTION_VEC = 4%nat ->
  length (Server.movements ss) = 4%nat ->
  0 <= direction < 4 ->
  Vec2.unit Vec2.ZERO = Vec2.ZERO ->
  exists ss' p',
    Server.on_message DIRECTION_VEC fuel now (movement_packet pressed direction) ss p
      = Ok (ss', p') /\
    Server.movements ss' = <[Z.to_nat direction := pressed]> (Server.movements ss) /\
    Player.velocity p' =
      Vec2.unit (Movement.vec_sum (Movement.pressed_vectors DIRECTION_VEC (Server.movements ss'))) /\
    (Server.movements ss' = [false; false; false; false] -> Player.velocity p' = Vec2.ZERO) /\
    (forall i j d d',
        (i < j)%nat -> DIRECTION_VEC !! i = Some d -> DIRECTION_VEC !! j = Some d' ->
        opposite d d' ->
        (forall k, Server.movements ss' !! k = Some true <-> k = i \/ k = j) ->
        Player.velocity p' = Vec2.ZERO).
Proof.
  intros Hdv Hms Hd Hunit.
  set (ms' := <[Z.to_nat direction := pressed]> (Server.movements ss)).
  assert (Hset : Movement.array_set (Server.movements ss) direction pressed = ms').
  { apply array_set_in_range. lia. }
  assert (Hlen : length ms' = 4%nat) by (unfold ms'; rewrite length_insert; exact Hms).
  assert (Hflags : well_flagged DIRECTION_VEC ms').
  { intros i Hi. apply lookup_lt_Some in Hi. lia. }
  exists (Server.mkSession (Server.player ss) (Server.timeout ss) ms' (Server.buttons ss)),
         (Player.setVelocity
            (Vec2.unit (Movement.vec_sum (Movement.pressed_vectors DIRECTION_VEC ms'))) p).
  rewrite on_message_movement, Hset, (velocity_of_sum ms' Hflags).
  cbn [Server.movements Player.velocity Player.setVelocity].
  split; [reflexivity|]. split; [reflexivity|]. split; [reflexivity|]. split.
  - intros ->. destruct DIRECTION_VEC as [|d0 [|d1 [|d2 [|d3 [|]]]]]; try discriminate.
    exact Hunit.
  - intros i j d d' Hij Hi Hj Hopp Hk.
    destruct DIRECTION_VEC as [|d0 [|d1 [|d2 [|d3 [|]]]]]; try discriminate.
    destruct ms' as [|a [|b [|c [|e [|]]]]]; try discriminate.
    assert (Hj4 : (j < 4)%nat) by (apply lookup_lt_Some in Hj; simpl in Hj; lia).
    pose proof (Hk 0%nat) as Hk0. pose proof (Hk 1%nat) as Hk1.
    pose proof (Hk 2%nat) as Hk2. pose proof (Hk 3%nat) as Hk3.
    cbn in Hk0, Hk1, Hk2, Hk3. unfold opposite in Hopp.
    destruct i as [|[|[|[|]]]]; destruct j as [|[|[|[|]]]]; try lia;
      cbn in Hi, Hj; injection Hi as <-; injection Hj as <-;
      destruct a, b, c, e;
      try (exfalso; first
             [ (destruct Hk0 as [Hk0 _]; specialize (Hk0 eq_refl); lia)
             | (destruct Hk1 as [Hk1 _]; specialize (Hk1 eq_refl); lia)
             | (destruct Hk2 as [Hk2 _]; specialize (Hk2 eq_refl); lia)
             | (destruct Hk3 as [Hk3 _]; specialize (Hk3 eq_refl); lia)
             | (destruct Hk0 as [_ Hk0]; assert (Some false = Some true) by (apply Hk0; lia);
                discriminate)
             | (destruct Hk1 as [_ Hk1]; assert (Some false = Some true) by (apply Hk1; lia);
                discriminate)
             | (destruct Hk2 as [_ Hk2]; assert (Some false = Some true) by (apply Hk2; lia);
                discriminate)
             | (destruct Hk3 as [_ Hk3]; assert (Some false = Some true) by (apply Hk3; lia);
                discriminate) ]);
      unfold Movement.pressed_vectors, Movement.vec_sum; cbn;
      rewrite Hopp; exact Hunit.
Qed.

End MovementFacts.

(** C2 at a concrete input: "down" is held, "up" is pressed; the two
    vectors cancel and the velocity is zero. *)
Lemma C2_velocity_is_unit_of_pressed_sum_witness :
  exists ss' p',
    Server.on_message Sample.DIRECTION_VEC 1 500 (movement_packet (number := float) true 3)
      (Sample.session [false; true; false; false]) Sample.alice = Ok (ss', p') /\
    Server.movements ss' =
      <[Z.to_nat 3 := true]> (Server.movements (Sample.session [false; true; false; false])) /\
    Player.velocity p' =
      Vec2.unit (Movement.vec_sum
        (Movement.pressed_vectors Sample.DIRECTION_VEC (Server.movements ss'))) /\
    (Server.movements ss' = [false; false; false; false] -> Player.velocity p' = Vec2.ZERO) /\
    (forall i j d d',
        (i < j)%nat -> Sample.DIRECTION_VEC !! i = Some d -> Sample.DIRECTION_VEC !! j = Some d' ->
        opposite d d' ->
        (forall k, Server.movements ss' !! k = Some true <-> k = i \/ k = j) ->
        Player.velocity p' = Vec2.ZERO).
Proof.
  apply (C2_velocity_is_unit_of_pressed_sum Sample.DIRECTION_VEC 1 500 true 3
           (Sample.session [false; true; false; false]) Sample.alice).
  - reflexivity.
  - reflexivity.
  - lia.
  - reflexivity.
Defined.

(** The scenario of the spec: direction 0 pressed, direction 1 pressed,
    direction 0 released; the velocity is the unit vector of direction 1. *)
Example press_0_press_1_release_0 :
  observe Sample.velocity
    (Sample.run [(0, Server.Connect "c1");
                 (100, Server.Message 0 (Server.Response "c1" "alice"));
                 (200, Server.Message 0 (Server.MovementPress 0));
                 (300, Server.Message 0 (Server.MovementPress 1));
                 (400, Server.Message 0 (Server.MovementRelease 0))])
  = Ok (Some (0, 1)%float).
Proof. vm_compute. reflexivity. Qed.

(** Two opposite directions held, and everything released: zero velocity
    (with floats, thanks to the zero test of [float_unit]). *)
Example opposite_and_released_are_zero :
  observe Sample.velocity
    (Sample.run [(0, Server.Connect "c1");
                 (100, Server.Message 0 (Server.Response "c1" "alice"));
                 (200, Server.Message 0 (Server.MovementPress 0));
                 (300, Server.Message 0 (Server.MovementPress 2))])
  = Ok (Some (0, 0)%float) /\
  observe Sample.velocity
    (Sample.run [(0, Server.Connect "c1");
                 (100, Server.Message 0 (Server.Response "c1" "alice"));
                 (200, Server.Message 0 (Server.MovementPress 3));
                 (300, Server.Message 0 (Server.MovementRelease 3))])
  = Ok (Some (0, 0)%float).
Proof. split; vm_compute; reflexivity. Qed.

Section HandlerFacts.
Context {V number Weapon Item : Type}.
Context `{!Vec2.Ops V} `{!Player.Ops V number Weapon Item}.
Variable DIRECTION_VEC : list V.


End HandlerFacts.


(** The handler has a second way to throw, which no packet type guards
    against: a payload that decodes to [null], as the first message of a
    connection or after the connection is accepted. *)
Example null_payload_throws :
  Sample.run [(0, Server.Connect "c1"); (100, Server.NullMessage 0)] = Throws /\
  Sample.run [(0, Server.Connect "c1");
              (100, Server.Message 0 (Server.Response "c1" "alice"));
              (200, Server.NullMessage 0)] = Throws.
Proof. split; vm_compute; reflexivity. Qed.


(** ** World.postTick and the tick loop *)

Section WorldFacts.
Context {E Obstacle Particle Sound : Type}.

(** C5. Whatever the world holds, after [postTick] its dirty and discard
    collections, its particles and its once-sounds are empty. *)
Theorem C5_postTick_empties_change_sets (w : World.t E Obstacle Particle Sound) :
  World.dirtyEntities (World.postTick w) = [] /\
  World.dirtyObstacles (World.postTick w) = [] /\
  World.discardEntities (World.postTick w) = [] /\
  World.discardObstacles (World.postTick w) = [] /\
  World.particles (World.postTick w) = [] /\
  World.onceSounds (World.postTick w) = [].
Proof. repeat split; reflexivity. Qed.

(** [postTick] leaves the live collections and the join sounds alone. *)
Lemma postTick_keeps_live (w : World.t E Obstacle Particle Sound) :
  World.entities (World.postTick w) = World.entities w /\
  World.obstacles (World.postTick w) = World.obstacles w /\
  World.joinSounds (World.postTick w) = World.joinSounds w.
Proof. repeat split; reflexivity. Qed.

End WorldFacts.

Section IntervalFacts.
Context {V number Weapon Item OtherEntity Obstacle Particle Sound : Type}.
Context `{!Vec2.Ops V} `{!Player.Ops V number Weapon Item}.
Variable World_tick :
  list (Player.t V Weapon) -> World.t (Server.EntityRef OtherEntity) Obstacle Particle Sound ->
  list (Player.t V Weapon) * World.t (Server.EntityRef OtherEntity) Obstacle Particle Sound.

(** The tick loop ends with [world.postTick()]: whatever [world.tick()]
    did, the callback of [setInterval] leaves the change sets empty. *)
Lemma on_interval_empties_change_sets (s : Server.State (V := V) (Weapon := Weapon)) :
  World.dirtyEntities (Server.world (Server.on_interval World_tick s)) = [] /\
  World.dirtyObstacles (Server.world (Server.on_interval World_tick s)) = [] /\
  World.discardEntities (Server.world (Server.on_interval World_tick s)) = [] /\
  World.discardObstacles (Server.world (Server.on_interval World_tick s)) = [] /\
  World.particles (Server.world (Server.on_interval World_tick s)) = [] /\
  World.onceSounds (Server.world (Server.on_interval World_tick s)) = [].
Proof.
  unfold Server.on_interval. destruct (World_tick (Server.heap s) (Server.world s)) as [h w].
  repeat split; reflexivity.
Qed.

End IntervalFacts.

(** ** The session layer *)

Section SessionFacts.
Context {V number Weapon Item OtherEntity Obstacle Particle Sound : Type}.
Context `{!Vec2.Ops V} `{!Player.Ops V number Weapon Item}.
Variable DIRECTION_VEC : list V.
Variable World_tick :
  list (Player.t V Weapon) -> World.t (Server.EntityRef OtherEntity) Obstacle Particle Sound ->
  list (Player.t V Weapon) * World.t (Server.EntityRef OtherEntity) Obstacle Particle Sound.

Abbreviation State := (@Server.State V Weapon OtherEntity Obstacle Particle Sound).
Abbreviation Event := (@Server.Event number Item).
Abbreviation step := (Server.step (Obstacle := Obstacle) (Particle := Particle) (Sound := Sound)
                    DIRECTION_VEC World_tick).
Abbreviation run := (Server.run (Obstacle := Obstacle) (Particle := Particle) (Sound := Sound)
                   DIRECTION_VEC World_tick).

Lemma conns_resume (now : Z) (h : nat) (c : Server.Connection) (s : State) :
  Server.conns (Server.resume now h c s) =
    <[h := if Server.connected c
           then Server.set_session
                  (Some (Server.mkSession (length (Server.heap s)) (Server.setTimeout now 30000)
                           [false; false; false; false] ∅))
                  (Server.set_awaiting false c)
           else Server.set_awaiting false c]> (Server.conns s).
Proof. unfold Server.resume. destruct (Server.connected c); reflexivity. Qed.

(** A message that decodes to [null] is either not taken by any listener,
    and nothing changes, or it makes the listener throw. *)
Lemma on_null_message_ok (h : nat) (s s' : State) :
  Server.on_null_message h s = Ok s' -> s' = s.
Proof.
  unfold Server.on_null_message.
  destruct (Server.conns s !! h) as [c|]; [|congruence].
  destruct (Server.readyState c); try congruence;
    (destruct (Server.once_message c); [discriminate|]);
    (destruct (Server.session c); [discriminate | congruence]).
Qed.

(** An event changes at most the connection it is about, and a new
    connection goes to the end of the list; a connection stays pristine,
    and one that was turned away stays so. *)
Lemma step_conns (fuel : nat) (now : Z) (s s' : State) (ev : Event) :
  step fuel now s ev = Ok s' ->
  (exists c, Server.conns s' = Server.conns s ++ [c] /\ Server.once_message c = true /\
             pristine c) \/
  Server.conns s' = Server.conns s \/
  (exists h c c', connection_of ev = Some h /\ Server.conns s !! h = Some c /\
                  Server.conns s' = <[h := c']> (Server.conns s) /\
                  (pristine c -> pristine c') /\ (turned_away c -> turned_away c')).
Proof.
  destruct ev as [id_|h msg|h|h|h|h|]; cbn [Server.step connection_of]; intros Hstep;
    [| |right; left; rewrite (on_null_message_ok h s s' Hstep); reflexivity| | | |].
  - left. injection Hstep as <-. eexists. split; [reflexivity|]. split; [reflexivity|].
    intros _. split; reflexivity.
  - right. unfold Server.on_socket_message in Hstep.
    destruct (Server.conns s !! h) as [c|] eqn:Hc; [|injection Hstep as <-; left; reflexivity].
    destruct (Server.readyState c) eqn:Hready;
      [| |injection Hstep as <-; left; reflexivity].
    all: destruct (Server.once_message c) eqn:Honce;
      [ destruct (Server.awaiting _) eqn:Hawait; injection Hstep as <-; right;
        exists h, c; eexists; (split; [reflexivity|split; [exact Hc|]]);
        (split; [first [apply conns_resume | reflexivity]|]);
        (split; [|intros [Hno _]; congruence]);
        intros _; conn_fields
      | destruct (Server.session c) as [ss|] eqn:Hsession;
        [|injection Hstep as <-; left; reflexivity];
        destruct (Server.heap s !! Server.player ss) as [p|];
        [|injection Hstep as <-; left; reflexivity];
        destruct (Server.on_message _ _ _ _ _ _) as [[ss' p']| |]; try discriminate;
        injection Hstep as <-; right; exists h, c; eexists;
        (split; [reflexivity|split; [exact Hc|split; [reflexivity|]]]);
        (split; [intros _ Hyes; cbn in Hyes; congruence | intros (_ & _ & Hnone); congruence]) ].
  - right. injection Hstep as <-. unfold Server.on_wait_elapsed.
    destruct (Server.conns s !! h) as [c|] eqn:Hc; [|left; reflexivity].
    destruct (Server.wait_pending c && (Server.wait_until c <=? now)); [|left; reflexivity].
    destruct (Server.awaiting _); right; exists h, c; eexists;
      (split; [reflexivity|split; [exact Hc|]]);
      (split; [first [apply conns_resume | reflexivity]|]); split; intros Hc0; conn_fields.
  - right. injection Hstep as <-. unfold Server.on_timeout.
    destruct (Server.conns s !! h) as [c|] eqn:Hc; [|left; reflexivity].
    destruct (Server.session c) as [ss|] eqn:Hsession; [|left; reflexivity].
    destruct (Server.due now _); [|left; reflexivity].
    right. exists h, c. eexists. split; [reflexivity|split; [exact Hc|split; [reflexivity|]]].
    split; intros Hc0; conn_fields.
  - right. injection Hstep as <-. unfold Server.on_close.
    destruct (Server.conns s !! h) as [c|] eqn:Hc; [|left; reflexivity].
    destruct (Server.readyState c); [right|right|left; reflexivity];
      exists h, c; eexists; (split; [reflexivity|split; [exact Hc|split; [reflexivity|]]]);
      split; intros Hc0; conn_fields.
  - right. left. injection Hstep as <-. unfold Server.on_interval.
    destruct (World_tick _ _). reflexivity.
Qed.

(** Events about other connections leave a connection as it is. *)
Lemma step_frame (fuel : nat) (now : Z) (s s' : State) (ev : Event)
    (h : nat) (c : Server.Connection) :
  step fuel now s ev = Ok s' ->
  connection_of ev <> Some h ->
  Server.conns s !! h = Some c ->
  Server.conns s' !! h = Some c.
Proof.
  intros Hstep Hother Hc.
  destruct (step_conns fuel now s s' ev Hstep)
    as [(c0 & -> & _)|[->|(h0 & c0 & c' & Ht & _ & -> & _)]].
  - apply lookup_app_l_Some. exact Hc.
  - exact Hc.
  - rewrite list_lookup_insert_ne; [exact Hc|]. intros ->. contradiction.
Qed.

Lemma step_all_pristine (fuel : nat) (now : Z) (s s' : State) (ev : Event) :
  step fuel now s ev = Ok s' -> all_pristine s -> all_pristine s'.
Proof.
  intros Hstep Hinv h c Hc.
  destruct (step_conns fuel now s s' ev Hstep)
    as [(c0 & Hs' & _ & Hp0)|[Hs'|(h0 & c0 & c' & _ & Hc0 & Hs' & Hp & _)]];
    rewrite Hs' in Hc.
  - apply lookup_app_Some in Hc as [Hc|[_ Hc]]; [exact (Hinv h c Hc)|].
    apply list_lookup_singleton_Some in Hc as [_ <-]. exact Hp0.
  - exact (Hinv h c Hc).
  - apply list_lookup_insert_Some in Hc as [(<- & <- & _)|[_ Hc]].
    + exact (Hp (Hinv _ _ Hc0)).
    + exact (Hinv h c Hc).
Qed.

Lemma run_all_pristine (fuel : nat) (evs : list (Z * Event)) (s s' : State) :
  run fuel s evs = Ok s' -> all_pristine s -> all_pristine s'.
Proof.
  revert s. induction evs as [|[now ev] evs IH]; intros s Hrun Hinv.
  - injection Hrun as <-. exact Hinv.
  - cbn [Server.run] in Hrun. destruct (step fuel now s ev) as [s1| |] eqn:Hstep; try discriminate.
    exact (IH s1 Hrun (step_all_pristine fuel now s s1 ev Hstep Hinv)).
Qed.

Lemma init_all_pristine (w : World.t (Server.EntityRef OtherEntity) Obstacle Particle Sound) :
  all_pristine (Server.init (V := V) (Weapon := Weapon) w).
Proof. intros h c Hc. destruct h; discriminate Hc. Qed.

(** A connection that was turned away stays turned away, whatever
    happens next. *)
Lemma step_turned_away (fuel : nat) (now : Z) (s s' : State) (ev : Event)
    (h : nat) (c : Server.Connection) :
  step fuel now s ev = Ok s' ->
  Server.conns s !! h = Some c -> turned_away c ->
  exists c', Server.conns s' !! h = Some c' /\ turned_away c'.
Proof.
  intros Hstep Hc Hta.
  destruct (step_conns fuel now s s' ev Hstep)
    as [(c0 & Hs' & _)|[Hs'|(h0 & c0 & c' & _ & Hc0 & Hs' & _ & Hkeep)]];
    rewrite Hs'.
  - exists c. split; [apply lookup_app_l_Some; exact Hc | exact Hta].
  - exists c. split; [exact Hc | exact Hta].
  - destruct (decide (h0 = h)) as [->|Hne].
    + exists c'. split.
      * apply list_lookup_insert_eq. apply lookup_lt_Some in Hc. exact Hc.
      * apply Hkeep. congruence.
    + exists c. split; [rewrite list_lookup_insert_ne; [exact Hc | exact Hne] | exact Hta].
Qed.

Lemma run_turned_away (fuel : nat) (evs : list (Z * Event)) (s s' : State)
    (h : nat) (c : Server.Connection) :
  run fuel s evs = Ok s' ->
  Server.conns s !! h = Some c -> turned_away c ->
  exists c', Server.conns s' !! h = Some c' /\ turned_away c'.
Proof.
  revert s c. induction evs as [|[now ev] evs IH]; intros s c Hrun Hc Hta.
  - injection Hrun as <-. exists c. split; assumption.
  - cbn [Server.run] in Hrun. destruct (step fuel now s ev) as [s1| |] eqn:Hstep; try discriminate.
    destruct (step_turned_away fuel now s s1 ev h c Hstep Hc Hta) as (c1 & Hc1 & Hta1).
    exact (IH s1 c1 Hrun Hc1 Hta1).
Qed.

(** No listener takes a message of a connection that was turned away. *)
Lemma turned_away_ignores (fuel : nat) (now : Z) (s : State) (h : nat)
    (c : Server.Connection) (msg : Server.Packet number Item) :
  Server.conns s !! h = Some c -> turned_away c ->
  step fuel now s (Server.Message h msg) = Ok s.
Proof.
  intros Hc (Honce & _ & Hsession). cbn [Server.step]. unfold Server.on_socket_message.
  rewrite Hc, Honce, Hsession. destruct (Server.readyState c); reflexivity.
Qed.

(** The first message of a connection, when it fails the test of line 78,
    turns the connection away. *)
Lemma failed_first_message (fuel : nat) (now : Z) (s : State) (h : nat)
    (c : Server.Connection) (msg : Server.Packet number Item) :
  Server.conns s !! h = Some c -> pristine c ->
  Server.once_message c = true -> Server.readyState c <> Server.CLOSED ->
  Server.handshake_ok (Server.id c) msg = None ->
  exists s1 c1, step fuel now s (Server.Message h msg) = Ok s1 /\
    Server.conns s1 !! h = Some c1 /\ turned_away c1 /\
    Server.readyState c1 <> Server.OPEN /\
    Server.numberOfPlayers s1 = Server.numberOfPlayers s /\
    Server.heap s1 = Server.heap s /\ Server.world s1 = Server.world s.
Proof.
  intros Hc Hp Honce Hready Hfail.
  destruct (Hp Honce) as [Hconn Hsession].
  assert (Hh : (h < length (Server.conns s))%nat) by (apply lookup_lt_Some in Hc; exact Hc).
  cbn [Server.step]. unfold Server.on_socket_message. rewrite Hc, Honce.
  assert (Hc1 : Server.connected (Server.on_first_message msg c) = false).
  { unfold Server.on_first_message. rewrite Hfail. conn_fields. }
  destruct (Server.readyState c) eqn:Hr; [| |congruence];
    destruct (Server.awaiting (Server.on_first_message msg c)) eqn:Hawait;
    eexists _, _; (split; [reflexivity|]);
    unfold Server.resume; rewrite ?Hc1; cbn;
    (split; [apply list_lookup_insert_eq; exact Hh|]);
    unfold Server.on_first_message in *; rewrite Hfail in *;
    unfold turned_away, Server.socket_close, Server.set_awaiting; rewrite Hr; cbn;
    repeat split; try congruence.
Qed.

(** C10. Let a connection of a reachable state have its handshake listener
    still registered (no message has arrived on it) and its socket not
    closed.  If the message that arrives fails the test of line 78, then
    whatever happens afterwards the connection is not connected and not
    accepted (it has no player), and a later message on it, well-formed or
    not, leaves the whole state as it is: no listener processes it. *)
Theorem C10_failed_first_message_is_final
    (w : World.t (Server.EntityRef OtherEntity) Obstacle Particle Sound)
    (fuel : nat) (pre : list (Z * Event)) (s : State)
    (now : Z) (h : nat) (c : Server.Connection) (msg : Server.Packet number Item) :
  run fuel (Server.init w) pre = Ok s ->
  Server.conns s !! h = Some c ->
  Server.once_message c = true ->
  Server.readyState c <> Server.CLOSED ->
  Server.handshake_ok (Server.id c) msg = None ->
  exists s1,
    step fuel now s (Server.Message h msg) = Ok s1 /\
    Server.numberOfPlayers s1 = Server.numberOfPlayers s /\
    Server.heap s1 = Server.heap s /\
    forall post s',
      run fuel s1 post = Ok s' ->
      exists c',
        Server.conns s' !! h = Some c' /\
        Server.connected c' = false /\
        Server.session c' = None /\
        forall fuel' now' msg', step fuel' now' s' (Server.Message h msg') = Ok s'.
Proof.
  intros Hpre Hc Honce Hready Hfail.
  pose proof (run_all_pristine fuel pre _ s Hpre (init_all_pristine w) h c Hc) as Hp.
  destruct (failed_first_message fuel now s h c msg Hc Hp Honce Hready Hfail)
    as (s1 & c1 & Hstep & Hc1 & Hta1 & _ & Hn & Hheap & _).
  exists s1. split; [exact Hstep|]. split; [exact Hn|]. split; [exact Hheap|].
  intros post s' Hpost.
  destruct (run_turned_away fuel post s1 s' h c1 Hpost Hc1 Hta1) as (c' & Hc' & Hta').
  exists c'. split; [exact Hc'|].
  destruct Hta' as (Honce' & Hconn' & Hsession').
  split; [exact Hconn'|]. split; [exact Hsession'|].
  intros fuel' now' msg'.
  apply (turned_away_ignores fuel' now' s' h c' msg' Hc').
  repeat split; assumption.
Qed.

(** The handshake as line 78 accepts it: while the callback is still at
    the [await], a first message with the issued id and a non-empty
    username creates one player, puts it into [world.entities] and raises
    the player count by one. *)
Lemma handshake_accepts (fuel : nat) (now : Z) (s : State) (h : nat)
    (c : Server.Connection) (msg : Server.Packet number Item) (username_ : string) :
  Server.conns s !! h = Some c ->
  Server.once_message c = true -> Server.awaiting c = true ->
  Server.readyState c <> Server.CLOSED ->
  Server.handshake_ok (Server.id c) msg = Some username_ ->
  exists s1, step fuel now s (Server.Message h msg) = Ok s1 /\
    Server.numberOfPlayers s1 = Server.numberOfPlayers s + 1 /\
    Server.heap s1 = Server.heap s ++ [Player.new (Server.id c) username_] /\
    World.entities (Server.world s1) =
      World.entities (Server.world s) ++ [Server.PlayerRef (length (Server.heap s))].
Proof.
  intros Hc Honce Hawait Hready Hok.
  cbn [Server.step]. unfold Server.on_socket_message. rewrite Hc, Honce.
  unfold Server.on_first_message. rewrite Hok. cbn. rewrite Hawait.
  destruct (Server.readyState c); [| |congruence];
    eexists; (split; [reflexivity|]); unfold Server.resume; cbn; repeat split; reflexivity.
Qed.

(** When the timer of [wait(10000)] fires, nothing closes the socket and
    nothing takes it out of [sockets]; no player is created. *)
Lemma wait_elapsed_keeps_socket (now : Z) (s : State) (h : nat) (c : Server.Connection) :
  Server.conns s !! h = Some c -> pristine c -> Server.once_message c = true ->
  Server.sockets (Server.on_wait_elapsed now h s) = Server.sockets s /\
  Server.numberOfPlayers (Server.on_wait_elapsed now h s) = Server.numberOfPlayers s /\
  Server.heap (Server.on_wait_elapsed now h s) = Server.heap s /\
  (Server.readyState <$> Server.conns (Server.on_wait_elapsed now h s) !! h)
    = Some (Server.readyState c) /\
  (Server.once_message <$> Server.conns (Server.on_wait_elapsed now h s) !! h) = Some true.
Proof.
  intros Hc Hp Honce. destruct (Hp Honce) as [Hconn _].
  assert (Hh : (h < length (Server.conns s))%nat) by (apply lookup_lt_Some in Hc; exact Hc).
  unfold Server.on_wait_elapsed. rewrite Hc.
  destruct (Server.wait_pending c && (Server.wait_until c <=? now)).
  - destruct (Server.awaiting _); unfold Server.resume; cbn; rewrite ?Hconn; cbn;
      rewrite list_lookup_insert_eq by exact Hh; cbn; rewrite ?Honce; repeat split; reflexivity.
  - rewrite Hc. cbn. rewrite Honce. repeat split; reflexivity.
Qed.

(** The close listener, lines 63-70: the id leaves [sockets], the count
    goes down by one exactly when [connected] is set, and the world and the
    player objects are left as they are. *)
Lemma on_close_effect (s : State) (h : nat) (c : Server.Connection) :
  Server.conns s !! h = Some c -> Server.readyState c <> Server.CLOSED ->
  Server.sockets (Server.on_close h s) !! Server.id c = None /\
  Server.numberOfPlayers (Server.on_close h s) =
    (if Server.connected c then Server.numberOfPlayers s - 1 else Server.numberOfPlayers s) /\
  Server.world (Server.on_close h s) = Server.world s /\
  Server.heap (Server.on_close h s) = Server.heap s /\
  (Server.readyState <$> Server.conns (Server.on_close h s) !! h) = Some Server.CLOSED /\
  Server.on_close h (Server.on_close h s) = Server.on_close h s.
Proof.
  intros Hc Hready.
  assert (Hh : (h < length (Server.conns s))%nat) by (apply lookup_lt_Some in Hc; exact Hc).
  unfold Server.on_close. rewrite Hc.
  destruct (Server.readyState c) eqn:Hr; [| |congruence]; cbn;
    rewrite list_lookup_insert_eq by exact Hh; cbn;
    (split; [apply lookup_delete_eq|]); repeat split; reflexivity.
Qed.

(** C7, as the code has it.  A connection that is accepted gets a timer
    due 30 seconds later.  A ping packet restarts it, 30 seconds from the
    time the ping is handled; every other packet the handler returns from
    leaves the timer as it was.  When the timer fires, the socket is closed
    by the server (it is no longer open), and once its close event is
    handled the id is not in [sockets] and the socket is closed. *)
Theorem C7_heartbeat_refreshed_by_ping_only :
  (forall now h (c : Server.Connection) (s : State),
     (h < length (Server.conns s))%nat -> Server.connected c = true ->
     (Server.session <$> Server.conns (Server.resume now h c s) !! h) =
       Some (Some (Server.mkSession (length (Server.heap s)) (Server.mkTimer (now + 30000) true)
                     [false; false; false; false] ∅))) /\
  (forall fuel now (pkt : Server.Packet number Item) ss (p : Player.t V Weapon) ss' p',
     Server.on_message DIRECTION_VEC fuel now pkt ss p = Ok (ss', p') ->
     Server.timeout ss' =
       match pkt with
       | Server.Ping => Server.mkTimer (now + 30000) true
       | _ => Server.timeout ss
       end) /\
  (forall now h (s : State) c ss,
     Server.conns s !! h = Some c -> Server.session c = Some ss ->
     Server.due now (Server.timeout ss) = true ->
     exists c',
       Server.conns (Server.on_timeout now h s) !! h = Some c' /\
       Server.id c' = Server.id c /\
       Server.readyState c' <> Server.OPEN /\
       (Server.readyState c' <> Server.CLOSED ->
        Server.sockets (Server.on_close h (Server.on_timeout now h s)) !! Server.id c = None /\
        (Server.readyState <$> Server.conns (Server.on_close h (Server.on_timeout now h s)) !! h)
          = Some Server.CLOSED)).
Proof.
  split; [|split].
  - intros now h c s Hh Hconn. rewrite conns_resume, Hconn.
    rewrite list_lookup_insert_eq by exact Hh. reflexivity.
  - intros fuel now pkt ss p ss' p' Hrun.
    destruct pkt; cbn [Server.on_message] in Hrun;
      try (injection Hrun as <- _; reflexivity).
    + destruct (Movement.velocity_of _ _); try discriminate. injection Hrun as <- _. reflexivity.
    + destruct (Movement.velocity_of _ _); try discriminate. injection Hrun as <- _. reflexivity.
    + destruct (Inventory.switchweapon _ _ _ _ _); try discriminate.
      injection Hrun as <- _. reflexivity.
  - intros now h s c ss Hc Hsession Hdue.
    assert (Hh : (h < length (Server.conns s))%nat) by (apply lookup_lt_Some in Hc; exact Hc).
    unfold Server.on_timeout. rewrite Hc, Hsession, Hdue.
    eexists. split; [apply list_lookup_insert_eq; exact Hh|].
    split; [unfold Server.socket_close; cbn; destruct (Server.readyState c); reflexivity|].
    split; [unfold Server.socket_close; cbn; destruct (Server.readyState c) eqn:Hr; cbn;
            rewrite ?Hr; congruence|].
    intros Hopen.
    match goal with
    | |- context [Server.on_close h ?s1] =>
        pose proof (on_close_effect s1 h _ (list_lookup_insert_eq _ _ _ Hh) Hopen)
          as (Hgone & _ & _ & _ & Hclosed & _)
    end.
    split; [|exact Hclosed].
    rewrite <- Hgone. f_equal.
    unfold Server.socket_close; cbn; destruct (Server.readyState c); reflexivity.
Qed.

End SessionFacts.

(** C10 at a concrete input: the first message of a new connection carries
    a wrong id. *)
Lemma C10_failed_first_message_is_final_witness :
  exists s1,
    Server.step Sample.DIRECTION_VEC Sample.World_tick 100 100
      (Server.on_connection 0 "c1" Sample.init)
      (Server.Message 0 (Server.Response "zz" "alice")) = Ok s1 /\
    Server.numberOfPlayers s1 = Server.numberOfPlayers (Server.on_connection 0 "c1" Sample.init) /\
    Server.heap s1 = Server.heap (Server.on_connection 0 "c1" Sample.init) /\
    forall post s',
      Server.run Sample.DIRECTION_VEC Sample.World_tick 100 s1 post = Ok s' ->
      exists c',
        Server.conns s' !! 0%nat = Some c' /\
        Server.connected c' = false /\
        Server.session c' = None /\
        forall fuel' now' (msg' : Server.Packet float string),
          Server.step Sample.DIRECTION_VEC Sample.World_tick fuel' now' s' (Server.Message 0 msg')
          = Ok s'.
Proof.
  apply (C10_failed_first_message_is_final Sample.DIRECTION_VEC Sample.World_tick
           (World.mk [] [] [] [] [] [] [] [] []) 100 [(0, Server.Connect "c1")]
           (Server.on_connection 0 "c1" Sample.init) 100 0
           (Server.mkConnection "c1" Server.OPEN false EmptyString true true 10000 true None)
           (Server.Response "zz" "alice")).
  - reflexivity.
  - reflexivity.
  - reflexivity.
  - discriminate.
  - reflexivity.
Defined.

(** C7 fails as stated: a connection is accepted at 100 ms, so its timer is
    due at 30100 ms; a movementpress handled at 29000 ms leaves the timer
    due at 30100 ms, where it fires and the server closes the socket, 1100
    ms after the last inbound message.  A ping at 29000 ms instead moves
    the timer to 59000 ms. *)
Lemma C7_movementpress_does_not_refresh :
  observe Sample.heartbeat
    (Sample.run [(0, Server.Connect "c1");
                 (100, Server.Message 0 (Server.Response "c1" "alice"));
                 (29000, Server.Message 0 (Server.MovementPress 0))])
    = Ok (Some (Server.mkTimer 30100 true)) /\
  observe Sample.socket_state
    (Sample.run [(0, Server.Connect "c1");
                 (100, Server.Message 0 (Server.Response "c1" "alice"));
                 (29000, Server.Message 0 (Server.MovementPress 0));
                 (30100, Server.TimeoutFired 0)])
    = Ok (Some Server.CLOSING) /\
  observe Sample.heartbeat
    (Sample.run [(0, Server.Connect "c1");
                 (100, Server.Message 0 (Server.Response "c1" "alice"));
                 (29000, Server.Message 0 Server.Ping)])
    = Ok (Some (Server.mkTimer 59000 true)).
Proof. repeat split; vm_compute; reflexivity. Qed.

(** C3, the timeout branch: a client connects at 0 ms and sends nothing.
    When the 10 second timer fires the callback returns: no player exists
    and the count is 0, as the claim says, but the socket is still open and
    still registered in [sockets]; nothing closed the connection.  Sixty
    seconds later it still is. *)
Lemma C3_timeout_leaves_connection_open :
  observe (fun s => (Sample.socket_state s, Sample.registered s, Sample.players s))
    (Sample.run [(0, Server.Connect "c1"); (10000, Server.WaitElapsed 0)])
    = Ok (Some Server.OPEN, Some 0%nat, (0, 0%nat, [])) /\
  observe (fun s => (Sample.socket_state s, Sample.registered s, Sample.players s))
    (Sample.run [(0, Server.Connect "c1"); (10000, Server.WaitElapsed 0);
                 (40000, Server.TimeoutFired 0); (70000, Server.Interval)])
    = Ok (Some Server.OPEN, Some 0%nat, (0, 0%nat, [])).
Proof. split; vm_compute; reflexivity. Qed.

(** C9, on a connection whose handshake timed out: the client answers
    after the 10 seconds, the handshake listener (still registered) sets
    [connected], no player is created and the count stays 0; when the
    socket closes the count is decremented all the same, to -1. *)
Lemma C9_close_after_late_response_decrements :
  observe Sample.players
    (Sample.run [(0, Server.Connect "c1"); (10000, Server.WaitElapsed 0);
                 (11000, Server.Message 0 (Server.Response "c1" "alice"))])
    = Ok (0, 0%nat, []) /\
  observe Sample.players
    (Sample.run [(0, Server.Connect "c1"); (10000, Server.WaitElapsed 0);
                 (11000, Server.Message 0 (Server.Response "c1" "alice"));
                 (12000, Server.Close 0)])
    = Ok (-1, 0%nat, []).
Proof. split; vm_compute; reflexivity. Qed.

(** * Further properties *)

(** ** Bullet.tick: the entity pass, misses, and what a tick never does *)

Section BulletPasses.
Context {V : Type} `{Vec2.Ops V}.
Context {number : Type}.
Context {GameObject : Type} `{!Hittable V number GameObject}.
Context {OtherEntity : Type} `{!Hittable V number OtherEntity}.

Lemma filter_collided {P : Bullet.event number -> bool} (k : Bullet.target) (l : list nat) :
  (forall i, P (Bullet.Collided k i) = false) ->
  List.filter P (Bullet.Collided k <$> l) = [].
Proof.
  intros HP. induction l as [|i l IH]; [reflexivity|]. cbn. rewrite HP. exact IH.
Qed.

(** X1. The second loop of [tick] (lines 26-30): when the bullet was not
    despawned before the tick and overlaps no object but at least one
    entity, every object is tested, then the entities up to the first
    overlapping one; that entity alone is damaged, with [dmg], the bullet is
    despawned and the objects are left as they were. *)
Theorem X1_first_overlapping_entity_is_hit
    (b : Bullet.t V number) (es : list OtherEntity) (os : list GameObject) :
  Bullet.despawn b = false ->
  Bullet.overlaps_someb (Bullet.moved b) os = false ->
  Bullet.overlaps_some (Bullet.moved b) es ->
  exists i e,
    Bullet.first_overlap (Bullet.moved b) es i e /\
    Bullet.entities (Bullet.tick b es os) = <[i := damage (Bullet.dmg b) e]> es /\
    Bullet.objects (Bullet.tick b es os) = os /\
    Bullet.despawn (Bullet.bullet (Bullet.tick b es os)) = true /\
    Bullet.log (Bullet.tick b es os) =
      (Bullet.Collided Bullet.Obj <$> seq 0 (length os))
      ++ (Bullet.Collided Bullet.Ent <$> seq 0 (S i))
      ++ [Bullet.Damaged Bullet.Ent i (Bullet.dmg b); Bullet.Died].
Proof.
  intros Halive Hnone Hsome.
  destruct (overlaps_first _ _ Hsome) as (i & e & Hfirst).
  exists i, e. split; [exact Hfirst|].
  unfold Bullet.tick.
  set (b0 := Bullet.mk (Entity.tick (Bullet.base b)) (Bullet.dmg b) (Bullet.ticks b)).
  rewrite (hit_first_miss Bullet.Obj b0 os 0 Hnone).
  change (Bullet.despawn b0) with (Bullet.despawn b). rewrite Halive. cbn [negb].
  rewrite (hit_first_hit Bullet.Ent b0 es i e 0 Hfirst).
  cbn [Bullet.entities Bullet.objects Bullet.bullet Bullet.log].
  repeat split; try reflexivity.
  unfold Bullet.despawn, Bullet.die. cbn [Bullet.base]. apply Entity_die_despawn.
Qed.

(** X2. A tick of a live bullet that overlaps nothing only moves the
    bullet: the objects and the entities are returned as they were, the
    bullet keeps its fields but for the position [super.tick] gave it, it is
    not despawned, and every object and every entity was tested once, in
    order. *)
Theorem X2_miss_only_moves_the_bullet
    (b : Bullet.t V number) (es : list OtherEntity) (os : list GameObject) :
  Bullet.despawn b = false ->
  Bullet.overlaps_someb (Bullet.moved b) os = false ->
  Bullet.overlaps_someb (Bullet.moved b) es = false ->
  Bullet.tick b es os =
    {| Bullet.bullet := Bullet.mk (Bullet.moved b) (Bullet.dmg b) (Bullet.ticks b);
       Bullet.entities := es;
       Bullet.objects := os;
       Bullet.log := (Bullet.Collided Bullet.Obj <$> seq 0 (length os))
                     ++ (Bullet.Collided Bullet.Ent <$> seq 0 (length es)) |}.
Proof.
  intros Halive Hos Hes. unfold Bullet.tick.
  set (b0 := Bullet.mk (Entity.tick (Bullet.base b)) (Bullet.dmg b) (Bullet.ticks b)).
  rewrite (hit_first_miss Bullet.Obj b0 os 0 Hos).
  change (Bullet.despawn b0) with (Bullet.despawn b). rewrite Halive. cbn [negb].
  rewrite (hit_first_miss Bullet.Ent b0 es 0 Hes). reflexivity.
Qed.

(** X3. The first loop has no despawn guard: a bullet that is already
    despawned when [tick] is called still moves and still damages the first
    object it overlaps, but it never tests or damages an entity. *)
Theorem X3_despawned_bullet_skips_entities_only
    (b : Bullet.t V number) (es : list OtherEntity) (os : list GameObject) :
  Bullet.despawn b = true ->
  Bullet.entities (Bullet.tick b es os) = es /\
  List.filter on_entity (Bullet.log (Bullet.tick b es os)) = [] /\
  Bullet.despawn (Bullet.bullet (Bullet.tick b es os)) = true /\
  (forall i o, Bullet.first_overlap (Bullet.moved b) os i o ->
     Bullet.objects (Bullet.tick b es os) = <[i := damage (Bullet.dmg b) o]> os) /\
  (Bullet.overlaps_someb (Bullet.moved b) os = false ->
     Bullet.objects (Bullet.tick b es os) = os).
Proof.
  intros Hdead. unfold Bullet.tick.
  set (b0 := Bullet.mk (Entity.tick (Bullet.base b)) (Bullet.dmg b) (Bullet.ticks b)).
  assert (Hdead0 : Bullet.despawn b0 = true) by exact Hdead.
  destruct (existsb (collided (Bullet.base b0)) os) eqn:Hex.
  - destruct (existsb_first_overlap _ _ Hex) as (j & x & Hfirst).
    rewrite (hit_first_hit Bullet.Obj b0 os j x 0 Hfirst).
    assert (Hdie : Bullet.despawn (Bullet.die b0) = true).
    { unfold Bullet.despawn, Bullet.die. cbn [Bullet.base]. apply Entity_die_despawn. }
    rewrite Hdie. cbn [negb Bullet.entities Bullet.objects Bullet.bullet Bullet.log].
    split; [reflexivity|]. split.
    { rewrite List.filter_app, (filter_collided Bullet.Obj) by reflexivity. reflexivity. }
    split; [exact Hdie|]. split.
    + intros i o Hio.
      assert (i = j /\ o = x) as [-> ->]; [|reflexivity].
      destruct Hfirst as (Hj & Hcj & Hbj), Hio as (Hi & Hci & Hbi).
      change (Bullet.base b0) with (Bullet.moved b) in *.
      destruct (Nat.lt_trichotomy i j) as [Hlt|[->|Hgt]].
      * rewrite (Hbj i o Hlt Hi) in Hci. discriminate.
      * split; congruence.
      * rewrite (Hbi j x Hgt Hj) in Hcj. discriminate.
    + intros Hnone. unfold Bullet.overlaps_someb in Hnone.
      change (Bullet.base b0) with (Bullet.moved b) in Hex. congruence.
  - rewrite (hit_first_miss Bullet.Obj b0 os 0 Hex). rewrite Hdead0.
    cbn [negb Bullet.entities Bullet.objects Bullet.bullet Bullet.log].
    split; [reflexivity|]. split; [apply filter_collided; reflexivity|].
    split; [exact Hdead0|]. split.
    + intros i o (Hi & Hci & _). change (Bullet.base b0) with (Bullet.moved b) in Hex.
      assert (Hin : existsb (collided (Bullet.moved b)) os = true).
      { apply existsb_exists. exists o. split; [|exact Hci].
        apply list_elem_of_In, list_elem_of_lookup. exists i. exact Hi. }
      congruence.
    + reflexivity.
Qed.

(** X4. Whatever the bullet overlaps, one tick calls [damage] at most once,
    always with the bullet's own [dmg], and it neither adds nor removes an
    element of [objects] or [entities]. *)
Theorem X4_at_most_one_damage_per_tick
    (b : Bullet.t V number) (es : list OtherEntity) (os : list GameObject) :
  (length (List.filter is_damage (Bullet.log (Bullet.tick b es os))) <= 1)%nat /\
  (forall k i d, In (Bullet.Damaged k i d) (Bullet.log (Bullet.tick b es os)) ->
     d = Bullet.dmg b) /\
  length (Bullet.objects (Bullet.tick b es os)) = length os /\
  length (Bullet.entities (Bullet.tick b es os)) = length es.
Proof.
  assert (Hloop : forall T `{!Hittable V number T} (k : Bullet.target)
                    (b0 : Bullet.t V number) (xs : list T),
            let r := Bullet.hit_first k b0 0 xs in
            length r.1.2 = length xs /\
            (forall k' i d, In (Bullet.Damaged k' i d) r.2 -> d = Bullet.dmg b0) /\
            (if Bullet.overlaps_someb (Bullet.base b0) xs
             then length (List.filter is_damage r.2) = 1%nat /\ Bullet.despawn r.1.1 = true
             else List.filter is_damage r.2 = [] /\ r.1.1 = b0)).
  { intros T HT k b0 xs. cbn zeta. unfold Bullet.overlaps_someb.
    destruct (existsb (collided (Bullet.base b0)) xs) eqn:Hex.
    - destruct (existsb_first_overlap _ _ Hex) as (j & x & Hfirst).
      rewrite (hit_first_hit k b0 xs j x 0 Hfirst). cbn [fst snd].
      split; [apply length_insert|]. split.
      + intros k' i d Hin. apply in_app_or in Hin as [Hin|Hin].
        * apply in_map_iff in Hin as (n & Hn & _). discriminate.
        * destruct Hin as [Hin|[Hin|[]]]; [injection Hin as _ _ <-; reflexivity | discriminate].
      + split.
        * rewrite List.filter_app, (filter_collided k) by reflexivity. reflexivity.
        * unfold Bullet.despawn, Bullet.die. cbn [Bullet.base]. apply Entity_die_despawn.
    - rewrite (hit_first_miss k b0 xs 0 Hex). cbn [fst snd].
      split; [reflexivity|]. split.
      + intros k' i d Hin. apply in_map_iff in Hin as (n & Hn & _). discriminate.
      + split; [apply filter_collided; reflexivity | reflexivity]. }
  unfold Bullet.tick.
  set (b0 := Bullet.mk (Entity.tick (Bullet.base b)) (Bullet.dmg b) (Bullet.ticks b)).
  pose proof (Hloop GameObject _ Bullet.Obj b0 os) as (Hlen1 & Hd1 & Hcase1). cbn zeta in *.
  destruct (Bullet.hit_first Bullet.Obj b0 0 os) as [[b1 os'] log1]. cbn [fst snd] in *.
  destruct (Bullet.overlaps_someb (Bullet.base b0) os).
  - destruct Hcase1 as [Hone Hdes]. rewrite Hdes. cbn [negb Bullet.log Bullet.objects Bullet.entities].
    split; [rewrite Hone; lia|]. split; [exact Hd1|]. split; [exact Hlen1 | reflexivity].
  - destruct Hcase1 as [Hnil ->].
    destruct (Bullet.despawn b0); cbn [negb].
    + cbn [Bullet.log Bullet.objects Bullet.entities].
      split; [rewrite Hnil; cbn; lia|]. split; [exact Hd1|]. split; [exact Hlen1 | reflexivity].
    + pose proof (Hloop OtherEntity _ Bullet.Ent b0 es) as (Hlen2 & Hd2 & Hcase2). cbn zeta in *.
      destruct (Bullet.hit_first Bullet.Ent b0 0 es) as [[b2 es'] log2]. cbn [fst snd] in *.
      cbn [Bullet.log Bullet.objects Bullet.entities].
      split.
      * rewrite List.filter_app, Hnil, length_app. cbn [length].
        destruct (Bullet.overlaps_someb (Bullet.base b0) es); destruct Hcase2 as [Hc _];
          rewrite Hc; cbn; lia.
      * split; [|split; [exact Hlen1 | exact Hlen2]].
        intros k i d Hin. apply in_app_or in Hin as [Hin|Hin]; [exact (Hd1 k i d Hin) | exact (Hd2 k i d Hin)].
Qed.

End BulletPasses.

(** X1 at a concrete input: no object near the bullet, two entities in its
    way. *)
Lemma X1_first_overlapping_entity_is_hit_witness :
  exists i e,
    Bullet.first_overlap (Bullet.moved (Sample.bullet 5%float))
      [Sample.mkCircle (1, 0)%float 1%float 50%float;
       Sample.mkCircle (1, 1)%float 2%float 50%float] i e /\
    Bullet.entities (Bullet.tick (Sample.bullet 5%float)
      [Sample.mkCircle (1, 0)%float 1%float 50%float;
       Sample.mkCircle (1, 1)%float 2%float 50%float]
      [Sample.mkCircle (9, 9)%float 1%float 100%float]) =
      <[i := damage (Bullet.dmg (Sample.bullet 5%float)) e]>
      [Sample.mkCircle (1, 0)%float 1%float 50%float;
       Sample.mkCircle (1, 1)%float 2%float 50%float] /\
    Bullet.objects (Bullet.tick (Sample.bullet 5%float)
      [Sample.mkCircle (1, 0)%float 1%float 50%float;
       Sample.mkCircle (1, 1)%float 2%float 50%float]
      [Sample.mkCircle (9, 9)%float 1%float 100%float]) =
      [Sample.mkCircle (9, 9)%float 1%float 100%float] /\
    Bullet.despawn (Bullet.bullet (Bullet.tick (Sample.bullet 5%float)
      [Sample.mkCircle (1, 0)%float 1%float 50%float;
       Sample.mkCircle (1, 1)%float 2%float 50%float]
      [Sample.mkCircle (9, 9)%float 1%float 100%float])) = true /\
    Bullet.log (Bullet.tick (Sample.bullet 5%float)
      [Sample.mkCircle (1, 0)%float 1%float 50%float;
       Sample.mkCircle (1, 1)%float 2%float 50%float]
      [Sample.mkCircle (9, 9)%float 1%float 100%float]) =
      (Bullet.Collided Bullet.Obj <$> seq 0 (length [Sample.mkCircle (9, 9)%float 1%float 100%float]))
      ++ (Bullet.Collided Bullet.Ent <$> seq 0 (S i))
      ++ [Bullet.Damaged Bullet.Ent i (Bullet.dmg (Sample.bullet 5%float)); Bullet.Died].
Proof.
  apply (X1_first_overlapping_entity_is_hit (Sample.bullet 5%float)
           [Sample.mkCircle (1, 0)%float 1%float 50%float;
            Sample.mkCircle (1, 1)%float 2%float 50%float]
           [Sample.mkCircle (9, 9)%float 1%float 100%float]).
  - reflexivity.
  - vm_compute. reflexivity.
  - exists (Sample.mkCircle (1, 0)%float 1%float 50%float).
    split; [left | vm_compute; reflexivity].
Defined.

(** X2 at a concrete input: everything is far from the bullet. *)
Lemma X2_miss_only_moves_the_bullet_witness :
  Bullet.tick (Sample.bullet 5%float)
    [Sample.mkCircle (7, 7)%float 1%float 50%float]
    [Sample.mkCircle (9, 9)%float 1%float 100%float] =
    {| Bullet.bullet := Bullet.mk (Bullet.moved (Sample.bullet 5%float))
                          (Bullet.dmg (Sample.bullet 5%float)) (Bullet.ticks (Sample.bullet 5%float));
       Bullet.entities := [Sample.mkCircle (7, 7)%float 1%float 50%float];
       Bullet.objects := [Sample.mkCircle (9, 9)%float 1%float 100%float];
       Bullet.log := (Bullet.Collided Bullet.Obj
                        <$> seq 0 (length [Sample.mkCircle (9, 9)%float 1%float 100%float]))
                     ++ (Bullet.Collided Bullet.Ent
                           <$> seq 0 (length [Sample.mkCircle (7, 7)%float 1%float 50%float])) |}.
Proof.
  apply (X2_miss_only_moves_the_bullet (Sample.bullet 5%float)
           [Sample.mkCircle (7, 7)%float 1%float 50%float]
           [Sample.mkCircle (9, 9)%float 1%float 100%float]).
  - reflexivity.
  - vm_compute. reflexivity.
  - vm_compute. reflexivity.
Defined.

(** X3 at a concrete input: a bullet that is already despawned, with an
    object and an entity in its way. *)
Lemma X3_despawned_bullet_skips_entities_only_witness :
  Bullet.entities (Bullet.tick (Bullet.die (Sample.bullet 5%float))
    [Sample.mkCircle (1, 0)%float 1%float 50%float]
    [Sample.mkCircle (1, 0)%float 1%float 100%float]) =
    [Sample.mkCircle (1, 0)%float 1%float 50%float] /\
  List.filter on_entity (Bullet.log (Bullet.tick (Bullet.die (Sample.bullet 5%float))
    [Sample.mkCircle (1, 0)%float 1%float 50%float]
    [Sample.mkCircle (1, 0)%float 1%float 100%float])) = [] /\
  Bullet.despawn (Bullet.bullet (Bullet.tick (Bullet.die (Sample.bullet 5%float))
    [Sample.mkCircle (1, 0)%float 1%float 50%float]
    [Sample.mkCircle (1, 0)%float 1%float 100%float])) = true /\
  (forall i o, Bullet.first_overlap (Bullet.moved (Bullet.die (Sample.bullet 5%float)))
                 [Sample.mkCircle (1, 0)%float 1%float 100%float] i o ->
     Bullet.objects (Bullet.tick (Bullet.die (Sample.bullet 5%float))
       [Sample.mkCircle (1, 0)%float 1%float 50%float]
       [Sample.mkCircle (1, 0)%float 1%float 100%float]) =
     <[i := damage (Bullet.dmg (Bullet.die (Sample.bullet 5%float))) o]>
       [Sample.mkCircle (1, 0)%float 1%float 100%float]) /\
  (Bullet.overlaps_someb (Bullet.moved (Bullet.die (Sample.bullet 5%float)))
     [Sample.mkCircle (1, 0)%float 1%float 100%float] = false ->
     Bullet.objects (Bullet.tick (Bullet.die (Sample.bullet 5%float))
       [Sample.mkCircle (1, 0)%float 1%float 50%float]
       [Sample.mkCircle (1, 0)%float 1%float 100%float]) =
     [Sample.mkCircle (1, 0)%float 1%float 100%float]).
Proof.
  apply (X3_despawned_bullet_skips_entities_only (Bullet.die (Sample.bullet 5%float))
           [Sample.mkCircle (1, 0)%float 1%float 50%float]
           [Sample.mkCircle (1, 0)%float 1%float 100%float]).
  reflexivity.
Defined.

(** ** switchweapon: set mode, and which slot relative mode picks *)

Section SwitchWeaponChoice.
Context {Weapon : Type}.
Variable getWeapon : Inventory.t Weapon -> Z -> option Weapon.
Hypothesis getWeapon_slot : Inventory.reads_slots getWeapon.

(** X5. Set mode (lines 153-155) with a slot index as [delta] runs no
    loop: it returns whatever the fuel, never changes the weapons, moves
    the holding index to [delta] when that slot holds a weapon and leaves
    the inventory as it is when the slot is empty; so a holding index that
    was on an occupied slot still is. *)
Theorem X5_set_mode_jumps_only_to_occupied_slots
    (fuel : nat) (inv : Inventory.t Weapon) (delta : Z) :
  0 <= delta < Inventory.length inv ->
  exists inv',
    Inventory.switchweapon getWeapon fuel inv delta true = Ok inv' /\
    Inventory.weapons inv' = Inventory.weapons inv /\
    (is_Some (Inventory.slot inv delta) -> Inventory.holding inv' = delta) /\
    (Inventory.slot inv delta = None -> inv' = inv) /\
    (Inventory.occupied inv (Inventory.holding inv) ->
     Inventory.occupied inv' (Inventory.holding inv')).
Proof.
  intros Hd. unfold Inventory.switchweapon.
  rewrite (getWeapon_slot inv delta Hd).
  destruct (Inventory.slot inv delta) as [w|] eqn:Hslot.
  - eexists. split; [reflexivity|]. cbn [Inventory.weapons Inventory.holding].
    split; [reflexivity|]. split; [reflexivity|]. split; [discriminate|].
    intros _. split; [exact Hd|].
    unfold Inventory.slot in *. cbn [Inventory.weapons]. rewrite Hslot. eexists; reflexivity.
  - exists inv. split; [reflexivity|]. split; [reflexivity|].
    split; [intros [w Hw]; discriminate|]. split; [reflexivity|]. intros Hocc; exact Hocc.
Qed.

(** Scanning upwards stops at the occupied slot that is the fewest steps
    away. *)
Lemma skip_empty_up_nearest (inv : Inventory.t Weapon) (k : Z) (n : nat) :
  Inventory.occupied inv k ->
  Inventory.length inv <= Number.max_index + 1 ->
  forall h, 0 <= h < Inventory.length inv ->
  steps_up (Inventory.length inv) h k = Z.of_nat n ->
  exists h', Inventory.occupied inv h' /\
    steps_up (Inventory.length inv) h h' <= Z.of_nat n /\
    forall fuel, (n < fuel)%nat -> Inventory.skip_empty getWeapon fuel inv 1 h = Some h'.
Proof.
  intros Hk Harr. induction n as [|n IH]; intros h Hh Hsteps.
  - assert (h = k) as ->.
    { unfold steps_up in Hsteps. destruct Hk as [Hk _]. destruct (h <=? k) eqn:E; lia. }
    destruct (occupied_getWeapon getWeapon getWeapon_slot inv k Hk) as [w Hw].
    exists k. split; [exact Hk|]. split; [lia|].
    intros [|fuel] Hf; [lia|]. simpl. rewrite Hw. reflexivity.
  - destruct (getWeapon inv h) as [w|] eqn:Hw.
    + exists h. split; [exact (getWeapon_occupied getWeapon getWeapon_slot inv h w Hh Hw)|].
      split; [unfold steps_up; rewrite Z.leb_refl; lia|].
      intros [|fuel] Hf; [lia|]. simpl. rewrite Hw. reflexivity.
    + set (h1 := Inventory.wrap inv (Number.add h 1)).
      assert (Hh1 : h1 = if h + 1 =? Inventory.length inv then 0 else h + 1)
        by (apply wrap_up; assumption).
      assert (Hr : 0 <= h1 < Inventory.length inv /\
                   steps_up (Inventory.length inv) h1 k = Z.of_nat n).
      { rewrite Hh1. unfold steps_up in *. destruct Hk as [Hk _].
        destruct (h + 1 =? Inventory.length inv) eqn:E1;
          [apply Z.eqb_eq in E1 | apply Z.eqb_neq in E1].
        - destruct (h <=? k) eqn:E2; destruct (0 <=? k) eqn:E3; lia.
        - destruct (h <=? k) eqn:E2; destruct (h + 1 <=? k) eqn:E3; lia. }
      destruct Hr as [Hr Hs].
      destruct (IH _ Hr Hs) as (h' & Hocc & Hnear & Hrun).
      exists h'. split; [exact Hocc|]. split.
      * destruct Hocc as [Hh' _]. rewrite Hh1 in Hnear. unfold steps_up in *.
        destruct (h + 1 =? Inventory.length inv) eqn:E1;
          [apply Z.eqb_eq in E1 | apply Z.eqb_neq in E1].
        -- destruct (h <=? h') eqn:E2; destruct (0 <=? h') eqn:E3; lia.
        -- destruct (h <=? h') eqn:E2; destruct (h + 1 <=? h') eqn:E3; lia.
      * intros [|fuel] Hf; [lia|]. simpl. rewrite Hw. apply Hrun. lia.
Qed.

(** Scanning downwards stops at the occupied slot that is the fewest steps
    away. *)
Lemma skip_empty_down_nearest (inv : Inventory.t Weapon) (k : Z) (n : nat) :
  Inventory.occupied inv k ->
  Inventory.length inv <= Number.max_index + 1 ->
  forall h, 0 <= h < Inventory.length inv ->
  steps_down (Inventory.length inv) h k = Z.of_nat n ->
  exists h', Inventory.occupied inv h' /\
    steps_down (Inventory.length inv) h h' <= Z.of_nat n /\
    forall fuel, (n < fuel)%nat -> Inventory.skip_empty getWeapon fuel inv (-1) h = Some h'.
Proof.
  intros Hk Harr. induction n as [|n IH]; intros h Hh Hsteps.
  - assert (h = k) as ->.
    { unfold steps_down in Hsteps. destruct Hk as [Hk _]. destruct (k <=? h) eqn:E; lia. }
    destruct (occupied_getWeapon getWeapon getWeapon_slot inv k Hk) as [w Hw].
    exists k. split; [exact Hk|]. split; [lia|].
    intros [|fuel] Hf; [lia|]. simpl. rewrite Hw. reflexivity.
  - destruct (getWeapon inv h) as [w|] eqn:Hw.
    + exists h. split; [exact (getWeapon_occupied getWeapon getWeapon_slot inv h w Hh Hw)|].
      split; [unfold steps_down; rewrite Z.leb_refl; lia|].
      intros [|fuel] Hf; [lia|]. simpl. rewrite Hw. reflexivity.
    + set (h1 := Inventory.wrap inv (Number.add h (-1))).
      assert (Hh1 : h1 = if h =? 0 then Inventory.length inv - 1 else h - 1)
        by (apply wrap_down; assumption).
      assert (Hr : 0 <= h1 < Inventory.length inv /\
                   steps_down (Inventory.length inv) h1 k = Z.of_nat n).
      { rewrite Hh1. unfold steps_down in *. destruct Hk as [Hk _].
        destruct (h =? 0) eqn:E1; [apply Z.eqb_eq in E1 | apply Z.eqb_neq in E1].
        - destruct (k <=? h) eqn:E2; destruct (k <=? Inventory.length inv - 1) eqn:E3; lia.
        - destruct (k <=? h) eqn:E2; destruct (k <=? h - 1) eqn:E3; lia. }
      destruct Hr as [Hr Hs].
      destruct (IH _ Hr Hs) as (h' & Hocc & Hnear & Hrun).
      exists h'. split; [exact Hocc|]. split.
      * destruct Hocc as [Hh' _]. rewrite Hh1 in Hnear. unfold steps_down in *.
        destruct (h =? 0) eqn:E1; [apply Z.eqb_eq in E1 | apply Z.eqb_neq in E1].
        -- destruct (h' <=? h) eqn:E2; destruct (h' <=? Inventory.length inv - 1) eqn:E3; lia.
        -- destruct (h' <=? h) eqn:E2; destruct (h' <=? h - 1) eqn:E3; lia.
      * intros [|fuel] Hf; [lia|]. simpl. rewrite Hw. apply Hrun. lia.
Qed.

(** The index the loop starts from is a slot of the array when the sum is
    not below [-weapons.length]; while the sum is exact, at most [2^53],
    it is the slot [(holding + delta) mod weapons.length]. *)
Lemma start_inside (inv : Inventory.t Weapon) (delta : Z) :
  0 < Inventory.length inv <= Number.max_index + 1 ->
  - Inventory.length inv <= Inventory.holding inv + delta ->
  0 <= Inventory.start inv delta < Inventory.length inv /\
  (Inventory.holding inv + delta <= 9007199254740992 ->
   Inventory.start inv delta = (Inventory.holding inv + delta) mod Inventory.length inv).
Proof.
  unfold Number.max_index. intros Harr Hd. unfold Inventory.start.
  destruct (Z_lt_le_dec (Inventory.holding inv + delta) 0) as [Hneg|Hpos].
  - rewrite add_exact by lia. unfold Inventory.wrap.
    replace (Inventory.holding inv + delta <? 0) with true by lia.
    rewrite add_exact by lia. split; [lia|]. intros _.
    apply (Z.mod_unique_pos _ _ (-1)); lia.
  - assert (Hround : 0 <= Number.add (Inventory.holding inv) delta)
      by (unfold Number.add; apply round53_nonneg; exact Hpos).
    unfold Inventory.wrap.
    replace (Number.add (Inventory.holding inv) delta <? 0) with false by lia.
    split; [apply Z.rem_bound_pos; lia|].
    intros Hsmall. rewrite add_exact by lia. apply Z.rem_mod_nonneg; lia.
Qed.

(** X6. Relative mode (lines 157-166), when the sum [holding + delta] is
    not below [-weapons.length] (the first wrap-around then brings it back
    into the array) and does not overflow: the loop ends within
    [weapons.length] turns, and the new holding index is the occupied slot
    nearest to the slot the loop starts from, counting steps in the
    direction of [delta] (upwards for [delta >= 0], downwards otherwise)
    and going round the array; in particular that slot itself when it is
    occupied, with no skipping.  The loop starts from the slot
    [(holding + delta) mod weapons.length] while the sum is at most [2^53];
    beyond, from the slot the rounded sum gives. *)
Theorem X6_relative_switch_takes_nearest_slot
    (inv : Inventory.t Weapon) (delta k : Z) :
  Inventory.occupied inv k ->
  Inventory.length inv <= Number.max_index + 1 ->
  - Inventory.length inv <= Inventory.holding inv + delta ->
  Number.finite (Number.add (Inventory.holding inv) delta) = true ->
  exists h,
    (forall fuel, (Z.to_nat (Inventory.length inv) < fuel)%nat ->
       Inventory.switch_relative getWeapon fuel inv delta = Some h) /\
    Inventory.occupied inv h /\
    (forall k', Inventory.occupied inv k' ->
       if delta <? 0
       then steps_down (Inventory.length inv) (Inventory.start inv delta) h
            <= steps_down (Inventory.length inv) (Inventory.start inv delta) k'
       else steps_up (Inventory.length inv) (Inventory.start inv delta) h
            <= steps_up (Inventory.length inv) (Inventory.start inv delta) k') /\
    (Inventory.occupied inv (Inventory.start inv delta) -> h = Inventory.start inv delta) /\
    (Inventory.holding inv + delta <= 9007199254740992 ->
     Inventory.start inv delta = (Inventory.holding inv + delta) mod Inventory.length inv).
Proof.
  intros Hk Harr Hd Hfin.
  assert (Hpos : 0 < Inventory.length inv) by (destruct Hk as [Hk _]; lia).
  destruct (start_inside inv delta (conj Hpos Harr) Hd) as [H0 Hmod].
  set (h0 := Inventory.start inv delta) in *.
  assert (Hscan : forall k', Inventory.occupied inv k' ->
            exists h, Inventory.occupied inv h /\
              (if delta <? 0 then steps_down (Inventory.length inv) h0 h <= steps_down (Inventory.length inv) h0 k'
               else steps_up (Inventory.length inv) h0 h <= steps_up (Inventory.length inv) h0 k') /\
              forall fuel, (Z.to_nat (Inventory.length inv) < fuel)%nat ->
                Inventory.switch_relative getWeapon fuel inv delta = Some h).
  { intros k' Hk'. assert (Hk'r : 0 <= k' < (Inventory.length inv)) by (destruct Hk'; assumption).
    unfold Inventory.switch_relative. rewrite Hfin. fold h0. destruct (delta <? 0) eqn:Ed.
    - pose proof (steps_down_bound _ h0 k' H0 Hk'r) as Hb.
      destruct (skip_empty_down_nearest inv k' (Z.to_nat (steps_down (Inventory.length inv) h0 k'))
                  Hk' Harr h0 H0)
        as (h & Hocc & Hnear & Hrun); [lia|].
      exists h. split; [exact Hocc|]. split; [lia|]. intros fuel Hf. apply Hrun. lia.
    - pose proof (steps_up_bound _ h0 k' H0 Hk'r) as Hb.
      destruct (skip_empty_up_nearest inv k' (Z.to_nat (steps_up (Inventory.length inv) h0 k'))
                  Hk' Harr h0 H0)
        as (h & Hocc & Hnear & Hrun); [lia|].
      exists h. split; [exact Hocc|]. split; [lia|]. intros fuel Hf. apply Hrun. lia. }
  destruct (Hscan k Hk) as (h & Hocc & _ & Hrun).
  assert (Hnearest : forall k', Inventory.occupied inv k' ->
            if delta <? 0 then steps_down (Inventory.length inv) h0 h <= steps_down (Inventory.length inv) h0 k'
            else steps_up (Inventory.length inv) h0 h <= steps_up (Inventory.length inv) h0 k').
  { intros k' Hk'. destruct (Hscan k' Hk') as (h' & _ & Hnear & Hrun').
    assert (h' = h) as ->; [|exact Hnear].
    specialize (Hrun (S (Z.to_nat (Inventory.length inv))) (Nat.lt_succ_diag_r _)).
    specialize (Hrun' (S (Z.to_nat (Inventory.length inv))) (Nat.lt_succ_diag_r _)). congruence. }
  exists h. split; [exact Hrun|]. split; [exact Hocc|]. split; [exact Hnearest|].
  split; [|exact Hmod].
  intros Hocc0. specialize (Hnearest h0 Hocc0).
  assert (Hhr : 0 <= h < (Inventory.length inv)) by (destruct Hocc; assumption).
  unfold steps_down, steps_up in Hnearest. rewrite !Z.leb_refl in Hnearest.
  destruct (delta <? 0).
  - destruct (h <=? h0) eqn:E; lia.
  - destruct (h0 <=? h) eqn:E; lia.
Qed.

End SwitchWeaponChoice.

(** X5 at a concrete input: four slots, jumping to the last one, which is
    occupied. *)
Lemma X5_set_mode_jumps_only_to_occupied_slots_witness :
  exists inv',
    Inventory.switchweapon Inventory.slot 0
      (Inventory.mk 0 [Some "fists"%string; None; None; Some "ak47"%string]) 3 true = Ok inv' /\
    Inventory.weapons inv' =
      Inventory.weapons (Inventory.mk 0 [Some "fists"%string; None; None; Some "ak47"%string]) /\
    (is_Some (Inventory.slot
                (Inventory.mk 0 [Some "fists"%string; None; None; Some "ak47"%string]) 3) ->
     Inventory.holding inv' = 3) /\
    (Inventory.slot (Inventory.mk 0 [Some "fists"%string; None; None; Some "ak47"%string]) 3 = None ->
     inv' = Inventory.mk 0 [Some "fists"%string; None; None; Some "ak47"%string]) /\
    (Inventory.occupied (Inventory.mk 0 [Some "fists"%string; None; None; Some "ak47"%string])
       (Inventory.holding (Inventory.mk 0 [Some "fists"%string; None; None; Some "ak47"%string])) ->
     Inventory.occupied inv' (Inventory.holding inv')).
Proof.
  apply (X5_set_mode_jumps_only_to_occupied_slots Inventory.slot (fun inv i _ => eq_refl) 0
           (Inventory.mk 0 [Some "fists"%string; None; None; Some "ak47"%string]) 3).
  unfold Inventory.length; cbn; lia.
Defined.

(** X6 at a concrete input: slots 0 and 3 occupied, slot 0 held,
    [delta = 1]: slots 1 and 2 are skipped. *)
Lemma X6_relative_switch_takes_nearest_slot_witness :
  exists h,
    (forall fuel, (Z.to_nat (Inventory.length (Inventory.mk 0 [Some "fists"%string; None; None; Some "ak47"%string])) < fuel)%nat ->
       Inventory.switch_relative Inventory.slot fuel (Inventory.mk 0 [Some "fists"%string; None; None; Some "ak47"%string]) 1 = Some h) /\
    Inventory.occupied (Inventory.mk 0 [Some "fists"%string; None; None; Some "ak47"%string]) h /\
    (forall k', Inventory.occupied (Inventory.mk 0 [Some "fists"%string; None; None; Some "ak47"%string]) k' ->
       if 1 <? 0
       then steps_down (Inventory.length (Inventory.mk 0 [Some "fists"%string; None; None; Some "ak47"%string])) (Inventory.start (Inventory.mk 0 [Some "fists"%string; None; None; Some "ak47"%string]) 1) h
            <= steps_down (Inventory.length (Inventory.mk 0 [Some "fists"%string; None; None; Some "ak47"%string])) (Inventory.start (Inventory.mk 0 [Some "fists"%string; None; None; Some "ak47"%string]) 1) k'
       else steps_up (Inventory.length (Inventory.mk 0 [Some "fists"%string; None; None; Some "ak47"%string])) (Inventory.start (Inventory.mk 0 [Some "fists"%string; None; None; Some "ak47"%string]) 1) h
            <= steps_up (Inventory.length (Inventory.mk 0 [Some "fists"%string; None; None; Some "ak47"%string])) (Inventory.start (Inventory.mk 0 [Some "fists"%string; None; None; Some "ak47"%string]) 1) k') /\
    (Inventory.occupied (Inventory.mk 0 [Some "fists"%string; None; None; Some "ak47"%string]) (Inventory.start (Inventory.mk 0 [Some "fists"%string; None; None; Some "ak47"%string]) 1) -> h = Inventory.start (Inventory.mk 0 [Some "fists"%string; None; None; Some "ak47"%string]) 1) /\
    (Inventory.holding (Inventory.mk 0 [Some "fists"%string; None; None; Some "ak47"%string]) + 1 <= 9007199254740992 ->
     Inventory.start (Inventory.mk 0 [Some "fists"%string; None; None; Some "ak47"%string]) 1 = (Inventory.holding (Inventory.mk 0 [Some "fists"%string; None; None; Some "ak47"%string]) + 1) mod Inventory.length (Inventory.mk 0 [Some "fists"%string; None; None; Some "ak47"%string])).
Proof.
  apply (X6_relative_switch_takes_nearest_slot Inventory.slot
           (fun inv i _ => eq_refl) (Inventory.mk 0 [Some "fists"%string; None; None; Some "ak47"%string]) 1 3).
  - split; [unfold Inventory.length; cbn; lia | eexists; reflexivity].
  - unfold Inventory.length, Number.max_index; cbn; lia.
  - unfold Inventory.length; cbn; lia.
  - vm_compute; reflexivity.
Defined.

(** ** movementpress, movementrelease, mousepress, mouserelease *)

Section InputFacts.
Context {V number Weapon Item : Type}.
Context `{!Vec2.Ops V} `{!Player.Ops V number Weapon Item}.
Variable DIRECTION_VEC : list V.

(** The loop throws at the first pressed flag that has no vector. *)
Lemma add_pressed_throws (movements : list bool) (ii : nat) (angleVec : V) :
  (exists i, movements !! i = Some true /\ (length DIRECTION_VEC <= ii + i)%nat) ->
  Movement.add_pressed DIRECTION_VEC ii movements angleVec = Throws.
Proof.
  revert ii angleVec. induction movements as [|m ms IH]; intros ii angleVec (i & Hi & Hlen).
  - destruct i; discriminate.
  - cbn [Movement.add_pressed].
    assert (Hrest : i <> 0%nat -> exists j, ms !! j = Some true /\ (length DIRECTION_VEC <= S ii + j)%nat).
    { intros Hne. destruct i as [|j]; [congruence|]. exists j. split; [exact Hi | lia]. }
    destruct m.
    + destruct (DIRECTION_VEC !! ii) as [d|] eqn:Hd; [|reflexivity].
      apply IH, Hrest. intros ->. apply lookup_lt_Some in Hd. lia.
    + apply IH, Hrest. intros ->. discriminate.
Qed.

(** Writing a flag at an array index makes that index read the value
    written. *)
Lemma array_set_lookup (movements : list bool) (direction : Z) (v : bool) :
  0 <= direction <= Number.max_index ->
  Movement.array_set movements direction v !! Z.to_nat direction = Some v.
Proof.
  intros Hd. unfold Movement.array_set.
  destruct (direction <? 0) eqn:Eneg; [lia|].
  destruct (Z.to_nat direction <? length movements)%nat eqn:Ein.
  - apply Nat.ltb_lt in Ein. apply list_lookup_insert_eq. exact Ein.
  - apply Nat.ltb_ge in Ein.
    replace (direction <=? Number.max_index) with true by lia.
    rewrite lookup_app_r by exact Ein.
    rewrite lookup_app_r by (rewrite length_replicate; lia).
    rewrite length_replicate.
    replace (Z.to_nat direction - length movements - (Z.to_nat direction - length movements))%nat
      with 0%nat by lia.
    reflexivity.
Qed.

(** On an array, a write at a number that is no array index changes no
    element. *)
Lemma array_set_no_index (movements : list bool) (direction : Z) (v : bool) :
  Z.of_nat (length movements) <= Number.max_index + 1 ->
  direction < 0 \/ Number.max_index < direction ->
  Movement.array_set movements direction v = movements.
Proof.
  intros Hlen Hd. unfold Movement.array_set.
  destruct (direction <? 0) eqn:Eneg; [reflexivity|].
  replace (Z.to_nat direction <? length movements)%nat with false
    by (symmetry; apply Nat.ltb_ge; lia).
  replace (direction <=? Number.max_index) with false by lia.
  reflexivity.
Qed.

(** Flags that are false at the end of the array add nothing to the sum. *)
Lemma pressed_vectors_app_false (movements falses : list bool) :
  Forall (fun m => m = false) falses ->
  Movement.pressed_vectors DIRECTION_VEC (movements ++ falses)
  = Movement.pressed_vectors DIRECTION_VEC movements.
Proof.
  intros Hf. unfold Movement.pressed_vectors. generalize DIRECTION_VEC as dv.
  induction movements as [|m ms IH]; intros dv.
  - cbn [app]. revert dv. induction Hf as [|m fs -> _ IHf]; intros dv.
    + reflexivity.
    + destruct dv as [|d dv]; [reflexivity|]. cbn. rewrite IHf. destruct dv; reflexivity.
  - destruct dv as [|d dv]; [reflexivity|]. cbn. destruct m; cbn; rewrite IH; reflexivity.
Qed.

(** X7. While every pressed flag has a vector in the table (and the flags
    are a JavaScript array, of at most [2^32 - 1] elements), a movementpress
    makes the handler throw exactly when its direction is an array index at
    or past the size of [DIRECTION_VEC]; a direction above [2^32 - 2] is
    no array index and the handler returns.  The recomputation never needs
    fuel. *)
Theorem X7_movementpress_throws_exactly_past_the_table
    (fuel : nat) (now : Z) (direction : Z) (ss : Server.Session) (p : Player.t V Weapon) :
  well_flagged DIRECTION_VEC (Server.movements ss) ->
  Z.of_nat (length (Server.movements ss)) <= Number.max_index + 1 ->
  (Server.on_message DIRECTION_VEC fuel now (Server.MovementPress direction) ss p = Throws
   <-> Z.of_nat (length DIRECTION_VEC) <= direction <= Number.max_index) /\
  Server.on_message DIRECTION_VEC fuel now (Server.MovementPress direction) ss p <> OutOfFuel.
Proof.
  intros Hflags Harray.
  pose proof (on_message_movement DIRECTION_VEC fuel now true direction ss p) as Hrun.
  cbn [movement_packet] in Hrun. rewrite Hrun.
  destruct (Z_lt_le_dec direction (Z.of_nat (length DIRECTION_VEC))) as [Hin|Hout].
  - assert (Hset : well_flagged DIRECTION_VEC
                     (Movement.array_set (Server.movements ss) direction true)).
    { apply array_set_well_flagged; [exact Hflags | intros _; exact Hin]. }
    rewrite (velocity_of_sum DIRECTION_VEC _ Hset).
    split; [split; [discriminate | lia] | discriminate].
  - destruct (Z_lt_le_dec Number.max_index direction) as [Hbig|Hsmall].
    + rewrite (array_set_no_index _ direction true Harray) by (right; exact Hbig).
      rewrite (velocity_of_sum DIRECTION_VEC _ Hflags).
      split; [split; [discriminate | lia] | discriminate].
    + assert (Hthrow : Movement.velocity_of DIRECTION_VEC
                         (Movement.array_set (Server.movements ss) direction true) = Throws).
      { unfold Movement.velocity_of. rewrite add_pressed_throws; [reflexivity|].
        exists (Z.to_nat direction). split; [apply array_set_lookup; lia | lia]. }
      rewrite Hthrow. split; [split; [intros _; lia | reflexivity] | discriminate].
Qed.

(** X8. Two movement packets for different flags of the array give the
    same session and the same player whichever is handled first: the
    velocity depends on the flags pressed, not on the order they were
    pressed in. *)
Theorem X8_movement_packets_commute
    (fuel : nat) (t1 t2 t3 t4 : Z) (v1 v2 : bool) (d1 d2 : Z)
    (ss : Server.Session) (p : Player.t V Weapon) :
  (length (Server.movements ss) <= length DIRECTION_VEC)%nat ->
  0 <= d1 < Z.of_nat (length (Server.movements ss)) ->
  0 <= d2 < Z.of_nat (length (Server.movements ss)) ->
  d1 <> d2 ->
  exists ss' p',
    on_messages DIRECTION_VEC fuel
      [(t1, movement_packet v1 d1); (t2, movement_packet v2 d2)] ss p = Ok (ss', p') /\
    on_messages DIRECTION_VEC fuel
      [(t3, movement_packet v2 d2); (t4, movement_packet v1 d1)] ss p = Ok (ss', p') /\
    Server.movements ss' = <[Z.to_nat d2 := v2]> (<[Z.to_nat d1 := v1]> (Server.movements ss)) /\
    Player.velocity p' =
      Vec2.unit (Movement.vec_sum
        (Movement.pressed_vectors DIRECTION_VEC (Server.movements ss'))).
Proof.
  intros Hlen Hd1 Hd2 Hne.
  assert (Hwf : forall ms : list bool, (length ms <= length DIRECTION_VEC)%nat ->
                  well_flagged DIRECTION_VEC ms).
  { intros ms Hms i Hi. apply lookup_lt_Some in Hi. lia. }
  assert (Hone : forall now v d (ss0 : Server.Session) (p0 : Player.t V Weapon),
            (length (Server.movements ss0) <= length DIRECTION_VEC)%nat ->
            0 <= d < Z.of_nat (length (Server.movements ss0)) ->
            Server.on_message DIRECTION_VEC fuel now (movement_packet v d) ss0 p0 =
              Ok (Server.mkSession (Server.player ss0) (Server.timeout ss0)
                    (<[Z.to_nat d := v]> (Server.movements ss0)) (Server.buttons ss0),
                  Player.setVelocity
                    (Vec2.unit (Movement.vec_sum (Movement.pressed_vectors DIRECTION_VEC
                       (<[Z.to_nat d := v]> (Server.movements ss0))))) p0)).
  { intros now v d ss0 p0 Hl Hd.
    rewrite on_message_movement, array_set_in_range by exact Hd.
    rewrite velocity_of_sum by (apply Hwf; rewrite length_insert; exact Hl). reflexivity. }
  eexists _, _. cbn [on_messages].
  rewrite (Hone t1 v1 d1 ss p Hlen Hd1).
  rewrite Hone by (cbn [Server.movements]; rewrite length_insert; assumption).
  rewrite (Hone t3 v2 d2 ss p Hlen Hd2).
  rewrite Hone by (cbn [Server.movements]; rewrite length_insert; assumption).
  cbn [Server.movements Server.player Server.timeout Server.buttons].
  rewrite (list_insert_insert_ne _ (Z.to_nat d1) (Z.to_nat d2)) by lia.
  repeat split; reflexivity.
Qed.

(** X9. On the flags of a connection (a JavaScript array, of at most
    [2^32 - 1] elements), a movement packet whose direction is no array
    index (negative, or above [2^32 - 2]) and a movementrelease with an
    index past the end of the flags do not change which flags are pressed:
    the velocity is recomputed from the flags as they were.  The number
    that is no array index leaves the array alone; the index past the end
    grows the array up to that index. *)
Theorem X9_stray_direction_keeps_pressed_flags
    (fuel : nat) (now : Z) (pressed : bool) (direction : Z)
    (ss : Server.Session) (p : Player.t V Weapon) :
  well_flagged DIRECTION_VEC (Server.movements ss) ->
  Z.of_nat (length (Server.movements ss)) <= Number.max_index + 1 ->
  direction < 0 \/ Number.max_index < direction \/
    (pressed = false /\ Z.of_nat (length (Server.movements ss)) <= direction) ->
  exists ss' p',
    Server.on_message DIRECTION_VEC fuel now (movement_packet pressed direction) ss p
      = Ok (ss', p') /\
    Player.velocity p' =
      Vec2.unit (Movement.vec_sum
        (Movement.pressed_vectors DIRECTION_VEC (Server.movements ss))) /\
    (direction < 0 \/ Number.max_index < direction ->
     Server.movements ss' = Server.movements ss) /\
    (0 <= direction <= Number.max_index ->
     length (Server.movements ss') = S (Z.to_nat direction)).
Proof.
  intros Hflags Harray Hstray. rewrite on_message_movement.
  destruct (Z_lt_le_dec direction 0) as [Hneg|Hpos];
    [|destruct (Z_lt_le_dec Number.max_index direction) as [Hbig|Hsmall]].
  - rewrite (array_set_no_index _ direction pressed Harray) by (left; exact Hneg).
    rewrite (velocity_of_sum DIRECTION_VEC _ Hflags).
    eexists _, _. split; [reflexivity|].
    cbn [Player.velocity Player.setVelocity Server.movements].
    split; [reflexivity|]. split; [reflexivity | lia].
  - rewrite (array_set_no_index _ direction pressed Harray) by (right; exact Hbig).
    rewrite (velocity_of_sum DIRECTION_VEC _ Hflags).
    eexists _, _. split; [reflexivity|].
    cbn [Player.velocity Player.setVelocity Server.movements].
    split; [reflexivity|]. split; [reflexivity | lia].
  - destruct Hstray as [Hneg|[Hbig|[-> Hpast]]]; [lia | lia |].
    assert (Hset : well_flagged DIRECTION_VEC
                     (Movement.array_set (Server.movements ss) direction false)).
    { apply array_set_well_flagged; [exact Hflags | discriminate]. }
    rewrite (velocity_of_sum DIRECTION_VEC _ Hset).
    eexists _, _. split; [reflexivity|].
    cbn [Player.velocity Player.setVelocity Server.movements].
    unfold Movement.array_set.
    replace (direction <? 0) with false by lia.
    replace (Z.to_nat direction <? length (Server.movements ss))%nat with false
      by (symmetry; apply Nat.ltb_ge; lia).
    replace (direction <=? Number.max_index) with true by lia.
    split; [|split; [lia|]].
    + rewrite pressed_vectors_app_false; [reflexivity|].
      apply Forall_app. split; [|repeat constructor].
      apply Forall_forall. intros m Hm. apply elem_of_replicate in Hm as [-> _]. reflexivity.
    + intros _. rewrite !length_app, length_replicate. cbn [length]. lia.
Qed.


End InputFacts.

(** X7 at a concrete input: direction 6 on the flags of a new connection. *)
Lemma X7_movementpress_throws_exactly_past_the_table_witness :
  (Server.on_message Sample.DIRECTION_VEC 1 500 (Server.MovementPress (number := float) 6)
     (Sample.session [false; false; false; false]) Sample.alice = Throws
   <-> Z.of_nat (length Sample.DIRECTION_VEC) <= 6 <= Number.max_index) /\
  Server.on_message Sample.DIRECTION_VEC 1 500 (Server.MovementPress (number := float) 6)
    (Sample.session [false; false; false; false]) Sample.alice <> OutOfFuel.
Proof.
  apply (X7_movementpress_throws_exactly_past_the_table Sample.DIRECTION_VEC 1 500 6
           (Sample.session [false; false; false; false]) Sample.alice).
  - intros i Hi. apply lookup_lt_Some in Hi. exact Hi.
  - unfold Number.max_index. cbn. lia.
Defined.

(** A movementpress with the number 4294967295, one past the last array
    index: the four flags stay as they are and the handler returns. *)
Example movementpress_past_the_last_index :
  Server.on_message Sample.DIRECTION_VEC 1 500
    (Server.MovementPress (number := float) 4294967295)
    (Sample.session [false; true; false; false]) Sample.alice
  = Ok (Sample.session [false; true; false; false],
        Player.setVelocity (0, 1)%float Sample.alice).
Proof.
  pose proof (on_message_movement Sample.DIRECTION_VEC 1 500 true 4294967295
                (Sample.session [false; true; false; false]) Sample.alice) as Hrun.
  cbn [movement_packet] in Hrun. rewrite Hrun.
  rewrite array_set_no_index by (unfold Number.max_index; cbn; lia).
  vm_compute. reflexivity.
Qed.

(** X8 at a concrete input: press 0 and press 1, in both orders. *)
Lemma X8_movement_packets_commute_witness :
  exists ss' p',
    on_messages Sample.DIRECTION_VEC 1
      [(100, movement_packet (number := float) true 0); (200, movement_packet true 1)]
      (Sample.session [false; false; false; false]) Sample.alice = Ok (ss', p') /\
    on_messages Sample.DIRECTION_VEC 1
      [(300, movement_packet (number := float) true 1); (400, movement_packet true 0)]
      (Sample.session [false; false; false; false]) Sample.alice = Ok (ss', p') /\
    Server.movements ss' =
      <[Z.to_nat 1 := true]>
        (<[Z.to_nat 0 := true]> (Server.movements (Sample.session [false; false; false; false]))) /\
    Player.velocity p' =
      Vec2.unit (Movement.vec_sum
        (Movement.pressed_vectors Sample.DIRECTION_VEC (Server.movements ss'))).
Proof.
  apply (X8_movement_packets_commute Sample.DIRECTION_VEC 1 100 200 300 400 true true 0 1
           (Sample.session [false; false; false; false]) Sample.alice).
  - cbn. lia.
  - cbn. lia.
  - cbn. lia.
  - discriminate.
Defined.

(** X9 at a concrete input: a movementrelease for direction 9 while
    direction 1 is held. *)
Lemma X9_stray_direction_keeps_pressed_flags_witness :
  exists ss' p',
    Server.on_message Sample.DIRECTION_VEC 1 500 (movement_packet (number := float) false 9)
      (Sample.session [false; true; false; false]) Sample.alice = Ok (ss', p') /\
    Player.velocity p' =
      Vec2.unit (Movement.vec_sum
        (Movement.pressed_vectors Sample.DIRECTION_VEC
           (Server.movements (Sample.session [false; true; false; false])))) /\
    (9 < 0 \/ Number.max_index < 9 ->
     Server.movements ss' = Server.movements (Sample.session [false; true; false; false])) /\
    (0 <= 9 <= Number.max_index -> length (Server.movements ss') = S (Z.to_nat 9)).
Proof.
  apply (X9_stray_direction_keeps_pressed_flags Sample.DIRECTION_VEC 1 500 false 9
           (Sample.session [false; true; false; false]) Sample.alice).
  - intros i Hi. apply lookup_lt_Some in Hi. exact Hi.
  - unfold Number.max_index. cbn. lia.
  - right. right. split; [reflexivity | cbn; lia].
Defined.


(** ** The event loop: what each event can do, and what every state keeps *)

Section EventLoopFacts.
Context {V number Weapon Item OtherEntity Obstacle Particle Sound : Type}.
Context `{!Vec2.Ops V} `{!Player.Ops V number Weapon Item}.
Variable DIRECTION_VEC : list V.
Variable World_tick :
  list (Player.t V Weapon) -> World.t (Server.EntityRef OtherEntity) Obstacle Particle Sound ->
  list (Player.t V Weapon) * World.t (Server.EntityRef OtherEntity) Obstacle Particle Sound.

Abbreviation State := (@Server.State V Weapon OtherEntity Obstacle Particle Sound).
Abbreviation Event := (@Server.Event number Item).
Abbreviation step := (Server.step (Obstacle := Obstacle) (Particle := Particle) (Sound := Sound)
                        DIRECTION_VEC World_tick).
Abbreviation run := (Server.run (Obstacle := Obstacle) (Particle := Particle) (Sound := Sound)
                       DIRECTION_VEC World_tick).

(** Closes goals about the fields of a connection after an event. *)
Ltac conn_facts :=
  unfold handshake_sound, conn_local, Server.on_first_message, Server.socket_close,
    Server.set_session, Server.set_awaiting, Server.set_wait_pending in *;
  repeat match goal with
         | |- context [match ?x with _ => _ end] => destruct x eqn:?
         | H : context [match ?x with _ => _ end] |- _ => destruct x eqn:?
         end;
  cbn in *; repeat split; intros; try congruence; try (eexists; split; [eassumption|reflexivity]);
  try (eexists; split; reflexivity); intuition congruence.

Lemma closed_or_not (r : Server.ReadyState) : r = Server.CLOSED \/ r <> Server.CLOSED.
Proof. destruct r; [right; discriminate | right; discriminate | left; reflexivity]. Qed.


(** The seven things an event can do to a state whose connections are
    [handshake_sound]. *)
Lemma step_kinds (fuel : nat) (now : Z) (s s' : State) (ev : Event) :
  all_sound s ->
  step fuel now s ev = Ok s' ->
  (exists id_, ev = Server.Connect id_ /\ s' = Server.on_connection now id_ s) \/
  s' = s \/
  (exists h c msg username_,
     ev = Server.Message h msg /\ Server.conns s !! h = Some c /\
     Server.readyState c <> Server.CLOSED /\ Server.once_message c = true /\
     Server.awaiting c = true /\ Server.session c = None /\
     Server.handshake_ok (Server.id c) msg = Some username_ /\
     s' = Server.resume now h
            (Server.mkConnection (Server.id c) (Server.readyState c) true username_ false
               true (Server.wait_until c) (Server.wait_pending c) None) s) \/
  (exists h c c',
     connection_of ev = Some h /\ Server.conns s !! h = Some c /\
     s' = Server.set_conn h c' s /\ conn_local c c' /\ handshake_sound c') \/
  (exists h c ss p ss' p' msg,
     ev = Server.Message h msg /\ Server.conns s !! h = Some c /\
     Server.readyState c <> Server.CLOSED /\ Server.session c = Some ss /\
     Server.heap s !! Server.player ss = Some p /\
     Server.on_message DIRECTION_VEC fuel now msg ss p = Ok (ss', p') /\
     s' = Server.mkState (Server.sockets s) (Server.numberOfPlayers s) (Server.world s)
            (<[Server.player ss := p']> (Server.heap s))
            (<[h := Server.set_session (Some ss') c]> (Server.conns s)) (Server.outbox s)) \/
  (exists h c,
     ev = Server.Close h /\ Server.conns s !! h = Some c /\
     Server.readyState c <> Server.CLOSED /\ s' = Server.on_close h s) \/
  (ev = Server.Interval /\ s' = Server.on_interval World_tick s).
Proof.
  intros Hinv Hstep.
  destruct ev as [id_|h msg|h|h|h|h|]; cbn [Server.step] in Hstep;
    [| |right; left; exact (on_null_message_ok h s s' Hstep)| | | |].
  - left. exists id_. injection Hstep as <-. split; reflexivity.
  - unfold Server.on_socket_message in Hstep.
    destruct (Server.conns s !! h) as [c|] eqn:Hc;
      [|injection Hstep as <-; right; left; reflexivity].
    pose proof (Hinv h c Hc) as [Hpristine Hawaits].
    destruct (closed_or_not (Server.readyState c)) as [Hclosed|Hopen].
    { rewrite Hclosed in Hstep. injection Hstep as <-. right; left; reflexivity. }
    assert (Hgo : (if Server.once_message c
                   then if Server.awaiting (Server.on_first_message msg c)
                        then Ok (Server.resume now h (Server.on_first_message msg c) s)
                        else Ok (Server.set_conn h (Server.on_first_message msg c) s)
                   else match Server.session c with
                        | None => Ok s
                        | Some ss =>
                            match Server.heap s !! Server.player ss with
                            | None => Ok s
                            | Some p =>
                                match Server.on_message DIRECTION_VEC fuel now msg ss p with
                                | Ok (ss', p') =>
                                    Ok (Server.mkState (Server.sockets s) (Server.numberOfPlayers s)
                                          (Server.world s) (<[Server.player ss := p']> (Server.heap s))
                                          (<[h := Server.set_session (Some ss') c]> (Server.conns s))
                                          (Server.outbox s))
                                | Throws => Throws
                                | OutOfFuel => OutOfFuel
                                end
                            end
                        end) = Ok s').
    { destruct (Server.readyState c); [exact Hstep | exact Hstep | congruence]. }
    clear Hstep. destruct (Server.once_message c) eqn:Honce.
    + destruct (Hpristine eq_refl) as [Hconn Hsession].
      destruct (Server.handshake_ok (Server.id c) msg) as [username_|] eqn:Hok.
      * assert (Hc1 : Server.on_first_message msg c =
                  Server.mkConnection (Server.id c) (Server.readyState c) true username_ false
                    (Server.awaiting c) (Server.wait_until c) (Server.wait_pending c) None).
        { unfold Server.on_first_message. rewrite Hok, Hsession. reflexivity. }
        rewrite Hc1 in Hgo. cbn [Server.awaiting] in Hgo.
        destruct (Server.awaiting c) eqn:Hawait; injection Hgo as <-.
        -- right; right; left. exists h, c, msg, username_. repeat split; assumption || reflexivity.
        -- right; right; right; left. exists h, c. eexists.
           split; [reflexivity|]. split; [exact Hc|]. split; [reflexivity|].
           split; conn_facts.
      * assert (Hc1 : Server.connected (Server.on_first_message msg c) = false).
        { unfold Server.on_first_message. rewrite Hok. conn_facts. }
        destruct (Server.awaiting (Server.on_first_message msg c)) eqn:Hawait;
          injection Hgo as <-; right; right; right; left; exists h, c; eexists;
          (split; [reflexivity|]); (split; [exact Hc|]).
        -- split; [unfold Server.resume; rewrite Hc1; reflexivity|].
           unfold Server.on_first_message in *. rewrite Hok in *. split; conn_facts.
        -- split; [reflexivity|].
           unfold Server.on_first_message in *. rewrite Hok in *. split; conn_facts.
    + destruct (Server.session c) as [ss|] eqn:Hsession;
        [|injection Hgo as <-; right; left; reflexivity].
      destruct (Server.heap s !! Server.player ss) as [p|] eqn:Hp;
        [|injection Hgo as <-; right; left; reflexivity].
      destruct (Server.on_message DIRECTION_VEC fuel now msg ss p) as [[ss' p']| |] eqn:Hrun;
        try discriminate.
      injection Hgo as <-. right; right; right; right; left.
      exists h, c, ss, p, ss', p', msg. repeat split; assumption || reflexivity.
  - injection Hstep as <-. unfold Server.on_wait_elapsed.
    destruct (Server.conns s !! h) as [c|] eqn:Hc; [|right; left; reflexivity].
    pose proof (Hinv h c Hc) as [Hpristine Hawaits].
    destruct (Server.wait_pending c && (Server.wait_until c <=? now));
      [|right; left; reflexivity].
    right; right; right; left. exists h, c.
    destruct (Server.awaiting (Server.set_wait_pending false c)) eqn:Hawait.
    + assert (Hconn : Server.connected c = false /\ Server.session c = None)
        by (apply Hpristine, Hawaits; exact Hawait).
      destruct Hconn as [Hconn Hsession].
      exists (Server.set_awaiting false (Server.set_wait_pending false c)).
      split; [reflexivity|]. split; [exact Hc|].
      split; [unfold Server.resume; cbn [Server.connected Server.set_wait_pending];
              rewrite Hconn; reflexivity|].
      split; conn_facts.
    + exists (Server.set_wait_pending false c).
      split; [reflexivity|]. split; [exact Hc|]. split; [reflexivity|].
      cbn in Hawait. split; conn_facts.
  - injection Hstep as <-. unfold Server.on_timeout.
    destruct (Server.conns s !! h) as [c|] eqn:Hc; [|right; left; reflexivity].
    pose proof (Hinv h c Hc) as [Hpristine Hawaits].
    destruct (Server.session c) as [ss|] eqn:Hsession; [|right; left; reflexivity].
    destruct (Server.due now _); [|right; left; reflexivity].
    right; right; right; left. exists h, c. eexists.
    split; [reflexivity|]. split; [exact Hc|]. split; [reflexivity|].
    assert (Honce : Server.once_message c = false).
    { destruct (Server.once_message c); [|reflexivity].
      destruct (Hpristine eq_refl) as [_ Hnone]. congruence. }
    assert (Hawait : Server.awaiting c = false).
    { destruct (Server.awaiting c); [|reflexivity]. specialize (Hawaits eq_refl). congruence. }
    unfold conn_local, handshake_sound, Server.socket_close, Server.set_session.
    cbn [Server.readyState].
    destruct (Server.readyState c) eqn:Hr;
      cbn [Server.id Server.readyState Server.session Server.connected Server.once_message
           Server.awaiting];
      rewrite ?Hr, ?Honce, ?Hawait, ?Hsession;
      repeat split; intros; try congruence; try discriminate;
      (eexists; split; [reflexivity | cbn [Server.player]; congruence]).
  - injection Hstep as <-.
    destruct (Server.conns s !! h) as [c|] eqn:Hc;
      [|unfold Server.on_close; rewrite Hc; right; left; reflexivity].
    destruct (closed_or_not (Server.readyState c)) as [Hclosed|Hopen].
    + unfold Server.on_close. rewrite Hc, Hclosed. right; left; reflexivity.
    + right; right; right; right; right; left. exists h, c. repeat split; assumption.
  - injection Hstep as <-. right; right; right; right; right; right. split; reflexivity.
Qed.

Lemma conns_on_interval (s : State) :
  Server.conns (Server.on_interval World_tick s) = Server.conns s /\
  Server.sockets (Server.on_interval World_tick s) = Server.sockets s /\
  Server.numberOfPlayers (Server.on_interval World_tick s) = Server.numberOfPlayers s /\
  Server.heap (Server.on_interval World_tick s) = (World_tick (Server.heap s) (Server.world s)).1.
Proof.
  unfold Server.on_interval. destruct (World_tick (Server.heap s) (Server.world s)) as [h w].
  repeat split; reflexivity.
Qed.

(** An update of one connection keeps what holds of every connection. *)
Lemma insert_keeps (P : Server.Connection -> Prop) (l : list Server.Connection)
    (k : nat) (c' : Server.Connection) :
  (forall h c, l !! h = Some c -> P c) -> P c' ->
  forall h c, <[k := c']> l !! h = Some c -> P c.
Proof.
  intros Hall Hc' h c Hc. apply list_lookup_insert_Some in Hc as [(_ & <- & _)|[_ Hc]];
    [exact Hc' | exact (Hall h c Hc)].
Qed.

Lemma step_all_sound (fuel : nat) (now : Z) (s s' : State) (ev : Event) :
  all_sound s -> step fuel now s ev = Ok s' -> all_sound s'.
Proof.
  intros Hinv Hstep.
  destruct (step_kinds fuel now s s' ev Hinv Hstep)
    as [(id_ & _ & ->)|[->|[(h & c & msg & u & _ & Hc & _ & _ & _ & _ & _ & ->)
       |[(h & c & c' & _ & Hc & -> & _ & Hsound)
       |[(h & c & ss & p & ss' & p' & msg & _ & Hc & _ & Hsession & _ & _ & ->)
       |[(h & c & _ & Hc & Hopen & ->)|[_ ->]]]]]]].
  - intros h c Hc. cbn in Hc. apply lookup_app_Some in Hc as [Hc|[_ Hc]]; [exact (Hinv h c Hc)|].
    apply list_lookup_singleton_Some in Hc as [_ <-]. split; [intros _; split; reflexivity | reflexivity].
  - exact Hinv.
  - unfold all_sound. rewrite conns_resume. cbn [Server.connected].
    apply insert_keeps; [exact Hinv|]. split; cbn; intros; discriminate.
  - unfold all_sound. cbn [Server.set_conn Server.conns]. apply insert_keeps; assumption.
  - unfold all_sound. cbn [Server.conns]. apply insert_keeps; [exact Hinv|].
    destruct (Hinv h c Hc) as [Hp Ha].
    assert (Honce : Server.once_message c = false).
    { destruct (Server.once_message c); [|reflexivity]. destruct (Hp eq_refl); congruence. }
    split; cbn; [rewrite Honce; intros; discriminate | exact Ha].
  - unfold all_sound, Server.on_close. rewrite Hc.
    destruct (Hinv h c Hc) as [Hp Ha].
    destruct (Server.readyState c); [| |congruence]; cbn [Server.conns];
      (apply insert_keeps; [exact Hinv|]); (split; cbn; [|exact Ha]);
      intros Honce; (split; [reflexivity | apply (Hp Honce)]).
  - intros h c Hc. destruct (conns_on_interval s) as [Hconns _]. rewrite Hconns in Hc.
    exact (Hinv h c Hc).
Qed.

Lemma run_all_sound (fuel : nat) (evs : list (Z * Event)) (s s' : State) :
  run fuel s evs = Ok s' -> all_sound s -> all_sound s'.
Proof.
  revert s. induction evs as [|[now ev] evs IH]; intros s Hrun Hinv.
  - injection Hrun as <-. exact Hinv.
  - cbn [Server.run] in Hrun. destruct (step fuel now s ev) as [s1| |] eqn:Hstep; try discriminate.
    exact (IH s1 Hrun (step_all_sound fuel now s s1 ev Hinv Hstep)).
Qed.

Lemma reachable_all_sound (s : State) :
  reachable DIRECTION_VEC World_tick s -> all_sound s.
Proof.
  intros (w & fuel & evs & Hrun). apply (run_all_sound fuel evs _ s Hrun).
  intros h c Hc. destruct h; discriminate Hc.
Qed.

Lemma step_sockets_sound (fuel : nat) (now : Z) (s s' : State) (ev : Event) :
  all_sound s -> sockets_sound s -> step fuel now s ev = Ok s' -> sockets_sound s'.
Proof.
  intros Hinv Hsock Hstep.
  assert (Hupdate : forall h c c' (s1 : State),
            Server.conns s !! h = Some c ->
            Server.sockets s1 = Server.sockets s ->
            Server.conns s1 = <[h := c']> (Server.conns s) ->
            Server.id c' = Server.id c ->
            (Server.readyState c <> Server.CLOSED -> Server.readyState c' <> Server.CLOSED) ->
            sockets_sound s1).
  { intros h c c' s1 Hc Hs1 Hc1 Hid Hready i h0 Hi. rewrite Hs1 in Hi. rewrite Hc1.
    destruct (Hsock i h0 Hi) as (c0 & Hc0 & Hid0 & Hopen0).
    destruct (Nat.eq_dec h h0) as [->|Hne].
    - exists c'. rewrite list_lookup_insert_eq by (apply lookup_lt_Some in Hc0; exact Hc0).
      assert (c0 = c) as -> by congruence.
      split; [reflexivity|]. split; [congruence | exact (Hready Hopen0)].
    - exists c0. rewrite list_lookup_insert_ne by exact Hne. repeat split; assumption. }
  destruct (step_kinds fuel now s s' ev Hinv Hstep)
    as [(id_ & _ & ->)|[->|[(h & c & msg & u & _ & Hc & Hopen & _ & _ & _ & _ & ->)
       |[(h & c & c' & _ & Hc & -> & Hlocal & _)
       |[(h & c & ss & p & ss' & p' & msg & _ & Hc & _ & _ & _ & _ & ->)
       |[(h & c & _ & Hc & Hopen & ->)|[_ ->]]]]]]].
  - intros i h Hi. cbn in Hi |- *.
    destruct (decide (id_ = i)) as [->|Hne].
    + rewrite lookup_insert_eq in Hi. injection Hi as <-.
      eexists. split; [apply list_lookup_middle; reflexivity|]. split; [reflexivity | discriminate].
    + rewrite lookup_insert_ne in Hi by exact Hne.
      destruct (Hsock i h Hi) as (c0 & Hc0 & Hid0 & Hopen0).
      exists c0. split; [apply lookup_app_l_Some; exact Hc0|]. split; assumption.
  - exact Hsock.
  - eapply (Hupdate h c);
      [exact Hc | reflexivity | apply conns_resume | reflexivity | intros _; exact Hopen].
  - destruct Hlocal as (Hid & Hclosed & _).
    apply (Hupdate h c c' _ Hc); [reflexivity | reflexivity | exact Hid |].
    intros Hopen Hc'. apply Hopen, Hclosed, Hc'.
  - apply (Hupdate h c (Server.set_session (Some ss') c) _ Hc);
      [reflexivity | reflexivity | reflexivity | intros Hopen; exact Hopen].
  - intros i h0 Hi. unfold Server.on_close in Hi |- *. rewrite Hc in Hi |- *.
    assert (Hdel : delete (Server.id c) (Server.sockets s) !! i = Some h0).
    { destruct (Server.readyState c); [exact Hi | exact Hi | congruence]. }
    clear Hi. apply lookup_delete_Some in Hdel as [Hne Hi].
    destruct (Hsock i h0 Hi) as (c0 & Hc0 & Hid0 & Hopen0).
    assert (Hh : h <> h0) by (intros ->; congruence).
    exists c0. split; [|split; assumption].
    destruct (Server.readyState c); [| |congruence]; cbn [Server.conns];
      rewrite list_lookup_insert_ne by exact Hh; exact Hc0.
  - intros i h Hi. destruct (conns_on_interval s) as (Hconns & Hsockets & _).
    rewrite Hsockets in Hi. rewrite Hconns. exact (Hsock i h Hi).
Qed.

Lemma run_sockets_sound (fuel : nat) (evs : list (Z * Event)) (s s' : State) :
  run fuel s evs = Ok s' -> all_sound s -> sockets_sound s -> sockets_sound s'.
Proof.
  revert s. induction evs as [|[now ev] evs IH]; intros s Hrun Hinv Hsock.
  - injection Hrun as <-. exact Hsock.
  - cbn [Server.run] in Hrun. destruct (step fuel now s ev) as [s1| |] eqn:Hstep; try discriminate.
    exact (IH s1 Hrun (step_all_sound fuel now s s1 ev Hinv Hstep)
              (step_sockets_sound fuel now s s1 ev Hinv Hsock Hstep)).
Qed.

Lemma reachable_sockets_sound (s : State) :
  reachable DIRECTION_VEC World_tick s -> sockets_sound s.
Proof.
  intros (w & fuel & evs & Hrun). apply (run_sockets_sound fuel evs _ s Hrun).
  - intros h c Hc. destruct h; discriminate Hc.
  - intros i h Hi. cbn in Hi. rewrite lookup_empty in Hi. discriminate.
Qed.





(** X11. Acceptance, lines 76-110: while the callback waits at the [await],
    a first message with the issued id and a non-empty username leaves
    [sockets] alone, raises the count by one, creates one [Player] from the
    connection's id and the username and appends it to [world.entities],
    sends to that socket the map packet, then a full game packet carrying
    the new count, then one sound packet per join sound, and gives the
    connection its 30 second timer, four released flags and no buttons. *)
Theorem X11_acceptance
    (fuel : nat) (now : Z) (s : State) (h : nat) (c : Server.Connection)
    (msg : Server.Packet number Item) (username_ : string) :
  Server.conns s !! h = Some c ->
  Server.once_message c = true -> Server.awaiting c = true ->
  Server.readyState c <> Server.CLOSED ->
  Server.handshake_ok (Server.id c) msg = Some username_ ->
  step fuel now s (Server.Message h msg) =
    Ok (Server.mkState (Server.sockets s) (Server.numberOfPlayers s + 1)
          (World.push_entity (Server.PlayerRef (length (Server.heap s))) (Server.world s))
          (Server.heap s ++ [Player.new (Server.id c) username_])
          (<[h := Server.mkConnection (Server.id c) (Server.readyState c) true username_
                    false false (Server.wait_until c) (Server.wait_pending c)
                    (Some (Server.mkSession (length (Server.heap s))
                             (Server.mkTimer (now + 30000) true)
                             [false; false; false; false] ∅))]> (Server.conns s))
          (Server.outbox s
             ++ [(h, Server.MapPacket); (h, Server.GamePacket (Server.numberOfPlayers s + 1) true)]
             ++ ((fun sound => (h, Server.SoundPacket sound))
                   <$> World.joinSounds (Server.world s)))).
Proof.
  intros Hc Honce Hawait Hopen Hok.
  cbn [Server.step]. unfold Server.on_socket_message. rewrite Hc, Honce.
  unfold Server.on_first_message. rewrite Hok. cbn [Server.awaiting]. rewrite Hawait.
  destruct (Server.readyState c) eqn:Hr; [reflexivity | reflexivity | congruence].
Qed.

(** X12. The close listener, lines 63-70, in a reachable state: after the
    close event of a connection no entry of [sockets] leads to its socket
    any more, the entries of other ids are untouched, the count goes down
    by one exactly when [connected] was set, the world, the players, what
    was sent and the other connections are left as they are, and a second
    close event does nothing. *)
Theorem X12_close_unregisters_the_socket
    (fuel : nat) (now : Z) (s : State) (h : nat) (c : Server.Connection) :
  reachable DIRECTION_VEC World_tick s ->
  Server.conns s !! h = Some c ->
  Server.readyState c <> Server.CLOSED ->
  (forall i, Server.sockets (Server.on_close h s) !! i <> Some h) /\
  (forall i, i <> Server.id c ->
     Server.sockets (Server.on_close h s) !! i = Server.sockets s !! i) /\
  Server.numberOfPlayers (Server.on_close h s) =
    (if Server.connected c then Server.numberOfPlayers s - 1 else Server.numberOfPlayers s) /\
  Server.world (Server.on_close h s) = Server.world s /\
  Server.heap (Server.on_close h s) = Server.heap s /\
  Server.outbox (Server.on_close h s) = Server.outbox s /\
  (forall h', h' <> h -> Server.conns (Server.on_close h s) !! h' = Server.conns s !! h') /\
  step fuel now (Server.on_close h s) (Server.Close h) = Ok (Server.on_close h s).
Proof.
  intros Hreach Hc Hopen.
  pose proof (reachable_sockets_sound s Hreach) as Hsock.
  assert (Hh : (h < length (Server.conns s))%nat) by (apply lookup_lt_Some in Hc; exact Hc).
  assert (Hclose : Server.on_close h s =
            Server.mkState (delete (Server.id c) (Server.sockets s))
              (if Server.connected c then Server.numberOfPlayers s - 1
               else Server.numberOfPlayers s)
              (Server.world s) (Server.heap s)
              (<[h := Server.mkConnection (Server.id c) Server.CLOSED false (Server.username c)
                        (Server.once_message c) (Server.awaiting c) (Server.wait_until c)
                        (Server.wait_pending c) (Server.session c)]> (Server.conns s))
              (Server.outbox s)).
  { unfold Server.on_close. rewrite Hc.
    destruct (Server.readyState c); [reflexivity | reflexivity | congruence]. }
  rewrite Hclose. cbn [Server.sockets Server.numberOfPlayers Server.world Server.heap
                       Server.outbox Server.conns].
  split.
  { intros i Hi. apply lookup_delete_Some in Hi as [Hne Hi].
    destruct (Hsock i h Hi) as (c0 & Hc0 & Hid0 & _). congruence. }
  split; [intros i Hne; apply lookup_delete_ne; congruence|].
  split; [reflexivity|]. split; [reflexivity|]. split; [reflexivity|]. split; [reflexivity|].
  split; [intros h' Hne; apply list_lookup_insert_ne; congruence|].
  cbn [Server.step]. unfold Server.on_close at 1. cbn [Server.conns].
  rewrite list_lookup_insert_eq by exact Hh. reflexivity.
Qed.

(** X13. Once a connection is accepted, the timer of [wait(10000)] is
    harmless: when it fires, nothing changes but the note that it fired. *)
Theorem X13_wait_timer_is_harmless_after_acceptance
    (now : Z) (s : State) (h : nat) (c : Server.Connection) (ss : Server.Session) :
  reachable DIRECTION_VEC World_tick s ->
  Server.conns s !! h = Some c ->
  Server.session c = Some ss ->
  Server.on_wait_elapsed now h s = s \/
  Server.on_wait_elapsed now h s = Server.set_conn h (Server.set_wait_pending false c) s.
Proof.
  intros Hreach Hc Hsession.
  destruct (reachable_all_sound s Hreach h c Hc) as [Hp Ha].
  assert (Hawait : Server.awaiting c = false).
  { destruct (Server.awaiting c); [|reflexivity].
    destruct (Hp (Ha eq_refl)) as [_ Hnone]. congruence. }
  unfold Server.on_wait_elapsed. rewrite Hc.
  destruct (Server.wait_pending c && (Server.wait_until c <=? now)); [|left; reflexivity].
  right. cbn [Server.awaiting Server.set_wait_pending]. rewrite Hawait. reflexivity.
Qed.

(** X14. In every state the server can reach, every entry of [sockets] is
    the id of a connection whose socket has not emitted "close": closed
    sockets do not stay registered, and an entry never leads to a socket
    that was given another id. *)
Theorem X14_sockets_hold_only_live_connections (s : State) :
  reachable DIRECTION_VEC World_tick s -> sockets_sound s.
Proof. intros Hreach. exact (reachable_sockets_sound s Hreach). Qed.


(** X16. What the session layer does to the world and to the count: an
    event other than the tick either leaves [world] and the number of
    player objects as they are, with the count unchanged or, for a close
    event only, one lower; or it is the message that gets a connection
    accepted, which appends the one new player to [world.entities] and
    raises the count by one.  Nothing but the tick removes an entity. *)
Theorem X16_only_acceptance_touches_the_world
    (fuel : nat) (now : Z) (s s' : State) (ev : Event) :
  reachable DIRECTION_VEC World_tick s ->
  ev <> Server.Interval ->
  step fuel now s ev = Ok s' ->
  (Server.world s' = Server.world s /\
   length (Server.heap s') = length (Server.heap s) /\
   (Server.numberOfPlayers s' = Server.numberOfPlayers s \/
    (Server.numberOfPlayers s' = Server.numberOfPlayers s - 1 /\ exists h, ev = Server.Close h)))
  \/
  (exists h msg pl,
     ev = Server.Message h msg /\
     Server.world s' =
       World.push_entity (Server.PlayerRef (length (Server.heap s))) (Server.world s) /\
     Server.heap s' = Server.heap s ++ [pl] /\
     Server.numberOfPlayers s' = Server.numberOfPlayers s + 1).
Proof.
  intros Hreach Hev Hstep.
  pose proof (reachable_all_sound s Hreach) as Hinv.
  destruct (step_kinds fuel now s s' ev Hinv Hstep)
    as [(id_ & _ & ->)|[->|[(h & c & msg & u & -> & Hc & Hopen & _ & _ & Hnone & _ & ->)
       |[(h & c & c' & _ & Hc & -> & _ & _)
       |[(h & c & ss & p & ss' & p' & msg & _ & Hc & _ & Hsession & _ & Hrun & ->)
       |[(h & c & -> & Hc & Hopen & ->)|[-> _]]]]]]].
  - left. repeat split; try reflexivity. left; reflexivity.
  - left. repeat split; try reflexivity. left; reflexivity.
  - right. exists h, msg, (Player.new (Server.id c) u). repeat split; reflexivity.
  - left. repeat split; try reflexivity. left; reflexivity.
  - left. cbn [Server.world Server.heap Server.numberOfPlayers].
    split; [reflexivity|]. split; [apply length_insert | left; reflexivity].
  - left. unfold Server.on_close. rewrite Hc.
    destruct (Server.readyState c); [| |congruence];
      cbn [Server.world Server.heap Server.numberOfPlayers];
      (split; [reflexivity|]); (split; [reflexivity|]);
      (destruct (Server.connected c); [right; split; [reflexivity | exists h; reflexivity]
                                      | left; reflexivity]).
  - congruence.
Qed.

(** X17. The tick loop, lines 179-191, in a reachable state: it leaves
    [sockets], the count and the connections alone, and every packet it
    sends goes to the socket registered under the id of a connection that
    has not emitted "close"; its game packets carry the current count and
    are not marked as full. *)
Theorem X17_tick_loop_sends_to_live_sockets_only (s : State) :
  reachable DIRECTION_VEC World_tick s ->
  Server.sockets (Server.on_interval World_tick s) = Server.sockets s /\
  Server.numberOfPlayers (Server.on_interval World_tick s) = Server.numberOfPlayers s /\
  Server.conns (Server.on_interval World_tick s) = Server.conns s /\
  exists sent,
    Server.outbox (Server.on_interval World_tick s) = Server.outbox s ++ sent /\
    forall h pkt, In (h, pkt) sent ->
      (exists c, Server.conns s !! h = Some c /\ Server.readyState c <> Server.CLOSED /\
                 Server.sockets s !! Server.id c = Some h) /\
      (forall n full, pkt = Server.GamePacket n full ->
         n = Server.numberOfPlayers s /\ full = false).
Proof.
  intros Hreach. pose proof (reachable_sockets_sound s Hreach) as Hsock.
  destruct (conns_on_interval s) as (Hconns & Hsockets & Hcount & _).
  split; [exact Hsockets|]. split; [exact Hcount|]. split; [exact Hconns|].
  unfold Server.on_interval.
  destruct (World_tick (Server.heap s) (Server.world s)) as [heap1 world1].
  eexists. split; [reflexivity|].
  intros h pkt Hin. apply in_flat_map in Hin as (e & _ & Hin).
  unfold Server.send_to in Hin. destruct e as [loc|e]; [|destruct Hin].
  cbn [Server.heap Server.sockets Server.numberOfPlayers Server.world] in Hin.
  destruct (heap1 !! loc) as [p|]; [|destruct Hin].
  destruct (Server.sockets s !! Player.id p) as [h0|] eqn:Hh0; [|destruct Hin].
  assert (Hh : h = h0 /\ (forall n full, pkt = Server.GamePacket n full ->
                            n = Server.numberOfPlayers s /\ full = false)).
  { apply in_app_or in Hin as [Hin|Hin].
    - destruct Hin as [Hin|[]]. injection Hin as <- <-. split; [reflexivity|].
      intros n full Heq. injection Heq as <- <-. split; reflexivity.
    - apply in_app_or in Hin as [Hin|Hin].
      + destruct (World.particles world1); [destruct Hin|].
        destruct Hin as [Hin|[]]. injection Hin as <- <-. split; [reflexivity|].
        intros n full Heq. discriminate.
      + apply list_elem_of_In, list_elem_of_fmap in Hin as (sound & Heq & _).
        injection Heq as -> ->. split; [reflexivity|]. intros n full Heq. discriminate. }
  destruct Hh as [-> Hgame]. split; [|exact Hgame].
  destruct (Hsock _ _ Hh0) as (c & Hc & Hid & Hopen).
  exists c. split; [exact Hc|]. split; [exact Hopen|]. rewrite Hid. exact Hh0.
Qed.

(** X18. A connection that is accepted and then closes: the count is back
    where it was and the id is gone from [sockets], but the player it
    created is still in [world.entities] and still exists; the session
    layer never takes it out. *)
Theorem X18_accept_then_close_leaves_the_player
    (fuel : nat) (t1 t2 : Z) (s : State) (h : nat) (c : Server.Connection)
    (msg : Server.Packet number Item) (username_ : string) :
  Server.conns s !! h = Some c ->
  Server.once_message c = true -> Server.awaiting c = true ->
  Server.readyState c <> Server.CLOSED ->
  Server.handshake_ok (Server.id c) msg = Some username_ ->
  exists s2,
    run fuel s [(t1, Server.Message h msg); (t2, Server.Close h)] = Ok s2 /\
    Server.numberOfPlayers s2 = Server.numberOfPlayers s /\
    Server.sockets s2 = delete (Server.id c) (Server.sockets s) /\
    World.entities (Server.world s2) =
      World.entities (Server.world s) ++ [Server.PlayerRef (length (Server.heap s))] /\
    Server.heap s2 = Server.heap s ++ [Player.new (Server.id c) username_] /\
    (Server.readyState <$> Server.conns s2 !! h) = Some Server.CLOSED.
Proof.
  intros Hc Honce Hawait Hopen Hok.
  assert (Hh : (h < length (Server.conns s))%nat) by (apply lookup_lt_Some in Hc; exact Hc).
  cbn [Server.run Server.step]. unfold Server.on_socket_message. rewrite Hc, Honce.
  unfold Server.on_first_message. rewrite Hok. cbn [Server.awaiting]. rewrite Hawait.
  destruct (Server.readyState c) eqn:Hr; [| |congruence];
    unfold Server.resume; cbn [Server.connected negb];
    unfold Server.on_close; cbn [Server.conns];
    rewrite list_lookup_insert_eq by exact Hh;
    cbn [Server.readyState Server.set_session Server.set_awaiting];
    eexists; (split; [reflexivity|]);
    cbn [Server.numberOfPlayers Server.sockets Server.world Server.heap Server.conns
         Server.connected Server.id World.entities World.push_entity];
    rewrite list_lookup_insert_eq by (rewrite length_insert; exact Hh);
    repeat split; try reflexivity; unfold Server.set_session, Server.set_awaiting;
    cbn [Server.connected]; lia.
Qed.

(** Events leave a connection that closed before it was accepted as it is
    in what matters. *)
Lemma step_closed_unaccepted (fuel : nat) (now : Z) (s s' : State) (ev : Event)
    (h : nat) (c : Server.Connection) :
  all_sound s -> step fuel now s ev = Ok s' ->
  Server.conns s !! h = Some c -> closed_unaccepted c ->
  exists c', Server.conns s' !! h = Some c' /\ closed_unaccepted c'.
Proof.
  intros Hinv Hstep Hc (Hclosed & Hnone & Hconn).
  assert (Hother : forall h0 c0 (l : list Server.Connection),
            l = Server.conns s -> h0 <> h ->
            exists c', <[h0 := c0]> l !! h = Some c' /\ closed_unaccepted c').
  { intros h0 c0 l -> Hne. exists c. rewrite list_lookup_insert_ne by exact Hne.
    split; [exact Hc | repeat split; assumption]. }
  destruct (step_kinds fuel now s s' ev Hinv Hstep)
    as [(id_ & _ & ->)|[->|[(h0 & c0 & msg & u & _ & Hc0 & Hopen & _ & _ & _ & _ & ->)
       |[(h0 & c0 & c' & _ & Hc0 & -> & Hlocal & _)
       |[(h0 & c0 & ss & p & ss' & p' & msg & _ & Hc0 & Hopen & _ & _ & _ & ->)
       |[(h0 & c0 & _ & Hc0 & Hopen & ->)|[_ ->]]]]]]].
  - exists c. split; [apply lookup_app_l_Some; exact Hc | repeat split; assumption].
  - exists c. split; [exact Hc | repeat split; assumption].
  - rewrite conns_resume. apply Hother; [reflexivity|]. intros ->. congruence.
  - cbn [Server.set_conn Server.conns]. destruct (Nat.eq_dec h0 h) as [->|Hne].
    + assert (c0 = c) as -> by congruence.
      exists c'. split; [apply list_lookup_insert_eq; apply lookup_lt_Some in Hc; exact Hc|].
      destruct Hlocal as (_ & Hcl & Hn & _ & Hco).
      split; [apply Hcl; exact Hclosed|]. split; [exact (Hn Hnone)|].
      rewrite (Hco Hclosed). exact Hconn.
    + apply Hother; [reflexivity | exact Hne].
  - cbn [Server.conns]. apply Hother; [reflexivity|]. intros ->. congruence.
  - unfold Server.on_close. rewrite Hc0.
    assert (Hne : h0 <> h) by (intros ->; congruence).
    destruct (Server.readyState c0); [| |congruence]; cbn [Server.conns];
      (apply Hother; [reflexivity | exact Hne]).
  - destruct (conns_on_interval s) as [Hconns _]. rewrite Hconns.
    exists c. split; [exact Hc | repeat split; assumption].
Qed.

(** X19. A connection whose socket closes before it is accepted is never
    accepted afterwards: whatever events follow its close event (late
    timers included), it stays closed, without a player, and not
    connected. *)
Theorem X19_closed_before_acceptance_is_final
    (fuel : nat) (s s' : State) (h : nat) (c : Server.Connection)
    (evs : list (Z * Event)) :
  reachable DIRECTION_VEC World_tick s ->
  Server.conns s !! h = Some c ->
  Server.readyState c <> Server.CLOSED ->
  Server.session c = None ->
  run fuel (Server.on_close h s) evs = Ok s' ->
  exists c', Server.conns s' !! h = Some c' /\ closed_unaccepted c'.
Proof.
  intros Hreach Hc Hopen Hnone Hrun.
  assert (Hinv1 : all_sound (Server.on_close h s)).
  { apply (step_all_sound 0 0 s _ (Server.Close h) (reachable_all_sound s Hreach)). reflexivity. }
  assert (Hc1 : exists c1, Server.conns (Server.on_close h s) !! h = Some c1 /\
                           closed_unaccepted c1).
  { unfold Server.on_close. rewrite Hc.
    assert (Hh : (h < length (Server.conns s))%nat) by (apply lookup_lt_Some in Hc; exact Hc).
    destruct (Server.readyState c); [| |congruence]; cbn [Server.conns];
      eexists; (split; [apply list_lookup_insert_eq; exact Hh|]);
      repeat split; try reflexivity; exact Hnone. }
  destruct Hc1 as (c1 & Hc1 & Hcu1).
  clear Hc Hopen Hnone Hreach. revert Hrun Hinv1 c1 Hc1 Hcu1.
  generalize (Server.on_close h s) as s1.
  induction evs as [|[now ev] evs IH]; intros s1 Hrun Hinv1 c1 Hc1 Hcu1.
  - injection Hrun as <-. exists c1. split; assumption.
  - cbn [Server.run] in Hrun. destruct (step fuel now s1 ev) as [s2| |] eqn:Hstep; try discriminate.
    destruct (step_closed_unaccepted fuel now s1 s2 ev h c1 Hinv1 Hstep Hc1 Hcu1)
      as (c2 & Hc2 & Hcu2).
    exact (IH s2 Hrun (step_all_sound fuel now s1 s2 ev Hinv1 Hstep) c2 Hc2 Hcu2).
Qed.

Lemma sent_to_app (h : nat) (l1 l2 : list (nat * Server.OutPacket Sound)) :
  sent_to h (l1 ++ l2) = sent_to h l1 ++ sent_to h l2.
Proof. apply List.filter_app. Qed.

Lemma sent_to_none (h : nat) (l : list (nat * Server.OutPacket Sound)) :
  (forall h0 pkt, In (h0, pkt) l -> h0 <> h) -> sent_to h l = [].
Proof.
  induction l as [|[h0 pkt] l IH]; intros Hall; [reflexivity|].
  unfold sent_to in *. cbn [List.filter fst].
  assert (Hne : h0 <> h) by (apply (Hall h0 pkt); left; reflexivity).
  apply Nat.eqb_neq in Hne. rewrite Hne. apply IH.
  intros h1 pkt1 Hin. apply (Hall h1 pkt1). right. exact Hin.
Qed.

(** The tick loop sends to registered sockets only. *)
Lemma send_to_registered (s1 : State) (e : Server.EntityRef OtherEntity)
    (h : nat) (pkt : Server.OutPacket Sound) :
  In (h, pkt) (Server.send_to s1 e) -> exists i, Server.sockets s1 !! i = Some h.
Proof.
  unfold Server.send_to. destruct e as [loc|e]; [|intros []].
  destruct (Server.heap s1 !! loc) as [p|]; [|intros []].
  destruct (Server.sockets s1 !! Player.id p) as [h0|] eqn:Hh0; [|intros []].
  intros Hin. exists (Player.id p). rewrite Hh0. f_equal.
  apply in_app_or in Hin as [Hin|Hin].
  - destruct Hin as [Hin|[]]. injection Hin as <- _. reflexivity.
  - apply in_app_or in Hin as [Hin|Hin].
    + destruct (World.particles (Server.world s1)); [destruct Hin|].
      destruct Hin as [Hin|[]]. injection Hin as <- _. reflexivity.
    + apply list_elem_of_In, list_elem_of_fmap in Hin as (sound & Heq & _).
      injection Heq as -> _. reflexivity.
Qed.

(** Appending packets for existing sockets, over connections that keep
    their ids, keeps [ack_first]. *)
Lemma ack_first_extend (s s' : State) (sent : list (nat * Server.OutPacket Sound)) :
  ack_first s ->
  length (Server.conns s') = length (Server.conns s) ->
  (forall h c', Server.conns s' !! h = Some c' ->
     exists c, Server.conns s !! h = Some c /\ Server.id c = Server.id c') ->
  Server.outbox s' = Server.outbox s ++ sent ->
  (forall h pkt, In (h, pkt) sent -> (h < length (Server.conns s))%nat) ->
  ack_first s'.
Proof.
  intros [Hvalid Hack] Hlen Hids Hout Hsent. split.
  - intros h pkt Hin. rewrite Hout in Hin. rewrite Hlen.
    apply in_app_or in Hin as [Hin|Hin]; [exact (Hvalid h pkt Hin) | exact (Hsent h pkt Hin)].
  - intros h c' Hc'. destruct (Hids h c' Hc') as (c & Hc & Hid).
    destruct (Hack h c Hc) as (rest & Hrest).
    exists (rest ++ sent_to h sent). rewrite Hout, sent_to_app, Hrest, <- Hid. reflexivity.
Qed.

Lemma step_ack_first (fuel : nat) (now : Z) (s s' : State) (ev : Event) :
  all_sound s -> sockets_sound s -> ack_first s -> step fuel now s ev = Ok s' -> ack_first s'.
Proof.
  intros Hinv Hsock Hack Hstep.
  assert (Hupdate : forall h c c' (s1 : State) sent,
            Server.conns s !! h = Some c ->
            Server.conns s1 = <[h := c']> (Server.conns s) ->
            Server.id c' = Server.id c ->
            Server.outbox s1 = Server.outbox s ++ sent ->
            (forall h0 pkt, In (h0, pkt) sent -> h0 = h) ->
            ack_first s1).
  { intros h c c' s1 sent Hc Hc1 Hid Hout Hsent.
    apply (ack_first_extend s s1 sent Hack).
    - rewrite Hc1. apply length_insert.
    - intros h0 c0 Hc0. rewrite Hc1 in Hc0.
      apply list_lookup_insert_Some in Hc0 as [(<- & <- & _)|[_ Hc0]].
      + exists c. split; [exact Hc | symmetry; exact Hid].
      + exists c0. split; [exact Hc0 | reflexivity].
    - exact Hout.
    - intros h0 pkt Hin. rewrite (Hsent h0 pkt Hin). apply lookup_lt_Some in Hc. exact Hc. }
  destruct (step_kinds fuel now s s' ev Hinv Hstep)
    as [(id_ & _ & ->)|[->|[(h & c & msg & u & _ & Hc & Hopen & _ & _ & _ & _ & ->)
       |[(h & c & c' & _ & Hc & -> & Hlocal & _)
       |[(h & c & ss & p & ss' & p' & msg & _ & Hc & _ & _ & _ & _ & ->)
       |[(h & c & _ & Hc & Hopen & ->)|[_ ->]]]]]]].
  - destruct Hack as [Hvalid Hack]. split; cbn [Server.on_connection Server.conns Server.outbox].
    + intros h pkt Hin. rewrite length_app. cbn [length].
      apply in_app_or in Hin as [Hin|[Hin|[]]].
      * specialize (Hvalid h pkt Hin). lia.
      * injection Hin as <- _. lia.
    + intros h c Hc. rewrite sent_to_app.
      apply lookup_app_Some in Hc as [Hc|[Hge Hc]].
      * destruct (Hack h c Hc) as (rest & ->). eexists. reflexivity.
      * apply list_lookup_singleton_Some in Hc as [Hh <-].
        assert (h = length (Server.conns s)) as -> by lia.
        rewrite sent_to_none by (intros h0 pkt Hin; specialize (Hvalid h0 pkt Hin); lia).
        unfold sent_to. cbn [List.filter fst]. rewrite Nat.eqb_refl. eexists. reflexivity.
  - exact Hack.
  - eapply (Hupdate h c); [exact Hc | apply conns_resume | reflexivity | reflexivity |].
    intros h0 pkt Hin. cbn [In] in Hin. apply in_app_or in Hin as [Hin|Hin].
    + destruct Hin as [Hin|[Hin|[]]]; injection Hin as <- _; reflexivity.
    + apply list_elem_of_In, list_elem_of_fmap in Hin as (sound & Heq & _).
      injection Heq as -> _. reflexivity.
  - destruct Hlocal as (Hid & _).
    apply (Hupdate h c c' _ [] Hc); [reflexivity | exact Hid | | intros h0 pkt []].
    cbn [Server.set_conn Server.outbox]. rewrite app_nil_r. reflexivity.
  - apply (Hupdate h c (Server.set_session (Some ss') c) _ [] Hc);
      [reflexivity | reflexivity | | intros h0 pkt []].
    cbn [Server.outbox]. rewrite app_nil_r. reflexivity.
  - unfold Server.on_close. rewrite Hc.
    destruct (Server.readyState c); [| |congruence];
      (eapply (Hupdate h c _ _ []);
       [exact Hc | reflexivity | reflexivity
        | cbn [Server.outbox]; rewrite app_nil_r; reflexivity | intros h0 pkt []]).
  - unfold Server.on_interval.
    destruct (World_tick (Server.heap s) (Server.world s)) as [heap1 world1].
    eapply (ack_first_extend s _ _ Hack); [reflexivity | | reflexivity |].
    + intros h c' Hc'. exists c'. split; [exact Hc' | reflexivity].
    + intros h pkt Hin. apply in_flat_map in Hin as (e & _ & Hin).
      apply send_to_registered in Hin as (i & Hi). cbn [Server.sockets] in Hi.
      destruct (Hsock i h Hi) as (c & Hc & _). apply lookup_lt_Some in Hc. exact Hc.
Qed.

(** X20. In every state the server can reach, what was sent went to
    sockets that exist, and the first packet sent to any socket is the Ack
    packet carrying the id of its connection: a client never gets a map,
    game, particles or sound packet before its Ack. *)
Theorem X20_the_first_packet_is_the_ack (s : State) :
  reachable DIRECTION_VEC World_tick s -> ack_first s.
Proof.
  intros (w & fuel & evs & Hrun).
  assert (Hall : all_sound s /\ sockets_sound s /\ ack_first s); [|apply Hall].
  revert Hrun.
  assert (Hinit : all_sound (Server.init (V := V) (Weapon := Weapon) w) /\
                  sockets_sound (Server.init (V := V) (Weapon := Weapon) w) /\
                  ack_first (Server.init (V := V) (Weapon := Weapon) w)).
  { split; [intros h c Hc; destruct h; discriminate Hc|].
    split; [intros i h Hi; cbn in Hi; rewrite lookup_empty in Hi; discriminate|].
    split; [intros h pkt [] | intros h c Hc; destruct h; discriminate Hc]. }
  revert Hinit. generalize (Server.init (V := V) (Weapon := Weapon) w) as s0.
  induction evs as [|[now ev] evs IH]; intros s0 Hinit Hrun.
  - injection Hrun as <-. exact Hinit.
  - cbn [Server.run] in Hrun. destruct (step fuel now s0 ev) as [s1| |] eqn:Hstep; try discriminate.
    destruct Hinit as (Hinv & Hsock & Hack).
    apply (IH s1); [|exact Hrun].
    split; [exact (step_all_sound fuel now s0 s1 ev Hinv Hstep)|].
    split; [exact (step_sockets_sound fuel now s0 s1 ev Hinv Hsock Hstep)|].
    exact (step_ack_first fuel now s0 s1 ev Hinv Hsock Hack Hstep).
Qed.

End EventLoopFacts.

(** ** The scenario, run through the properties of the event loop *)

(** [Scenario.connected] and [Scenario.accepted] are states of runs from
    the start. *)
Ltac scenario_reachable evs :=
  exists (World.mk [] [] [] [] [] [] [] [] []), 100%nat, evs; reflexivity.

(** X11 in the scenario: the answer of "c1" at 100 ms gets it accepted. *)
Lemma X11_acceptance_witness :
  Server.step Sample.DIRECTION_VEC Sample.World_tick 100 100 Scenario.connected
    (Server.Message 0 Scenario.response) = Ok Scenario.accepted /\
  Server.conns Scenario.accepted !! 0%nat = Some Scenario.member /\
  Server.heap Scenario.accepted = [Sample.alice] /\
  Server.outbox Scenario.accepted =
    [(0%nat, Server.AckPacket "c1"); (0%nat, Server.MapPacket);
     (0%nat, Server.GamePacket 1 true)].
Proof.
  split; [|repeat split].
  apply (X11_acceptance Sample.DIRECTION_VEC Sample.World_tick 100 100 Scenario.connected 0
           Scenario.fresh Scenario.response "alice").
  - reflexivity.
  - reflexivity.
  - reflexivity.
  - discriminate.
  - reflexivity.
Defined.

(** X12 in the scenario: the accepted connection closes. *)
Lemma X12_close_unregisters_the_socket_witness :
  (forall i, Server.sockets (Server.on_close 0 Scenario.accepted) !! i <> Some 0%nat) /\
  (forall i, i <> Server.id Scenario.member ->
     Server.sockets (Server.on_close 0 Scenario.accepted) !! i =
     Server.sockets Scenario.accepted !! i) /\
  Server.numberOfPlayers (Server.on_close 0 Scenario.accepted) =
    (if Server.connected Scenario.member
     then Server.numberOfPlayers Scenario.accepted - 1
     else Server.numberOfPlayers Scenario.accepted) /\
  Server.world (Server.on_close 0 Scenario.accepted) = Server.world Scenario.accepted /\
  Server.heap (Server.on_close 0 Scenario.accepted) = Server.heap Scenario.accepted /\
  Server.outbox (Server.on_close 0 Scenario.accepted) = Server.outbox Scenario.accepted /\
  (forall h', h' <> 0%nat ->
     Server.conns (Server.on_close 0 Scenario.accepted) !! h' =
     Server.conns Scenario.accepted !! h') /\
  Server.step Sample.DIRECTION_VEC Sample.World_tick 100 200
    (Server.on_close 0 Scenario.accepted) (Server.Close 0) =
  Ok (Server.on_close 0 Scenario.accepted).
Proof.
  apply (X12_close_unregisters_the_socket (number := float) (Item := string)
           Sample.DIRECTION_VEC Sample.World_tick 100 200 Scenario.accepted 0 Scenario.member).
  - scenario_reachable Scenario.accept_events.
  - reflexivity.
  - discriminate.
Defined.

(** X13 in the scenario: the wait timer of the accepted connection fires at
    10000 ms. *)
Lemma X13_wait_timer_is_harmless_after_acceptance_witness :
  Server.on_wait_elapsed 10000 0 Scenario.accepted = Scenario.accepted \/
  Server.on_wait_elapsed 10000 0 Scenario.accepted =
    Server.set_conn 0 (Server.set_wait_pending false Scenario.member) Scenario.accepted.
Proof.
  apply (X13_wait_timer_is_harmless_after_acceptance (number := float) (Item := string)
           Sample.DIRECTION_VEC Sample.World_tick 10000 Scenario.accepted 0 Scenario.member
           (Server.mkSession 0 (Server.mkTimer 30100 true) [false; false; false; false] ∅)).
  - scenario_reachable Scenario.accept_events.
  - reflexivity.
  - reflexivity.
Defined.

(** X14 in the scenario, after the acceptance. *)
Lemma X14_sockets_hold_only_live_connections_witness :
  sockets_sound Scenario.accepted.
Proof.
  apply (X14_sockets_hold_only_live_connections (number := float) (Item := string)
           Sample.DIRECTION_VEC Sample.World_tick Scenario.accepted).
  scenario_reachable Scenario.accept_events.
Defined.


(** X16 in the scenario: the event is the message that gets "c1" accepted. *)
Lemma X16_only_acceptance_touches_the_world_witness :
  (Server.world Scenario.accepted = Server.world Scenario.connected /\
   length (Server.heap Scenario.accepted) = length (Server.heap Scenario.connected) /\
   (Server.numberOfPlayers Scenario.accepted = Server.numberOfPlayers Scenario.connected \/
    (Server.numberOfPlayers Scenario.accepted = Server.numberOfPlayers Scenario.connected - 1 /\
     exists h, Server.Message 0 Scenario.response = Server.Close h)))
  \/
  (exists h msg pl,
     Server.Message 0 Scenario.response = Server.Message h msg /\
     Server.world Scenario.accepted =
       World.push_entity (Server.PlayerRef (length (Server.heap Scenario.connected)))
         (Server.world Scenario.connected) /\
     Server.heap Scenario.accepted = Server.heap Scenario.connected ++ [pl] /\
     Server.numberOfPlayers Scenario.accepted = Server.numberOfPlayers Scenario.connected + 1).
Proof.
  apply (X16_only_acceptance_touches_the_world Sample.DIRECTION_VEC Sample.World_tick 100 100
           Scenario.connected Scenario.accepted (Server.Message 0 Scenario.response)).
  - scenario_reachable Scenario.connect_events.
  - discriminate.
  - reflexivity.
Defined.

(** X17 in the scenario: a tick after the acceptance. *)
Lemma X17_tick_loop_sends_to_live_sockets_only_witness :
  Server.sockets (Server.on_interval Sample.World_tick Scenario.accepted) =
    Server.sockets Scenario.accepted /\
  Server.numberOfPlayers (Server.on_interval Sample.World_tick Scenario.accepted) =
    Server.numberOfPlayers Scenario.accepted /\
  Server.conns (Server.on_interval Sample.World_tick Scenario.accepted) =
    Server.conns Scenario.accepted /\
  exists sent,
    Server.outbox (Server.on_interval Sample.World_tick Scenario.accepted) =
      Server.outbox Scenario.accepted ++ sent /\
    forall h pkt, In (h, pkt) sent ->
      (exists c, Server.conns Scenario.accepted !! h = Some c /\
                 Server.readyState c <> Server.CLOSED /\
                 Server.sockets Scenario.accepted !! Server.id c = Some h) /\
      (forall n full, pkt = Server.GamePacket n full ->
         n = Server.numberOfPlayers Scenario.accepted /\ full = false).
Proof.
  apply (X17_tick_loop_sends_to_live_sockets_only (number := float) (Item := string)
           Sample.DIRECTION_VEC Sample.World_tick Scenario.accepted).
  scenario_reachable Scenario.accept_events.
Defined.

(** X18 in the scenario: "c1" is accepted at 100 ms and closes at 200 ms. *)
Lemma X18_accept_then_close_leaves_the_player_witness :
  exists s2,
    Server.run Sample.DIRECTION_VEC Sample.World_tick 100 Scenario.connected
      [(100, Server.Message 0 Scenario.response); (200, Server.Close 0)] = Ok s2 /\
    Server.numberOfPlayers s2 = Server.numberOfPlayers Scenario.connected /\
    Server.sockets s2 = delete (Server.id Scenario.fresh) (Server.sockets Scenario.connected) /\
    World.entities (Server.world s2) =
      World.entities (Server.world Scenario.connected)
        ++ [Server.PlayerRef (length (Server.heap Scenario.connected))] /\
    Server.heap s2 =
      Server.heap Scenario.connected ++ [Player.new (Server.id Scenario.fresh) "alice"] /\
    (Server.readyState <$> Server.conns s2 !! 0%nat) = Some Server.CLOSED.
Proof.
  apply (X18_accept_then_close_leaves_the_player Sample.DIRECTION_VEC Sample.World_tick 100
           100 200 Scenario.connected 0 Scenario.fresh Scenario.response "alice").
  - reflexivity.
  - reflexivity.
  - reflexivity.
  - discriminate.
  - reflexivity.
Defined.

(** X19 in the scenario: "c1" closes before it answers; its answer at
    300 ms and the wait timer at 10000 ms come too late. *)
Lemma X19_closed_before_acceptance_is_final_witness :
  exists c',
    Server.conns
      (Server.on_wait_elapsed 10000 0 (Server.on_close 0 Scenario.connected)) !! 0%nat =
      Some c' /\
    closed_unaccepted c'.
Proof.
  apply (X19_closed_before_acceptance_is_final Sample.DIRECTION_VEC Sample.World_tick 100
           Scenario.connected
           (Server.on_wait_elapsed 10000 0 (Server.on_close 0 Scenario.connected))
           0 Scenario.fresh
           [(300, Server.Message 0 Scenario.response); (10000, Server.WaitElapsed 0)]).
  - scenario_reachable Scenario.connect_events.
  - reflexivity.
  - discriminate.
  - reflexivity.
  - reflexivity.
Defined.

(** X20 in the scenario, after the acceptance. *)
Lemma X20_the_first_packet_is_the_ack_witness :
  ack_first Scenario.accepted.
Proof.
  apply (X20_the_first_packet_is_the_ack (number := float) (Item := string)
           Sample.DIRECTION_VEC Sample.World_tick Scenario.accepted).
  scenario_reachable Scenario.accept_events.
Defined.
